(** * foldy: folder-name analysis, suggestions and the change/undo journal

    A shallow embedding of [src/nlp.py] (the name pattern analyzer) and of
    [src/organizer.py] (scanner, relocation scoring, apply / undo / explode)
    together with the properties of the specification that concern them.

    Conventions of the embedding
    - Python [str] values are Rocq [string]s; the builtin [str] methods are
      given for the ASCII code points (letters [A-Z], [a-z], digits [0-9]);
      every other code point is uncased and not a digit.
    - An absolute, normalised POSIX path is the list of its components, so the
      root directory [/] is [[]], [os.path.join p name] is [p ++ [name]] for a
      one-component [name], [os.path.dirname] is [removelast] and
      [os.path.basename] is the last component.
    - The file system is a finite map from paths to entries; a regular file
      carries an inode number that identifies it (contents are never read).
    - Python exceptions are values of [exn]; code that can raise runs in a
      state-and-exception monad whose state survives a raise, as the side
      effects of a Python call do. *)

From stdpp Require Import gmap strings list fin_maps sorting.
From Stdlib Require Import Ascii String.
From Stdlib Require Uint63.
From Stdlib Require Import PrimFloat.

#[local] Set Warnings "-register-all".

#[local] Open Scope string_scope.
#[local] Open Scope list_scope.

(* ===================================================================== *)
(** * Python values used by the sources *)
(* ===================================================================== *)

(** The exceptions the modelled code can raise; all derive from
    [Exception], so an [except Exception] clause catches each of them. *)
Inductive exn : Type :=
  | IndexError
  | KeyError (key : string)
  | JSONDecodeError
  | RecursionError
  | FileNotFoundError (p : list string)
  | FileExistsError (p : list string)
  | NotADirectoryError (p : list string)
  | IsADirectoryError (p : list string)
  | OSError (p : list string)
  | ShutilError (p : list string).

Inductive outcome (A : Type) : Type :=
  | Ret (a : A)
  | Raise (e : exn).
Arguments Ret {A} a.
Arguments Raise {A} e.

Module Py.

Definition code (c : ascii) : N := N_of_ascii c.

(** [str.isupper], [str.islower], [str.isdigit] and [str.isspace] on one
    character. *)
Definition c_isupper (c : ascii) : bool := (65 <=? code c)%N && (code c <=? 90)%N.
Definition c_islower (c : ascii) : bool := (97 <=? code c)%N && (code c <=? 122)%N.
Definition c_isdigit (c : ascii) : bool := (48 <=? code c)%N && (code c <=? 57)%N.
Definition c_isspace (c : ascii) : bool :=
  ((9 <=? code c)%N && (code c <=? 13)%N)
  || ((28 <=? code c)%N && (code c <=? 32)%N).

Definition c_lower (c : ascii) : ascii :=
  if c_isupper c then ascii_of_N (code c + 32) else c.
Definition c_upper (c : ascii) : ascii :=
  if c_islower c then ascii_of_N (code c - 32) else c.

Fixpoint str_exists (p : ascii -> bool) (s : string) : bool :=
  match s with
  | EmptyString => false
  | String c s' => p c || str_exists p s'
  end.

Fixpoint str_map (f : ascii -> ascii) (s : string) : string :=
  match s with
  | EmptyString => EmptyString
  | String c s' => String (f c) (str_map f s')
  end.

(** [s.islower()]: no uppercase character and at least one cased one. *)
Definition islower (s : string) : bool :=
  negb (str_exists c_isupper s) && str_exists c_islower s.
(** [s.isupper()]: no lowercase character and at least one cased one. *)
Definition isupper (s : string) : bool :=
  negb (str_exists c_islower s) && str_exists c_isupper s.

Definition lower (s : string) : string := str_map c_lower s.
Definition upper (s : string) : string := str_map c_upper s.

(** [s.count(c)] and [c in s] for a one-character [c]. *)
Fixpoint count (c : ascii) (s : string) : nat :=
  match s with
  | EmptyString => 0
  | String d s' => ((if Ascii.eqb c d then 1 else 0) + count c s')%nat
  end.
Definition contains (c : ascii) (s : string) : bool :=
  str_exists (Ascii.eqb c) s.

(** [sep.join(words)]. *)
Fixpoint join (sep : string) (words : list string) : string :=
  match words with
  | [] => ""
  | [w] => w
  | w :: ws => w +:+ sep +:+ join sep ws
  end.

(** [sub in s] for strings. *)
Fixpoint is_substring (sub s : string) : bool :=
  String.prefix sub s
  || match s with
     | EmptyString => false
     | String _ s' => is_substring sub s'
     end.

(** [int(s)] on a string of ASCII digits. *)
Fixpoint int_digits (acc : N) (s : string) : N :=
  match s with
  | EmptyString => acc
  | String c s' => int_digits (10 * acc + (code c - 48)) s'
  end.
Definition int (s : string) : N := int_digits 0 s.

(** [str(n)] for a natural number. *)
Definition digit_char (d : N) : ascii := ascii_of_N (48 + d).
Fixpoint str_N_fuel (fuel : nat) (n : N) (acc : string) : string :=
  match fuel with
  | O => acc
  | S fuel' =>
      let acc' := String (digit_char (n mod 10)) acc in
      if (n <? 10)%N then acc' else str_N_fuel fuel' (n / 10) acc'
  end.
Definition str_N (n : N) : string := str_N_fuel (S (N.to_nat (N.log2 n))) n "".

(** The format [f"{n:02d}"]: decimal, padded with zeros to two digits. *)
Definition format_02d (n : N) : string :=
  if (n <? 10)%N then String "0" (str_N n) else str_N n.

(** ** The regular expressions of [nlp.py]

    A pattern is a sequence of atoms, each of which captures the text it
    matched; [re.match] anchors the pattern at the start of the string.
    Repetition is greedy and backtracks, as in the [re] module. *)
Inductive atom : Type :=
  | One (cls : ascii -> bool)                  (* [...]      *)
  | Many (cls : ascii -> bool) (least : nat)   (* [...]* and [...]+ *)
  | Eos.                                       (* $          *)

Definition at_end (s : string) : bool :=
  match s with
  | EmptyString => true
  | String c EmptyString => Ascii.eqb c "010"
  | _ => false
  end.

Fixpoint re_match (pat : list atom) (s : string) {struct pat}
  : option (list string) :=
  match pat with
  | [] => Some []
  | One cls :: rest =>
      match s with
      | String c s' =>
          if cls c then
            match re_match rest s' with
            | Some caps => Some (String c "" :: caps)
            | None => None
            end
          else None
      | EmptyString => None
      end
  | Many cls least :: rest =>
      let fix many (s : string) (taken : nat) {struct s}
        : option (string * list string) :=
        let stop :=
          if (least <=? taken)%nat
          then match re_match rest s with
               | Some caps => Some ("", caps)
               | None => None
               end
          else None in
        match s with
        | String c s' =>
            if cls c then
              match many s' (S taken) with
              | Some (cap, caps) => Some (String c cap, caps)
              | None => stop
              end
            else stop
        | EmptyString => stop
        end in
      match many s 0 with
      | Some (cap, caps) => Some (cap :: caps)
      | None => None
      end
  | Eos :: rest =>
      if at_end s then
        match re_match rest s with
        | Some caps => Some ("" :: caps)
        | None => None
        end
      else None
  end.

(** The character classes [\d], [[_\-\s]] and [.]. *)
Definition cls_digit : ascii -> bool := c_isdigit.
Definition cls_sep (c : ascii) : bool :=
  Ascii.eqb c "_" || Ascii.eqb c "-" || c_isspace c.
Definition cls_dot (c : ascii) : bool := negb (Ascii.eqb c "010").

(** [re.split(r'[_\-\s]', s)]: the pieces between separator characters,
    empty pieces included. *)
Fixpoint re_split_sep (s : string) (cur : string) : list string :=
  match s with
  | EmptyString => [cur]
  | String c s' =>
      if cls_sep c then cur :: re_split_sep s' ""
      else re_split_sep s' (cur +:+ String c "")
  end.

(** ** More [str] methods *)

(** [s.capitalize()]: the first character in upper case, the rest in
    lower case. *)
Definition capitalize (s : string) : string :=
  match s with
  | EmptyString => ""
  | String c rest => String (c_upper c) (lower rest)
  end.

(** [s.replace(old, new)] for a non-empty [old]: the occurrences of [old]
    are replaced from left to right and do not overlap; [skip] counts the
    characters of an occurrence still to be passed over. *)
Fixpoint replace_from (old new s : string) (skip : nat) : string :=
  match s with
  | EmptyString => ""
  | String c s' =>
      match skip with
      | S skip' => replace_from old new s' skip'
      | O =>
          if String.prefix old s
          then new +:+ replace_from old new s' (String.length old - 1)
          else String c (replace_from old new s' 0)
      end
  end.
Definition replace (old new s : string) : string := replace_from old new s 0.

(** [s.rstrip(chars)] *)
Fixpoint rstrip (chars : ascii -> bool) (s : string) : string :=
  match s with
  | EmptyString => ""
  | String c s' =>
      match rstrip chars s' with
      | EmptyString => if chars c then "" else String c ""
      | r => String c r
      end
  end.

(** [any(c.isdigit() for c in s)] *)
Definition has_digit (s : string) : bool := str_exists c_isdigit s.

(** [s[n:]] *)
Fixpoint str_drop (n : nat) (s : string) : string :=
  match n, s with
  | S n', String _ s' => str_drop n' s'
  | _, _ => s
  end.

(** The string [s] without the occurrences of the character [c]. *)
Fixpoint without (c : ascii) (s : string) : string :=
  match s with
  | EmptyString => ""
  | String d s' => if Ascii.eqb d c then without c s' else String d (without c s')
  end.

(** Every character of [s] is in the class [cls]; no character of [s] is
    a separator. *)
Definition only (cls : ascii -> bool) (s : string) : Prop :=
  Forall (fun c => cls c = true) (list_ascii_of_string s).
Definition no_sep (s : string) : Prop := only (fun c => negb (cls_sep c)) s.

(** [re.search(pat, s)]: the first position at which [pat] matches. *)
Fixpoint re_search (pat : list atom) (s : string) : option (list string) :=
  match re_match pat s with
  | Some caps => Some caps
  | None =>
      match s with
      | EmptyString => None
      | String _ s' => re_search pat s'
      end
  end.

(** [min(l, key=len)] for a list [first :: rest]: the first string of least
    length. *)
Definition min_by_len (first : string) (rest : list string) : string :=
  fold_left
    (fun best s => if (String.length s <? String.length best)%nat then s else best)
    rest first.

(** The longest common prefix of two strings, and
    [os.path.commonprefix(m)]: the longest string that is a prefix of
    every string of [m], the empty string for an empty list. *)
Fixpoint common_prefix2 (s t : string) : string :=
  match s, t with
  | String c s', String d t' =>
      if Ascii.eqb c d then String c (common_prefix2 s' t') else ""
  | _, _ => ""
  end.
Definition commonprefix (m : list string) : string :=
  match m with
  | [] => ""
  | s :: m' => fold_left common_prefix2 m' s
  end.

(** ** Dictionaries kept in insertion order *)

(** [d[key] = value] *)
Fixpoint dict_set {K V} `{EqDecision K} (key : K) (value : V) (d : list (K * V))
  : list (K * V) :=
  match d with
  | [] => [(key, value)]
  | (k, v) :: d' =>
      if bool_decide (k = key) then (k, value) :: d' else (k, v) :: dict_set key value d'
  end.

(** [d[key].append(x)] on a [defaultdict(list)] *)
Fixpoint dd_append {K V} `{EqDecision K} (key : K) (x : V) (d : list (K * list V))
  : list (K * list V) :=
  match d with
  | [] => [(key, [x])]
  | (k, v) :: d' =>
      if bool_decide (k = key) then (k, v ++ [x]) :: d' else (k, v) :: dd_append key x d'
  end.

(** [enumerate(l)] *)
Definition enumerate {A} (l : list A) : list (nat * A) :=
  combine (seq 0 (List.length l)) l.

End Py.

(* ===================================================================== *)
(** * [src/nlp.py]: the name pattern analyzer *)
(* ===================================================================== *)

Module Nlp.
Import Py.

(** A Python [dict] from bucket names to lists of folder names, in
    insertion order. *)
Abbreviation buckets := (list (string * list string)).

(** [d[key].append(name)] for a key that is present. *)
Definition bucket_append (key name : string) (d : buckets) : buckets :=
  map (fun kv => if String.eqb (fst kv) key then (fst kv, snd kv ++ [name]) else kv) d.

(** [d.get(key, [])]. *)
Fixpoint bucket_get (key : string) (d : buckets) : list string :=
  match d with
  | [] => []
  | (k, v) :: d' => if String.eqb k key then v else bucket_get key d'
  end.

(** [{k: v for k, v in d.items() if v}]. *)
Definition drop_empty (d : buckets) : buckets :=
  filter (fun kv => snd kv <> []) d.

(** [name] is listed under exactly one key of [d]. *)
Definition one_bucket (d : buckets) (name : string) : Prop :=
  exists key, name ∈ bucket_get key d
              /\ forall key', name ∈ bucket_get key' d -> key' = key.

(** The body of the loop of [_analyze_case_patterns]: the bucket the
    [if]/[elif] chain appends [name] to.  [name[0]] raises [IndexError]
    on the empty string. *)
Definition case_bucket (name : string) : outcome string :=
  if islower name then Ret "lowercase"
  else if isupper name then Ret "uppercase"
  else
    match name with
    | EmptyString => Raise IndexError
    | String c0 rest =>
        if c_isupper c0 && islower rest then Ret "capitalized"
        else if negb (isupper name) && negb (islower name)
                && negb (contains "_" name) && negb (contains "-" name)
                && negb (contains " " name)
        then
          if str_exists c_isupper rest then Ret "camelcase" else Ret "mixed"
        else Ret "mixed"
    end.

Fixpoint case_loop (d : buckets) (folder_names : list string) : outcome buckets :=
  match folder_names with
  | [] => Ret d
  | name :: rest =>
      match case_bucket name with
      | Ret key => case_loop (bucket_append key name d) rest
      | Raise e => Raise e
      end
  end.

(** The key [case_bucket] answers, when it answers. *)
Definition case_key (name : string) : string :=
  match case_bucket name with
  | Ret key => key
  | Raise _ => ""
  end.

Definition _analyze_case_patterns (folder_names : list string) : outcome buckets :=
  let case_patterns :=
    [("lowercase", []); ("uppercase", []); ("capitalized", []);
     ("camelcase", []); ("mixed", [])] in
  match case_loop case_patterns folder_names with
  | Ret d => Ret (drop_empty d)
  | Raise e => Raise e
  end.

(** The body of the loop of [_analyze_separator_patterns]. *)
Definition separator_bucket (name : string) : string :=
  let underscore_count := count "_" name in
  let hyphen_count := count "-" name in
  let space_count := count " " name in
  if (0 <? underscore_count)%nat && (hyphen_count =? 0)%nat && (space_count =? 0)%nat
  then "underscore"
  else if (0 <? hyphen_count)%nat && (underscore_count =? 0)%nat && (space_count =? 0)%nat
  then "hyphen"
  else if (0 <? space_count)%nat && (underscore_count =? 0)%nat && (hyphen_count =? 0)%nat
  then "space"
  else if (underscore_count =? 0)%nat && (hyphen_count =? 0)%nat && (space_count =? 0)%nat
  then "no_separator"
  else "mixed".

Definition _analyze_separator_patterns (folder_names : list string) : buckets :=
  let separator_patterns :=
    [("underscore", []); ("hyphen", []); ("space", []);
     ("no_separator", []); ("mixed", [])] in
  drop_empty
    (fold_left (fun d name => bucket_append (separator_bucket name) name d)
               folder_names separator_patterns).

(** The [patterns] dictionary of [_standardize_name]; [numbering] may be
    [None]. *)
Record patterns : Type := {
  p_case : string;
  p_separator : string;
  p_numbering : option string
}.

(** The [components] dictionary built by [_parse_name_components]. *)
Record components : Type := {
  prefix_number : option string;
  prefix_separator : option string;
  main_text : string;
  suffix_separator : option string;
  suffix_number : option string;
  words : list string
}.

(** The leading-number pattern (digits, one separator, the rest of the
    line) and the trailing-number pattern (a greedy prefix, one separator,
    digits up to the end), with one capture per atom. *)
Definition prefix_re : list atom := [Many cls_digit 1; One cls_sep; Many cls_dot 0].
Definition suffix_re : list atom := [Many cls_dot 0; One cls_sep; Many cls_digit 1; Eos].

Definition _parse_name_components (name : string) : components :=
  let '(pn, ps, text) :=
    match re_match prefix_re name with
    | Some [g1; g2; g3] => (Some g1, Some g2, g3)
    | _ => (None, None, name)
    end in
  let '(text', ss, sn) :=
    match re_match suffix_re text with
    | Some [g1; g2; g3; _] => (g1, Some g2, Some g3)
    | _ => (text, None, None)
    end in
  {| prefix_number := pn; prefix_separator := ps; main_text := text';
     suffix_separator := ss; suffix_number := sn;
     words := filter (fun w => w <> "") (re_split_sep text' "") |}.

(** [w[0].upper() + w[1:].lower() if w else ''] *)
Definition capitalize_word (w : string) : string :=
  match w with
  | EmptyString => ""
  | String c rest => String (c_upper c) (lower rest)
  end.

Definition _reconstruct_name (c : components) (p : patterns) : outcome string :=
  let finish (ws : list string) : outcome string :=
    let separator :=
      if String.eqb (p_separator p) "underscore" then "_"
      else if String.eqb (p_separator p) "hyphen" then "-"
      else if String.eqb (p_separator p) "space" then " "
      else "_" in
    let main_text := join separator ws in
    let padded :=
      match p_numbering p with
      | Some n => String.eqb n "padded_number"
      | None => false
      end in
    let result := main_text in
    let result :=
      match prefix_number c with
      | Some num =>
          if padded then format_02d (int num) +:+ separator +:+ main_text
          else num +:+ separator +:+ main_text
      | None => result
      end in
    let result :=
      match suffix_number c with
      | Some num =>
          if padded then main_text +:+ separator +:+ format_02d (int num)
          else main_text +:+ separator +:+ num
      | None => result
      end in
    Ret result in
  if String.eqb (p_case p) "lowercase" then finish (map lower (words c))
  else if String.eqb (p_case p) "uppercase" then finish (map upper (words c))
  else if String.eqb (p_case p) "capitalized" then finish (map capitalize_word (words c))
  else if String.eqb (p_case p) "camelcase" then
    match words c with
    | [] => Raise IndexError
    | w0 :: ws => Ret (join "" (lower w0 :: map capitalize_word ws))
    end
  else finish (words c).

Definition _standardize_name (name : string) (p : patterns) : outcome string :=
  let name_components := _parse_name_components name in
  _reconstruct_name name_components p.

(** ** Numbering patterns *)

Definition cls_zero (c : ascii) : bool := Ascii.eqb c "0".
Definition cls_v (c : ascii) : bool := Ascii.eqb c "v" || Ascii.eqb c "V".
Definition cls_dot_or_underscore (c : ascii) : bool :=
  Ascii.eqb c "." || Ascii.eqb c "_".

(** The five patterns of [_analyze_numbering_patterns]: a leading number,
    a zero-padded leading number, a trailing number, a zero-padded
    trailing number, and a version number (letter v, digits, a dot or an
    underscore, digits; the case of the letter is ignored). *)
Definition leading_re : list atom := [Many cls_digit 1; One cls_sep].
Definition padded_leading_re : list atom :=
  [One cls_zero; Many cls_digit 1; One cls_sep].
Definition trailing_re : list atom :=
  [Many cls_dot 0; One cls_sep; Many cls_digit 1; Eos].
Definition padded_trailing_re : list atom :=
  [Many cls_dot 0; One cls_sep; One cls_zero; Many cls_digit 1; Eos].
Definition version_re : list atom :=
  [One cls_v; Many cls_digit 1; One cls_dot_or_underscore; Many cls_digit 1].

Definition matched (m : option (list string)) : bool :=
  match m with Some _ => true | None => false end.

(** The body of the loop of [_analyze_numbering_patterns]: the bucket the
    name is appended to, [None] for a name with digits that fits no
    pattern. *)
Definition numbering_bucket (name : string) : option string :=
  if matched (re_match leading_re name) then
    if matched (re_match padded_leading_re name)
    then Some "padded_number" else Some "leading_number"
  else if matched (re_match trailing_re name) then
    if matched (re_match padded_trailing_re name)
    then Some "padded_number" else Some "trailing_number"
  else if matched (re_search version_re name) then Some "version_number"
  else if negb (has_digit name) then Some "no_number"
  else None.

Definition _analyze_numbering_patterns (folder_names : list string) : buckets :=
  let numbering_patterns :=
    [("leading_number", []); ("trailing_number", []); ("padded_number", []);
     ("no_number", []); ("version_number", [])] in
  drop_empty
    (fold_left
       (fun d name =>
          match numbering_bucket name with
          | Some key => bucket_append key name d
          | None => d
          end)
       folder_names numbering_patterns).

(** ** The dominant patterns *)

(** The loop [for pattern, names in patterns.items()] that keeps the
    first pattern of greatest count; [skip] is the pattern that
    [_detect_dominant_numbering_pattern] leaves out. *)
Fixpoint dominant_loop (skip : option string) (items : buckets)
  (dominant_pattern : option string) (max_count : nat) : option string :=
  match items with
  | [] => dominant_pattern
  | (pattern, names) :: items' =>
      if (max_count <? List.length names)%nat
         && negb (bool_decide (skip = Some pattern))
      then dominant_loop skip items' (Some pattern) (List.length names)
      else dominant_loop skip items' dominant_pattern max_count
  end.

(** [x or fallback] for an optional string [x]: [None] and the empty
    string are false. *)
Definition or_else (x : option string) (fallback : string) : string :=
  match x with
  | Some s => if String.eqb s "" then fallback else s
  | None => fallback
  end.

Definition _detect_dominant_case_pattern (folder_names : list string)
  : outcome string :=
  match _analyze_case_patterns folder_names with
  | Ret patterns => Ret (or_else (dominant_loop None patterns None 0) "lowercase")
  | Raise e => Raise e
  end.

Definition _detect_dominant_separator_pattern (folder_names : list string) : string :=
  let patterns := _analyze_separator_patterns folder_names in
  or_else (dominant_loop None patterns None 0) "underscore".

(** [dominant_pattern or None] *)
Definition _detect_dominant_numbering_pattern (folder_names : list string)
  : option string :=
  let patterns := _analyze_numbering_patterns folder_names in
  match dominant_loop (Some "no_number") patterns None 0 with
  | Some s => if String.eqb s "" then None else Some s
  | None => None
  end.

(** The loop of [suggest_name_standardization] over the names. *)
Fixpoint standardize_loop (preferred_patterns : patterns)
  (folder_names : list string) (standardized_names : list (string * string))
  : outcome (list (string * string)) :=
  match folder_names with
  | [] => Ret standardized_names
  | name :: rest =>
      match _standardize_name name preferred_patterns with
      | Ret new_name =>
          standardize_loop preferred_patterns rest
            (if String.eqb new_name name then standardized_names
             else dict_set name new_name standardized_names)
      | Raise e => Raise e
      end
  end.

(** [suggest_name_standardization]; [preferred_patterns] is [None] when
    the caller leaves it out. *)
Definition suggest_name_standardization (folder_names : list string)
  (preferred_patterns : option patterns) : outcome (list (string * string)) :=
  match folder_names with
  | [] => Ret []
  | _ :: _ =>
      match preferred_patterns with
      | Some p => standardize_loop p folder_names []
      | None =>
          match _detect_dominant_case_pattern folder_names with
          | Ret case =>
              let p := {| p_case := case;
                          p_separator := _detect_dominant_separator_pattern folder_names;
                          p_numbering := _detect_dominant_numbering_pattern folder_names |} in
              standardize_loop p folder_names []
          | Raise e => Raise e
          end
      end
  end.

(** ** The longest common substring *)

(** The inner loop [for start in range(len(shortest) - length + 1)]. *)
Fixpoint common_at (strings : list string) (shortest : string) (length : nat)
  (starts : list nat) : option string :=
  match starts with
  | [] => None
  | start :: starts' =>
      let substr := String.substring start length shortest in
      if forallb (is_substring substr) strings then Some substr
      else common_at strings shortest length starts'
  end.

(** The outer loop [for length in range(len(shortest), 0, -1)]. *)
Fixpoint common_of_length (strings : list string) (shortest : string)
  (lengths : list nat) : string :=
  match lengths with
  | [] => ""
  | length :: lengths' =>
      match common_at strings shortest length
              (seq 0 (String.length shortest - length + 1)) with
      | Some substr => substr
      | None => common_of_length strings shortest lengths'
      end
  end.

Definition _find_common_substring (strings : list string) : string :=
  match strings with
  | [] => ""
  | [_] => ""
  | first :: rest =>
      let shortest := min_by_len first rest in
      common_of_length strings shortest (rev (seq 1 (String.length shortest)))
  end.

End Nlp.

(* ===================================================================== *)
(** * [difflib.SequenceMatcher(None, a, b).ratio()] *)
(* ===================================================================== *)

Module Difflib.

Definition float_of_nat (n : nat) : float :=
  PrimFloat.of_uint63 (Uint63.of_Z (Z.of_nat n)).

Section matcher.
Variables a b : list ascii.

(** With [autojunk] (the default), in a second sequence of at least 200
    elements, an element that occurs more than [len(b) // 100 + 1]
    times is popular and is left out of the index [b2j]. *)
Definition popular (c : ascii) : bool :=
  (200 <=? List.length b)%nat
  && (List.length b / 100 + 1 <? List.length (filter (fun d => d = c) b))%nat.

Fixpoint indices_of (c : ascii) (l : list ascii) (j : nat) : list nat :=
  match l with
  | [] => []
  | d :: l' => if Ascii.eqb c d then j :: indices_of c l' (S j) else indices_of c l' (S j)
  end.

(** [b2j.get(c, [])] *)
Definition b2j (c : ascii) : list nat :=
  if popular c then [] else indices_of c b 0.

(** [j2len.get(j - 1, 0)] *)
Definition j2len_get (j2len : gmap nat nat) (j : nat) : nat :=
  match j with
  | O => 0
  | S j' => default 0 (j2len !! j')
  end.

(** The inner [for j in b2j[a[i]]] loop of [find_longest_match]. *)
Fixpoint scan_js (blo bhi i : nat) (js : list nat) (j2len newj2len : gmap nat nat)
  (best : nat * nat * nat) : gmap nat nat * (nat * nat * nat) :=
  match js with
  | [] => (newj2len, best)
  | j :: js' =>
      if (j <? blo)%nat then scan_js blo bhi i js' j2len newj2len best
      else if (bhi <=? j)%nat then (newj2len, best)
      else
        let k := S (j2len_get j2len j) in
        let best' :=
          if (snd best <? k)%nat then (i + 1 - k, j + 1 - k, k) else best in
        scan_js blo bhi i js' j2len (<[j := k]> newj2len) best'
  end.

(** The outer [for i in range(alo, ahi)] loop. *)
Fixpoint scan_is (blo bhi : nat) (is_ : list nat) (j2len : gmap nat nat)
  (best : nat * nat * nat) : nat * nat * nat :=
  match is_ with
  | [] => best
  | i :: is' =>
      match a !! i with
      | Some c =>
          let '(newj2len, best') := scan_js blo bhi i (b2j c) j2len ∅ best in
          scan_is blo bhi is' newj2len best'
      | None => best
      end
  end.

(** The two loops that extend the match with non-junk elements on both
    sides; no element is junk when [isjunk] is [None]. *)
Fixpoint extend_left (fuel alo blo : nat) (best : nat * nat * nat) : nat * nat * nat :=
  let '(besti, bestj, bestsize) := best in
  match fuel with
  | O => best
  | S fuel' =>
      if (alo <? besti)%nat && (blo <? bestj)%nat
         && bool_decide (a !! (besti - 1) = b !! (bestj - 1))
      then extend_left fuel' alo blo (besti - 1, bestj - 1, S bestsize)
      else best
  end.

Fixpoint extend_right (fuel ahi bhi : nat) (best : nat * nat * nat) : nat * nat * nat :=
  let '(besti, bestj, bestsize) := best in
  match fuel with
  | O => best
  | S fuel' =>
      if (besti + bestsize <? ahi)%nat && (bestj + bestsize <? bhi)%nat
         && bool_decide (a !! (besti + bestsize) = b !! (bestj + bestsize))
      then extend_right fuel' ahi bhi (besti, bestj, S bestsize)
      else best
  end.

Definition find_longest_match (alo ahi blo bhi : nat) : nat * nat * nat :=
  let best := scan_is blo bhi (seq alo (ahi - alo)) ∅ (alo, blo, 0) in
  let best := extend_left (List.length a) alo blo best in
  extend_right (List.length a) ahi bhi best.

(** The sum of the sizes of the blocks of [get_matching_blocks]: the
    longest match, then recursively the pieces to its left and to its
    right. *)
Fixpoint matches (fuel alo ahi blo bhi : nat) : nat :=
  match fuel with
  | O => 0
  | S fuel' =>
      let '(i, j, k) := find_longest_match alo ahi blo bhi in
      if (k =? 0)%nat then 0
      else
        k
        + (if (alo <? i)%nat && (blo <? j)%nat then matches fuel' alo i blo j else 0)
        + (if (i + k <? ahi)%nat && (j + k <? bhi)%nat
           then matches fuel' (i + k) ahi (j + k) bhi else 0)
  end.

(** [_calculate_ratio(matches, len(a) + len(b))] *)
Definition list_ratio : float :=
  let m := matches (S (List.length a)) 0 (List.length a) 0 (List.length b) in
  let len := (List.length a + List.length b)%nat in
  if (len =? 0)%nat then 1%float
  else (2 * float_of_nat m / float_of_nat len)%float.
End matcher.

Definition ratio (a b : string) : float :=
  list_ratio (list_ascii_of_string a) (list_ascii_of_string b).

End Difflib.

(* ===================================================================== *)
(** * The host: file system, clock and standard output *)
(* ===================================================================== *)

Abbreviation path := (list string).

Inductive entry : Type :=
  | File (inode : nat)
  | Dir.

#[global] Instance entry_eq_dec : EqDecision entry.
Proof. solve_decision. Defined.

(** What [self.log] prints when the organizer is verbose. *)
Inductive message : Type :=
  | MsgScanning (root : path)
  | MsgErrorApplying (e : exn)
  | MsgErrorMoving (e : exn)
  | MsgNoChangeLogs
  | MsgErrorUndoing (e : exn)
  | MsgExploding (root : path)
  | MsgMoved (src dst : path)
  | MsgDeletingEmpty (dir : path)
  | MsgErrorExploding (e : exn).

(** The part of the machine the code of one suggestion can touch.  The
    clock is the sequence of values [time.strftime("%Y%m%d_%H%M%S")]
    returns, one per call. *)
Record host : Type := {
  h_fs : gmap path entry;
  h_out : list message;
  h_clock : nat -> string;
  h_ticks : nat
}.

Definition with_fs (fs : gmap path entry) (h : host) : host :=
  {| h_fs := fs; h_out := h_out h; h_clock := h_clock h; h_ticks := h_ticks h |}.

(** ** The monad of file-system code *)
Definition F (A : Type) : Type := host -> outcome A * host.

Definition ret {A} (a : A) : F A := fun h => (Ret a, h).
Definition raise {A} (e : exn) : F A := fun h => (Raise e, h).
Definition bind {A B} (m : F A) (k : A -> F B) : F B :=
  fun h =>
    match m h with
    | (Ret a, h') => k a h'
    | (Raise e, h') => (Raise e, h')
    end.
(** [try: m  except Exception as e: handler e] *)
Definition try_except {A} (m : F A) (handler : exn -> F A) : F A :=
  fun h =>
    match m h with
    | (Ret a, h') => (Ret a, h')
    | (Raise e, h') => handler e h'
    end.

Declare Scope py_scope.
Delimit Scope py_scope with py.
Notation "x <- m ;; k" := (bind m (fun x => k))
  (at level 100, m at next level, right associativity) : py_scope.
Notation "m ;; k" := (bind m (fun _ => k))
  (at level 100, right associativity) : py_scope.
#[local] Open Scope py_scope.

(** [for x in l: body x] *)
Fixpoint for_each {A} (l : list A) (body : A -> F unit) : F unit :=
  match l with
  | [] => ret tt
  | x :: l' => body x ;; for_each l' body
  end.

(** A loop that appends at most one record per element to a local list. *)
Fixpoint for_collect {A B} (l : list A) (body : A -> F (option B)) : F (list B) :=
  match l with
  | [] => ret []
  | x :: l' =>
      r <- body x ;;
      rs <- for_collect l' body ;;
      ret (match r with Some b => b :: rs | None => rs end)
  end.

Definition get_fs : F (gmap path entry) := fun h => (Ret (h_fs h), h).
Definition put_fs (fs : gmap path entry) : F unit := fun h => (Ret tt, with_fs fs h).
Definition print (m : message) : F unit :=
  fun h => (Ret tt, {| h_fs := h_fs h; h_out := h_out h ++ [m];
                       h_clock := h_clock h; h_ticks := h_ticks h |}).
(** [time.strftime("%Y%m%d_%H%M%S")]: the next reading of the clock. *)
Definition tick (h : host) : string * host :=
  (h_clock h (h_ticks h),
   {| h_fs := h_fs h; h_out := h_out h;
      h_clock := h_clock h; h_ticks := S (h_ticks h) |}).
Definition strftime : F string :=
  fun h => (Ret (fst (tick h)), snd (tick h)).

Module Os.

Definition dirname (p : path) : path := removelast p.
Definition basename (p : path) : string := List.last p "".
Definition join (p : path) (name : string) : path := p ++ [name].

(** [os.path.splitext] on the last component: the extension starts at the
    last dot, unless only dots precede it. *)
Fixpoint rfind_dot (s : string) (i : nat) (found : option nat) : option nat :=
  match s with
  | EmptyString => found
  | String c s' => rfind_dot s' (S i) (if Ascii.eqb c "." then Some i else found)
  end.
Definition splitext (name : string) : string * string :=
  match rfind_dot name 0 None with
  | Some d =>
      let root := String.substring 0 d name in
      if Py.str_exists (fun c => negb (Ascii.eqb c ".")) root
      then (root, String.substring d (String.length name - d) name)
      else (name, "")
  | None => (name, "")
  end.

(** [p] with [text] inserted between the root and the extension of its
    last component: [f"{base}{text}{ext}"] for
    [base, ext = os.path.splitext(p)]. *)
Definition add_suffix (p : path) (text : string) : path :=
  let '(base, ext) := splitext (basename p) in
  join (dirname p) (base +:+ text +:+ ext).

(** [Some suffix] when [p = pre ++ suffix]. *)
Fixpoint strip_prefix (pre p : path) : option path :=
  match pre, p with
  | [], _ => Some p
  | x :: pre', y :: p' => if String.eqb x y then strip_prefix pre' p' else None
  | _ :: _, [] => None
  end.

Definition is_under (dir p : path) : bool :=
  match strip_prefix dir p with Some _ => true | None => false end.

(** The entries directly inside [dir], by name. *)
Definition children (fs : gmap path entry) (dir : path) : list (string * entry) :=
  omap (fun pe : path * entry =>
          match strip_prefix dir (fst pe) with
          | Some [name] => Some (name, snd pe)
          | _ => None
          end)
       (map_to_list fs).

Definition exists_ (p : path) : F bool :=
  fs <- get_fs ;; ret (bool_decide (is_Some (fs !! p))).
Definition isdir (p : path) : F bool :=
  fs <- get_fs ;; ret (bool_decide (fs !! p = Some Dir)).

(** [os.scandir(dir)], read in full when the directory is opened: each
    entry with its name and whether it is a directory. *)
Definition scandir (dir : path) : F (list (string * entry)) :=
  fs <- get_fs ;;
  match fs !! dir with
  | Some Dir => ret (children fs dir)
  | Some (File _) => raise (NotADirectoryError dir)
  | None => raise (FileNotFoundError dir)
  end.

Definition listdir (dir : path) : F (list string) :=
  es <- scandir dir ;; ret (map fst es).

Definition mkdir (p : path) : F unit :=
  fs <- get_fs ;;
  match fs !! p with
  | Some _ => raise (FileExistsError p)
  | None =>
      match fs !! dirname p with
      | Some Dir => put_fs (<[p := Dir]> fs)
      | Some (File _) => raise (NotADirectoryError p)
      | None => raise (FileNotFoundError p)
      end
  end.

(** The [try: mkdir(name)  except OSError: if not exist_ok or not
    path.isdir(name): raise] of [os.makedirs], with [exist_ok=True]. *)
Definition mkdir_exist_ok (name : path) : F unit :=
  try_except (mkdir name)
    (fun e => d <- isdir name ;; if d : bool then ret tt else raise e).

(** [os.makedirs(name, exist_ok=True)], by recursion on the reversed
    path: the head is created first when it does not exist. *)
Fixpoint makedirs_rev (rname : list string) : F unit :=
  match rname with
  | [] => mkdir_exist_ok []
  | _ :: rhead =>
      e <- exists_ (rev rhead) ;;
      (if e : bool then ret tt
       else try_except (makedirs_rev rhead)
              (fun e => match e with FileExistsError _ => ret tt | _ => raise e end)) ;;
      mkdir_exist_ok (rev rname)
  end.
Definition makedirs (name : path) : F unit := makedirs_rev (rev name).

(** The subtree at [src] moved to [dst]. *)
Definition move_subtree (src dst : path) (fs : gmap path entry) : gmap path entry :=
  let moved : list (path * entry) :=
    omap (fun pe : path * entry =>
            match strip_prefix src (fst pe) with
            | Some suffix => Some (dst ++ suffix, snd pe)
            | None => None
            end)
         (map_to_list fs) in
  list_to_map moved ∪ filter (fun pe => is_under src (fst pe) = false) fs.

Definition remove_subtree (p : path) (fs : gmap path entry) : gmap path entry :=
  filter (fun pe => is_under p (fst pe) = false) fs.

(** [os.rename(src, dst)] with the POSIX rules: a file replaces a file,
    a directory replaces an empty directory. *)
Definition rename (src dst : path) : F unit :=
  fs <- get_fs ;;
  match fs !! src with
  | None => raise (FileNotFoundError src)
  | Some e =>
      if bool_decide (src = dst) then ret tt
      else
        match fs !! dirname dst with
        | None => raise (FileNotFoundError dst)
        | Some (File _) => raise (NotADirectoryError dst)
        | Some Dir =>
            match e, fs !! dst with
            | File i, Some Dir => raise (IsADirectoryError dst)
            | File i, _ => put_fs (<[dst := File i]> (delete src fs))
            | Dir, Some (File _) => raise (NotADirectoryError dst)
            | Dir, other =>
                if is_under src dst then raise (OSError dst)
                else
                  match other, children fs dst with
                  | Some Dir, _ :: _ => raise (OSError dst)
                  | _, _ => put_fs (move_subtree src dst (delete dst fs))
                  end
            end
        end
  end.

(** [os.rmdir(p)] *)
Definition rmdir (p : path) : F unit :=
  fs <- get_fs ;;
  match fs !! p with
  | None => raise (FileNotFoundError p)
  | Some (File _) => raise (NotADirectoryError p)
  | Some Dir =>
      match children fs p with
      | [] => put_fs (delete p fs)
      | _ :: _ => raise (OSError p)
      end
  end.

(** [shutil.rmtree(p)] *)
Definition rmtree (p : path) : F unit :=
  fs <- get_fs ;;
  match fs !! p with
  | None => raise (FileNotFoundError p)
  | Some (File _) => raise (NotADirectoryError p)
  | Some Dir => put_fs (remove_subtree p fs)
  end.

(** The map after the single entry at [src] has been re-linked at [dst];
    how [rename] acts on a regular file. *)
Definition relink (src dst : path) (fs : gmap path entry) : gmap path entry :=
  match fs !! src with
  | Some e => <[dst := e]> (delete src fs)
  | None => fs
  end.

(** A list of (source, destination) moves of single entries, carried out
    in order, and carried out backwards in the same order. *)
Definition forward (fs : gmap path entry) (moves : list (path * path))
  : gmap path entry :=
  foldl (fun fs m => relink (fst m) (snd m) fs) fs moves.
Definition backward (fs : gmap path entry) (moves : list (path * path))
  : gmap path entry :=
  foldl (fun fs m => relink (snd m) (fst m) fs) fs moves.

(** The paths a list of moves touches. *)
Definition keys (moves : list (path * path)) : list path :=
  map fst moves ++ map snd moves.

(** [fs'] extends [fs] with directories at prefixes of [p] only. *)
Definition grows_to (p : path) (fs fs' : gmap path entry) : Prop :=
  (forall q e, fs !! q = Some e -> fs' !! q = Some e)
  /\ (forall q, fs !! q = None -> is_Some (fs' !! q) ->
                 fs' !! q = Some Dir /\ q `prefix_of` p).


(** [shutil.move(src, dst)] on one device: into [dst] when it is a
    directory (an error when the name is taken there), otherwise a
    rename to [dst]; when the rename fails the copying fallback fails as
    well, with [shutil.Error] for a directory moved into itself. *)
Definition move (src dst : path) : F unit :=
  fs <- get_fs ;;
  match fs !! dst with
  | Some Dir =>
      if bool_decide (src = dst) then rename src dst
      else
        let real_dst := join dst (basename src) in
        match fs !! real_dst with
        | Some _ => raise (ShutilError real_dst)
        | None =>
            try_except (rename src real_dst)
              (fun e =>
                 if bool_decide (fs !! src = Some Dir) && is_under src dst
                 then raise (ShutilError dst) else raise e)
        end
  | _ =>
      try_except (rename src dst)
        (fun e =>
           if bool_decide (fs !! src = Some Dir) && is_under src dst
           then raise (ShutilError dst) else raise e)
  end.

End Os.

(* ===================================================================== *)
(** * [src/organizer.py] *)
(* ===================================================================== *)

Module Organizer.
Import Os.

(** ** Data: snapshot, suggestions, journal *)

(** A file record of the snapshot (the modification time is left out). *)
Record file_record : Type := {
  fr_name : string;
  fr_path : path;
  fr_extension : string
}.

(** A folder of the snapshot (the timestamps of [metadata] are left
    out). *)
Inductive folder_node : Type :=
  FolderNode {
    fn_path : path;
    fn_name : string;
    fn_subdirectories : list folder_node;
    fn_file_count : nat;
    fn_files : list file_record
  }.

(** The suggestion dictionaries, by their ['type'] (the ['reason'] text
    is left out). *)
Inductive suggestion : Type :=
  | merge_similar_folders (folders : list folder_node) (suggested_name : string)
  | rename_for_consistency (pattern : string) (folders : list folder_node)
      (suggested_names : list (path * string))
  | create_group (folders : list path) (parent : path) (suggested_name : string)
  | relocate (folder : path) (suggested_parent : path)
  | group_loose_files (files : list file_record) (target_folder : path)
      (is_new_folder : bool).

(** The ['result'] entry of a change record, by the keys it holds. *)
Inductive result : Type :=
  | res_new_folder (new_folder : path)
  | res_renamed (renamed : list (path * path))
  | res_moved (moved : list (path * path))
  | res_from_to (from to : path)
  | res_moved_files (target_folder : path) (is_new_folder : bool)
      (moved_files : list (path * path)).

Record change_record : Type := {
  cr_suggestion : suggestion;
  cr_status : string;
  cr_result : option result
}.

Record change_log : Type := {
  cl_timestamp : string;
  cl_root_path : path;
  cl_changes : list change_record
}.

Record explode_log : Type := {
  el_timestamp : string;
  el_root_path : path;
  el_moved_files : list (path * path);
  el_deleted_dirs : list path
}.

(** The content of a file of the journal directory, as [json.load] reads
    it: one of the two objects the organizer writes, or text that is not
    JSON. *)
Inductive log_content : Type :=
  | json_changes (c : change_log)
  | json_explode (e : explode_log)
  | not_json.

(** The organizer object: its constant fields. *)
Record organizer : Type := {
  root_path : path;
  verbose : bool
}.

(** The machine as the organizer sees it: the host, the journal
    directory [self.log_path] (file name to content; it lies outside
    the target tree) and the field [self.folder_structure] ([None] for
    the initial empty dictionary). *)
Record world : Type := {
  w_host : host;
  w_logs : gmap string log_content;
  w_snapshot : option folder_node
}.

Definition log (self : organizer) (m : message) : F unit :=
  if verbose self then print m else ret tt.

(** The depth at which the interpreter raises [RecursionError]. *)
Definition recursion_limit : nat := 1000.
Arguments recursion_limit : simpl never.

(** ** Scanning *)

Definition file_record_of (directory : path) (name : string) : file_record :=
  {| fr_name := name;
     fr_path := join directory name;
     fr_extension :=
       if Py.contains "." name then Py.lower (snd (splitext name)) else "" |}.

(** [_scan_directory]: the directory must exist ([os.stat] in
    [_get_creation_time]) and be a directory ([os.scandir]); the entries
    are visited in listing order. *)
Fixpoint _scan_directory (fuel : nat) (fs : gmap path entry) (directory : path)
  : outcome folder_node :=
  match fuel with
  | O => Raise RecursionError
  | S fuel' =>
      match fs !! directory with
      | None => Raise (FileNotFoundError directory)
      | Some (File _) => Raise (NotADirectoryError directory)
      | Some Dir =>
          let fix entries (es : list (string * entry))
            : outcome (list folder_node * list file_record) :=
            match es with
            | [] => Ret ([], [])
            | (name, Dir) :: es' =>
                match _scan_directory fuel' fs (join directory name) with
                | Ret subdir_info =>
                    match entries es' with
                    | Ret (subs, fls) => Ret (subdir_info :: subs, fls)
                    | Raise e => Raise e
                    end
                | Raise e => Raise e
                end
            | (name, File _) :: es' =>
                match entries es' with
                | Ret (subs, fls) => Ret (subs, file_record_of directory name :: fls)
                | Raise e => Raise e
                end
            end in
          match entries (children fs directory) with
          | Ret (subs, fls) =>
              Ret {| fn_path := directory; fn_name := basename directory;
                     fn_subdirectories := subs;
                     fn_file_count := List.length fls; fn_files := fls |}
          | Raise e => Raise e
          end
      end
  end.

Arguments _scan_directory : simpl never.

(** [scan_folder_structure], up to the assignment to
    [self.folder_structure]. *)
Definition scan_folder_structure (self : organizer) : F folder_node :=
  log self (MsgScanning (root_path self)) ;;
  fs <- get_fs ;;
  match _scan_directory recursion_limit fs (root_path self) with
  | Ret structure => ret structure
  | Raise e => raise e
  end.

Fixpoint _collect_all_files (folder_info : folder_node) : list file_record :=
  fn_files folder_info
  ++ flat_map _collect_all_files (fn_subdirectories folder_info).

(** ** Applying suggestions *)

Fixpoint _move_folder_contents (self : organizer) (fuel : nat)
  (source destination : path) : F unit :=
  try_except
    (entries <- scandir source ;;
     for_each entries (fun ne =>
       let src_path := join source (fst ne) in
       let dst_path := join destination (fst ne) in
       match snd ne with
       | Dir =>
           taken <- exists_ dst_path ;;
           if taken : bool then
             match fuel with
             | O => raise RecursionError
             | S fuel' => _move_folder_contents self fuel' src_path dst_path
             end
           else move src_path dst_path
       | File _ =>
           taken <- exists_ dst_path ;;
           dst_path <- (if taken : bool
                        then timestamp <- strftime ;;
                             ret (add_suffix dst_path ("_" +:+ timestamp))
                        else ret dst_path) ;;
           move src_path dst_path
       end))
    (fun e => log self (MsgErrorMoving e) ;; raise e).

Arguments _move_folder_contents : simpl never.

(** The body of the [for file_info in files] loop of the
    [group_loose_files] branch: the move it records, if any. *)
Definition group_body (target_folder : path) (file_info : file_record)
  : F (option (path * path)) :=
  let src_path := fr_path file_info in
  let filename := basename src_path in
  let dst_path := join target_folder filename in
  taken <- exists_ dst_path ;;
  dst_path <- (if taken : bool
               then timestamp <- strftime ;;
                    ret (add_suffix dst_path ("_" +:+ timestamp))
               else ret dst_path) ;;
  present <- exists_ src_path ;;
  if present : bool
  then move src_path dst_path ;; ret (Some (src_path, dst_path))
  else ret None.

(** The body of the [for suggestion in approved_suggestions] loop of
    [apply_changes]: it returns the change record that the loop appends
    to [change_log['changes']]. *)
Definition apply_suggestion (self : organizer) (s : suggestion) : F change_record :=
  let completed (r : option result) : F change_record :=
    ret {| cr_suggestion := s; cr_status := "completed"; cr_result := r |} in
  match s with
  | merge_similar_folders folders suggested_name =>
      match folders with
      | [] => raise IndexError
      | first :: _ =>
          let target_path := join (dirname (fn_path first)) suggested_name in
          makedirs target_path ;;
          for_each folders (fun folder =>
            _move_folder_contents self recursion_limit (fn_path folder) target_path ;;
            present <- exists_ (fn_path folder) ;;
            if present && negb (bool_decide (fn_path folder = target_path))
            then rmtree (fn_path folder) else ret tt) ;;
          completed (Some (res_new_folder target_path))
      end
  | rename_for_consistency _ _ suggested_names =>
      changes <- for_collect suggested_names (fun pn =>
        let p := fst pn in
        let parent_dir := dirname p in
        let new_path := join parent_dir (snd pn) in
        present <- exists_ p ;;
        taken <- exists_ new_path ;;
        if present && negb taken
        then rename p new_path ;; ret (Some (p, new_path))
        else ret None) ;;
      completed (Some (res_renamed changes))
  | create_group folders parent suggested_name =>
      let target_path := join parent suggested_name in
      makedirs target_path ;;
      moved <- for_collect folders (fun folder_path =>
        let folder_name := basename folder_path in
        let new_path := join target_path folder_name in
        present <- exists_ folder_path ;;
        taken <- exists_ new_path ;;
        if present && negb taken
        then move folder_path new_path ;; ret (Some (folder_path, new_path))
        else ret None) ;;
      completed (Some (res_moved moved))
  | relocate folder_path new_parent =>
      let folder_name := basename folder_path in
      let new_path := join new_parent folder_name in
      present <- exists_ folder_path ;;
      taken <- exists_ new_path ;;
      if present && negb taken
      then move folder_path new_path ;;
           completed (Some (res_from_to folder_path new_path))
      else completed None
  | group_loose_files files target_folder is_new_folder =>
      (if is_new_folder then makedirs target_folder else ret tt) ;;
      moved_files <- for_collect files (group_body target_folder) ;;
      completed (Some (res_moved_files target_folder is_new_folder moved_files))
  end.

(** The source and the destination of each file of a [group_loose_files]
    suggestion that exists in [fs], when no name is taken in the target
    folder. *)
Definition planned_moves (fs : gmap path entry) (files : list file_record)
  (target_folder : path) : list (path * path) :=
  map (fun f => (fr_path f, join target_folder (basename (fr_path f))))
      (filter (fun f => is_Some (fs !! fr_path f)) files).

(** The [for] loop of [apply_changes]: the records appended to
    [change_log['changes']], in order. *)
Fixpoint apply_loop (self : organizer) (approved : list suggestion)
  : F (list change_record) :=
  match approved with
  | [] => ret []
  | s :: rest =>
      change_record <- apply_suggestion self s ;;
      records <- apply_loop self rest ;;
      ret (change_record :: records)
  end.

Definition changes_file (timestamp : string) : string :=
  "changes_" +:+ timestamp +:+ ".json".
Definition explode_file (timestamp : string) : string :=
  "explode_" +:+ timestamp +:+ ".json".

(** [apply_changes]: the journal file is written, and the snapshot
    refreshed, only after the loop has ended without an exception. *)
Definition apply_changes (self : organizer) (approved_suggestions : list suggestion)
  (w : world) : bool * world :=
  let '(timestamp, h) := tick (w_host w) in
  let log_file := changes_file timestamp in
  match apply_loop self approved_suggestions h with
  | (Ret changes, h1) =>
      let change_log :=
        {| cl_timestamp := timestamp; cl_root_path := root_path self;
           cl_changes := changes |} in
      let logs := <[log_file := json_changes change_log]> (w_logs w) in
      match scan_folder_structure self h1 with
      | (Ret structure, h2) =>
          (true, {| w_host := h2; w_logs := logs; w_snapshot := Some structure |})
      | (Raise e, h2) =>
          let '(_, h3) := log self (MsgErrorApplying e) h2 in
          (false, {| w_host := h3; w_logs := logs; w_snapshot := w_snapshot w |})
      end
  | (Raise e, h1) =>
      let '(_, h2) := log self (MsgErrorApplying e) h1 in
      (false, {| w_host := h2; w_logs := w_logs w; w_snapshot := w_snapshot w |})
  end.

(** ** Undo *)

(** [sorted([f for f in os.listdir(self.log_path)
    if f.startswith('changes_')])] *)
Definition str_le (a b : string) : Prop := String.leb a b = true.
#[global] Instance str_le_dec (a b : string) : Decision (str_le a b).
Proof. unfold str_le. solve_decision. Defined.

Definition change_logs (logs : gmap string log_content) : list string :=
  merge_sort str_le
    (filter (fun f => String.prefix "changes_" f = true) (map fst (map_to_list logs))).

(** [log_files[-1]] *)
Definition latest_log (logs : gmap string log_content) : option string :=
  last (change_logs logs).

(** [if os.path.exists(p) and not os.listdir(p): os.rmdir(p)] *)
Definition rmdir_if_empty (p : path) : F unit :=
  present <- exists_ p ;;
  if present : bool then
    names <- listdir p ;;
    match names with
    | [] => rmdir p
    | _ :: _ => ret tt
    end
  else ret tt.

(** The body of the [for move in change['result']['moved_files']] loop:
    [if os.path.exists(move['to']): shutil.move(move['to'], move['from'])]. *)
Definition back_body (ft : path * path) : F unit :=
  present <- exists_ (snd ft) ;;
  if present : bool then move (snd ft) (fst ft) else ret tt.

(** The body of the [for change in reversed(change_log['changes'])] loop
    of [undo_last_change]. *)
Definition undo_change (self : organizer) (change : change_record) : F unit :=
  match cr_suggestion change with
  | merge_similar_folders folders _ =>
      match cr_result change with
      | Some (res_new_folder new_folder) =>
          for_each folders (fun folder =>
            let original_path := fn_path folder in
            makedirs original_path ;;
            _move_folder_contents self recursion_limit new_folder original_path) ;;
          rmdir_if_empty new_folder
      | _ => ret tt
      end
  | rename_for_consistency _ _ _ =>
      match cr_result change with
      | Some (res_renamed renamed) =>
          for_each renamed (fun on =>
            present <- exists_ (snd on) ;;
            if present : bool then rename (snd on) (fst on) else ret tt)
      | _ => ret tt
      end
  | create_group _ parent suggested_name =>
      match cr_result change with
      | Some (res_moved moved) =>
          for_each moved (fun ft =>
            present <- exists_ (snd ft) ;;
            if present : bool
            then makedirs (dirname (fst ft)) ;; move (snd ft) (fst ft)
            else ret tt) ;;
          rmdir_if_empty (join parent suggested_name)
      | _ => ret tt
      end
  | relocate _ _ =>
      match cr_result change with
      | Some (res_from_to orig_path new_path) =>
          present <- exists_ new_path ;;
          if present : bool
          then makedirs (dirname orig_path) ;; move new_path orig_path
          else ret tt
      | Some _ => raise (KeyError "from")
      | None => ret tt
      end
  | group_loose_files _ _ _ =>
      match cr_result change with
      | Some (res_moved_files target_folder is_new_folder moved_files) =>
          for_each moved_files back_body ;;
          if is_new_folder then rmdir_if_empty target_folder else ret tt
      | _ => ret tt
      end
  end.

(** What the [except Exception] clause of [undo_last_change] does. *)
Definition undo_failed (self : organizer) (e : exn) (h : host)
  (logs : gmap string log_content) (snapshot : option folder_node) : bool * world :=
  (false, {| w_host := snd (log self (MsgErrorUndoing e) h);
             w_logs := logs; w_snapshot := snapshot |}).

Definition undo_last_change (self : organizer) (w : world) : bool * world :=
  match latest_log (w_logs w) with
  | None =>
      (false, {| w_host := snd (log self MsgNoChangeLogs (w_host w));
                 w_logs := w_logs w; w_snapshot := w_snapshot w |})
  | Some latest =>
      match w_logs w !! latest with
      | None => undo_failed self (FileNotFoundError [latest]) (w_host w) (w_logs w) (w_snapshot w)
      | Some not_json => undo_failed self JSONDecodeError (w_host w) (w_logs w) (w_snapshot w)
      | Some (json_explode _) =>
          undo_failed self (KeyError "changes") (w_host w) (w_logs w) (w_snapshot w)
      | Some (json_changes change_log) =>
          match for_each (rev (cl_changes change_log)) (undo_change self) (w_host w) with
          | (Raise e, h1) => undo_failed self e h1 (w_logs w) (w_snapshot w)
          | (Ret _, h1) =>
              let logs := delete latest (w_logs w) in
              match scan_folder_structure self h1 with
              | (Raise e, h2) => undo_failed self e h2 logs (w_snapshot w)
              | (Ret structure, h2) =>
                  (true, {| w_host := h2; w_logs := logs; w_snapshot := Some structure |})
              end
          end
      end
  end.

(** ** Explode *)

(** The [while os.path.exists(dst_path)] loop that looks for a free name
    [base_counter.ext] in the root. *)
Fixpoint first_free (fuel : nat) (fs : gmap path entry) (root : path)
  (base ext : string) (counter : N) (dst_path : path) : path :=
  match fuel with
  | O => dst_path
  | S fuel' =>
      match fs !! dst_path with
      | Some _ =>
          first_free fuel' fs root base ext (counter + 1)
            (join root (base +:+ "_" +:+ Py.str_N counter +:+ ext))
      | None => dst_path
      end
  end.

(** [for root, dirs, files in os.walk(top, topdown=False): body]: the
    directory is listed first, then its subdirectories are walked, then
    the body runs with the lists made before the descent.  A directory
    that cannot be listed is skipped. *)
Fixpoint walk_bottom_up {B} (fuel : nat) (top : path)
  (body : path -> list string -> list string -> F (list B)) : F (list B) :=
  fs <- get_fs ;;
  match fs !! top with
  | Some Dir =>
      let es := children fs top in
      let dirs := map fst (filter (fun ne => snd ne = Dir) es) in
      let nondirs := map fst (filter (fun ne => snd ne <> Dir) es) in
      below <- (fix descend (ds : list string) : F (list B) :=
                  match ds with
                  | [] => ret []
                  | d :: ds' =>
                      match fuel with
                      | O => raise RecursionError
                      | S fuel' =>
                          r <- walk_bottom_up fuel' (join top d) body ;;
                          rs <- descend ds' ;;
                          ret (r ++ rs)
                      end
                  end) dirs ;;
      here <- body top dirs nondirs ;;
      ret (below ++ here)
  | _ => ret []
  end.

Arguments walk_bottom_up : simpl never.

(** The two passes of [explode_folder_structure]: the moves recorded in
    [change_log['moved_files']] and the list [deleted_dirs]. *)
Definition explode_passes (self : organizer) (structure : folder_node)
  : F (list (path * path) * list path) :=
  let all_files := _collect_all_files structure in
  moved_files <- for_collect all_files (fun file_info =>
    let src_path := fr_path file_info in
    let filename := basename src_path in
    let dst_path := join (root_path self) filename in
    if bool_decide (dirname src_path = root_path self) then ret None
    else
      fs <- get_fs ;;
      let dst_path :=
        match fs !! dst_path with
        | Some _ =>
            let '(base, ext) := splitext filename in
            first_free (S (size fs)) fs (root_path self) base ext 1 dst_path
        | None => dst_path
        end in
      move src_path dst_path ;;
      log self (MsgMoved src_path dst_path) ;;
      ret (Some (src_path, dst_path))) ;;
  deleted_dirs <- walk_bottom_up recursion_limit (root_path self)
    (fun root dirs files =>
       if bool_decide (root = root_path self) then ret []
       else
         match files, dirs with
         | [], [] =>
             log self (MsgDeletingEmpty root) ;;
             rmdir root ;;
             ret [root]
         | _, _ => ret []
         end) ;;
  ret (moved_files, deleted_dirs).

Definition explode_failed (self : organizer) (e : exn) (h : host)
  (logs : gmap string log_content) (snapshot : option folder_node) : bool * world :=
  (false, {| w_host := snd (log self (MsgErrorExploding e) h);
             w_logs := logs; w_snapshot := snapshot |}).

Definition explode_folder_structure (self : organizer) (w : world) : bool * world :=
  let '(timestamp, h) := tick (w_host w) in
  let log_file := explode_file timestamp in
  let h := snd (log self (MsgExploding (root_path self)) h) in
  let scanned :=
    match w_snapshot w with
    | Some structure => (Ret structure, h)
    | None => scan_folder_structure self h
    end in
  match scanned with
  | (Raise e, h1) => explode_failed self e h1 (w_logs w) (w_snapshot w)
  | (Ret structure, h1) =>
      match explode_passes self structure h1 with
      | (Raise e, h2) => explode_failed self e h2 (w_logs w) (Some structure)
      | (Ret (moved_files, deleted_dirs), h2) =>
          let change_log :=
            {| el_timestamp := timestamp; el_root_path := root_path self;
               el_moved_files := moved_files; el_deleted_dirs := deleted_dirs |} in
          let logs := <[log_file := json_explode change_log]> (w_logs w) in
          match scan_folder_structure self h2 with
          | (Raise e, h3) => explode_failed self e h3 logs (Some structure)
          | (Ret structure', h3) =>
              (true, {| w_host := h3; w_logs := logs; w_snapshot := Some structure' |})
          end
      end
  end.

(** ** Hierarchy analysis: relocation scoring *)

(** A [networkx.DiGraph]: nodes and edges in insertion order. *)
Record digraph : Type := {
  nodes : list path;
  edges : list (path * path)
}.

Definition add_node (n : path) (ns : list path) : list path :=
  if bool_decide (n ∈ ns) then ns else ns ++ [n].

Definition add_edge (u v : path) (g : digraph) : digraph :=
  {| nodes := add_node v (add_node u (nodes g));
     edges := if bool_decide ((u, v) ∈ edges g) then edges g else edges g ++ [(u, v)] |}.

Definition predecessors (g : digraph) (n : path) : list path :=
  map fst (filter (fun e => snd e = n) (edges g)).
Definition in_degree (g : digraph) (n : path) : nat :=
  List.length (predecessors g n).

Fixpoint _build_folder_graph (graph : digraph) (folder_info : folder_node) : digraph :=
  let parent_path := fn_path folder_info in
  fold_left
    (fun graph subdir =>
       _build_folder_graph (add_edge parent_path (fn_path subdir) graph) subdir)
    (fn_subdirectories folder_info) graph.

(** The floating-point constants 0.3 and 0.2, as binary64 values. *)
Definition minimum_threshold : float := 0x1.3333333333333p-2%float.
Definition containment_bonus : float := 0x1.999999999999ap-3%float.

(** The inner loop of [_find_relocation_opportunities] for one node. *)
Fixpoint best_parent (current_parent node : path) (node_name : string)
  (candidates : list path) (best_match : option path) (best_score : float)
  : option path :=
  match candidates with
  | [] => best_match
  | potential_parent :: rest =>
      if bool_decide (potential_parent = current_parent)
         || bool_decide (potential_parent = node)
      then best_parent current_parent node node_name rest best_match best_score
      else
        let parent_name := Py.lower (basename potential_parent) in
        let score := Difflib.ratio node_name parent_name in
        let score :=
          if Py.is_substring node_name parent_name || Py.is_substring parent_name node_name
          then (score + containment_bonus)%float else score in
        if PrimFloat.ltb best_score score
        then best_parent current_parent node node_name rest (Some potential_parent) score
        else best_parent current_parent node node_name rest best_match best_score
  end.

Definition _find_relocation_opportunities (graph : digraph) : list (path * path) :=
  omap (fun node : path =>
          if (in_degree graph node =? 0)%nat then None
          else
            match predecessors graph node with
            | [] => None
            | current_parent :: _ =>
                let node_name := Py.lower (basename node) in
                match best_parent current_parent node node_name (nodes graph)
                        None minimum_threshold with
                | Some best_match => Some (node, best_match)
                | None => None
                end
            end)
       (nodes graph).

(** The relocation part of [_suggest_hierarchy_improvements]. *)
Definition relocation_suggestions (structure : folder_node) : list suggestion :=
  let G := _build_folder_graph {| nodes := []; edges := [] |} structure in
  map (fun fp => relocate (fst fp) (snd fp)) (_find_relocation_opportunities G).

(** ** Suggestions: similar names, naming patterns, loose files *)

(** A folder dictionary as the suggestion code reads it.  The
    dictionaries [_extract_all_folder_paths] builds hold ['path'], ['name']
    and ['metadata'] only, so the keys ['subdirectories'] and ['files']
    may be missing. *)
Inductive folder_dict : Type :=
  FolderDict {
    d_path : path;
    d_name : string;
    d_subdirectories : option (list folder_dict);
    d_files : option (list file_record)
  }.

Fixpoint _extract_all_folder_paths (folder_info : folder_node) : list folder_dict :=
  {| d_path := fn_path folder_info; d_name := fn_name folder_info;
     d_subdirectories := None; d_files := None |}
  :: flat_map _extract_all_folder_paths (fn_subdirectories folder_info).

(** [_get_all_files_in_folder]: [folder.get('files', [])], then the
    files of each of [folder.get('subdirectories', [])]. *)
Fixpoint _get_all_files_in_folder (folder : folder_dict) : list file_record :=
  default [] (d_files folder)
  ++ match d_subdirectories folder with
     | Some subdirectories => flat_map _get_all_files_in_folder subdirectories
     | None => []
     end.

(** The default [similarity_threshold], 0.8, and the bound 0.5 of
    [_find_potential_groups], as binary64 values. *)
Definition default_similarity_threshold : float := 0x1.999999999999ap-1%float.
Definition one_half : float := 0x1p-1%float.

(** The inner loop of [_find_similar_folders]: the folders appended to
    [current_group] after [folder1]. *)
Fixpoint similar_to (similarity_threshold : float) (i : nat) (folder1 : folder_dict)
  (processed : gset path) (all_folder_paths : list (nat * folder_dict))
  : list folder_dict :=
  match all_folder_paths with
  | [] => []
  | (j, folder2) :: rest =>
      if (i =? j)%nat || bool_decide (d_path folder2 ∈ processed)
      then similar_to similarity_threshold i folder1 processed rest
      else
        let similarity :=
          Difflib.ratio (basename (d_path folder1)) (basename (d_path folder2)) in
        if PrimFloat.leb similarity_threshold similarity
        then folder2 :: similar_to similarity_threshold i folder1 processed rest
        else similar_to similarity_threshold i folder1 processed rest
  end.

(** The outer loop: the groups appended to [similar_groups]. *)
Fixpoint similar_groups_from (similarity_threshold : float)
  (all_folder_paths todo : list (nat * folder_dict)) (processed : gset path)
  : list (list folder_dict) :=
  match todo with
  | [] => []
  | (i, folder1) :: rest =>
      if bool_decide (d_path folder1 ∈ processed)
      then similar_groups_from similarity_threshold all_folder_paths rest processed
      else
        let current_group :=
          folder1 :: similar_to similarity_threshold i folder1 processed all_folder_paths in
        if (1 <? List.length current_group)%nat
        then current_group
             :: similar_groups_from similarity_threshold all_folder_paths rest
                  (processed ∪ list_to_set (map d_path current_group))
        else similar_groups_from similarity_threshold all_folder_paths rest processed
  end.

Definition _find_similar_folders (folder_info : folder_node)
  (similarity_threshold : float) : list (list folder_dict) :=
  let all_folder_paths := Py.enumerate (_extract_all_folder_paths folder_info) in
  similar_groups_from similarity_threshold all_folder_paths all_folder_paths ∅.

(** [_suggest_common_name]; [None] stands for the [ValueError] that
    [min] raises on an empty group. *)
Definition _suggest_common_name (folder_group : list folder_dict) : option string :=
  let names := map (fun f => basename (d_path f)) folder_group in
  let prefix := Py.commonprefix names in
  if (3 <? String.length prefix)%nat
  then Some (Py.rstrip (fun c => Ascii.eqb c "_" || Ascii.eqb c "-" || Ascii.eqb c " ")
               prefix +:+ "_combined")
  else
    match names with
    | [] => None
    | first :: rest => Some (Py.min_by_len first rest)
    end.

(** The numbers 1 to 99 of [range(1, 100)]. *)
Definition range_1_100 : list N := map N.of_nat (seq 1 99).

(** The three groups of tests of the loop of [_find_inconsistent_naming]:
    the pattern of each kind that [name] is filed under, if any. *)
Definition capitalization_pattern (name : string) : outcome (option string) :=
  if Py.islower name then Ret (Some "lowercase")
  else if Py.isupper name then Ret (Some "uppercase")
  else
    match name with
    | EmptyString => Raise IndexError
    | String c0 rest =>
        if Py.c_isupper c0 && Py.islower rest then Ret (Some "capitalized")
        else Ret None
    end.

Definition separator_pattern (name : string) : option string :=
  if Py.contains "_" name then Some "underscore_separated"
  else if Py.contains "-" name then Some "hyphen_separated"
  else if Py.contains " " name then Some "space_separated"
  else None.

Definition sequence_pattern (name : string) : option string :=
  if Py.has_digit name then
    if existsb (fun i => Py.is_substring (Py.format_02d i) name) range_1_100
    then Some "numbered_sequence_padded"
    else if existsb (fun i => Py.is_substring (Py.str_N i) name) range_1_100
    then Some "numbered_sequence"
    else None
  else None.

Definition file_under {V} (key : option string) (x : V) (d : list (string * list V))
  : list (string * list V) :=
  match key with
  | Some k => Py.dd_append k x d
  | None => d
  end.

Fixpoint naming_loop (all_folders : list folder_dict)
  (patterns : list (string * list folder_dict))
  : outcome (list (string * list folder_dict)) :=
  match all_folders with
  | [] => Ret patterns
  | folder :: rest =>
      let name := basename (d_path folder) in
      match capitalization_pattern name with
      | Raise e => Raise e
      | Ret capitalization =>
          naming_loop rest
            (file_under (sequence_pattern name) folder
               (file_under (separator_pattern name) folder
                  (file_under capitalization folder patterns)))
      end
  end.

Definition _find_inconsistent_naming (folder_info : folder_node)
  : outcome (list (string * list folder_dict)) :=
  let all_folders := _extract_all_folder_paths folder_info in
  match naming_loop all_folders [] with
  | Ret patterns => Ret (filter (fun kv => 1 < List.length (snd kv)) patterns)
  | Raise e => Raise e
  end.

(** The [for i in range(1, 100)] loop of the padded pattern. *)
Definition pad_numbers (name : string) : string :=
  fold_left
    (fun new_name i =>
       if Py.is_substring (Py.str_N i) new_name
          && negb (Py.is_substring (Py.format_02d i) new_name)
       then Py.replace (Py.str_N i) (Py.format_02d i) new_name
       else new_name)
    range_1_100 name.

(** The name [_suggest_consistent_names] computes for one folder. *)
Definition consistent_name (pattern original_name : string) : outcome string :=
  if String.eqb pattern "lowercase" then Ret (Py.lower original_name)
  else if String.eqb pattern "uppercase" then Ret (Py.upper original_name)
  else if String.eqb pattern "capitalized" then
    match original_name with
    | EmptyString => Raise IndexError
    | String c0 rest => Ret (String (Py.c_upper c0) (Py.lower rest))
    end
  else if String.eqb pattern "underscore_separated" then
    Ret (Py.replace " " "_" (Py.replace "-" "_" original_name))
  else if String.eqb pattern "hyphen_separated" then
    Ret (Py.replace " " "-" (Py.replace "_" "-" original_name))
  else if String.eqb pattern "space_separated" then
    Ret (Py.replace "-" " " (Py.replace "_" " " original_name))
  else if String.eqb pattern "numbered_sequence_padded" then
    Ret (pad_numbers original_name)
  else Ret original_name.

Fixpoint consistent_names_loop (pattern : string) (folders : list folder_dict)
  (names : list (path * string)) : outcome (list (path * string)) :=
  match folders with
  | [] => Ret names
  | folder :: rest =>
      let original_name := basename (d_path folder) in
      match consistent_name pattern original_name with
      | Raise e => Raise e
      | Ret new_name =>
          consistent_names_loop pattern rest
            (if String.eqb new_name original_name then names
             else Py.dict_set (d_path folder) new_name names)
      end
  end.

Definition _suggest_consistent_names (folders : list folder_dict) (pattern : string)
  : outcome (list (path * string)) :=
  consistent_names_loop pattern folders [].

(** The tables [common_mappings] and [common_names]. *)
Definition common_mappings : list (string * list string) :=
  [(".jpg", ["Images"; "Photos"; "Pictures"; "JPGs"]);
   (".jpeg", ["Images"; "Photos"; "Pictures"; "JPEGs"]);
   (".png", ["Images"; "Photos"; "Pictures"; "PNGs"]);
   (".gif", ["Images"; "Photos"; "Pictures"; "GIFs"]);
   (".pdf", ["Documents"; "PDFs"]);
   (".doc", ["Documents"; "Word_Docs"]);
   (".docx", ["Documents"; "Word_Docs"]);
   (".xls", ["Spreadsheets"; "Excel_Files"]);
   (".xlsx", ["Spreadsheets"; "Excel_Files"]);
   (".ppt", ["Presentations"; "PowerPoint"]);
   (".pptx", ["Presentations"; "PowerPoint"]);
   (".txt", ["Text_Files"; "Documents"; "Notes"]);
   (".csv", ["Data"; "Spreadsheets"; "CSV_Files"]);
   (".mp3", ["Music"; "Audio"; "MP3s"]);
   (".mp4", ["Videos"; "MP4s"]);
   (".mov", ["Videos"; "MOVs"]);
   (".zip", ["Archives"; "Compressed"; "ZIPs"]);
   (".rar", ["Archives"; "Compressed"; "RARs"])].

Definition common_names : list (string * string) :=
  [(".jpg", "Images"); (".jpeg", "Images"); (".png", "Images"); (".gif", "Images");
   (".pdf", "Documents"); (".doc", "Documents"); (".docx", "Documents");
   (".xls", "Spreadsheets"); (".xlsx", "Spreadsheets");
   (".ppt", "Presentations"); (".pptx", "Presentations");
   (".txt", "Text_Files"); (".csv", "Data"); (".mp3", "Music");
   (".mp4", "Videos"); (".mov", "Videos"); (".zip", "Archives"); (".rar", "Archives")].

(** [d.get(key)] on a table. *)
Fixpoint table_get {V} (key : string) (d : list (string * V)) : option V :=
  match d with
  | [] => None
  | (k, v) :: d' => if String.eqb k key then Some v else table_get key d'
  end.

(** [extension[1:] if extension.startswith('.') else extension] *)
Definition ext_without_dot (extension : string) : string :=
  match extension with
  | String c rest => if Ascii.eqb c "." then rest else extension
  | EmptyString => extension
  end.

Definition possible_folder_names (extension : string) : list string :=
  let e := ext_without_dot extension in
  [e; Py.capitalize e; Py.upper e; e +:+ "_files";
   Py.capitalize e +:+ "_Files"; Py.upper e +:+ "_FILES"]
  ++ default [] (table_get extension common_mappings).

(** [_find_suitable_folder_for_files], for the snapshot [structure] held
    in [self.folder_structure]. *)
Definition _find_suitable_folder_for_files (structure : folder_node)
  (extension : string) (files : list file_record) : option path :=
  let all_subdirs := tail (_extract_all_folder_paths structure) in
  let possible := possible_folder_names extension in
  match find (fun folder => bool_decide (basename (d_path folder) ∈ possible))
             all_subdirs with
  | Some folder => Some (d_path folder)
  | None =>
      match find (fun folder =>
                    let folder_files := _get_all_files_in_folder folder in
                    bool_decide (extension ∈ map fr_extension folder_files))
                 all_subdirs with
      | Some folder => Some (d_path folder)
      | None => None
      end
  end.

Definition _suggest_folder_name_for_extension (extension : string)
  (files : list file_record) : string :=
  match table_get extension common_names with
  | Some name => name
  | None => Py.capitalize (ext_without_dot extension) +:+ "_Files"
  end.

#[global] Instance file_record_eq_dec : EqDecision file_record.
Proof. solve_decision. Defined.

(** [_find_loose_files_to_group]; the file records are compared as the
    dictionaries are, field by field. *)
Definition _find_loose_files_to_group (self : organizer)
  (folder_structure : option folder_node) : list suggestion :=
  match folder_structure with
  | None => []
  | Some structure =>
      let root_files := fn_files structure in
      if (List.length root_files <? 5)%nat then []
      else
        let extension_groups :=
          fold_left (fun groups file_info =>
                       Py.dd_append (fr_extension file_info) file_info groups)
                    root_files [] in
        let significant_groups :=
          filter (fun kv => 3 <= List.length (snd kv) /\ fst kv <> "")
                 extension_groups in
        let suggestions :=
          map (fun kv =>
                 let ext := fst kv in
                 let files := snd kv in
                 match _find_suitable_folder_for_files structure ext files with
                 | Some target_folder => group_loose_files files target_folder false
                 | None =>
                     let folder_name := _suggest_folder_name_for_extension ext files in
                     group_loose_files files (join (root_path self) folder_name) true
                 end)
              significant_groups in
        let grouped := flat_map snd significant_groups in
        let misc_files := filter (fun f => f ∉ grouped) root_files in
        if (5 <=? List.length misc_files)%nat
        then suggestions
             ++ [group_loose_files misc_files
                   (join (root_path self) "Miscellaneous_Files") true]
        else suggestions
  end.

(** ** Hierarchy analysis: sibling groups *)

Definition successors (g : digraph) (n : path) : list path :=
  map snd (filter (fun e => fst e = n) (edges g)).
Definition out_degree (g : digraph) (n : path) : nat :=
  List.length (successors g n).

(** [s[:3]] *)
Definition first3 (s : string) : string := String.substring 0 3 s.

(** The inner loop of [_find_potential_groups] over [children[i+1:]]. *)
Fixpoint grouped_with (child1_name : string) (processed : gset path)
  (later : list path) : list path :=
  match later with
  | [] => []
  | child2 :: rest =>
      if bool_decide (child2 ∈ processed) then grouped_with child1_name processed rest
      else
        let child2_name := Py.lower (basename child2) in
        if String.prefix (first3 child2_name) child1_name
           || String.prefix (first3 child1_name) child2_name
           || PrimFloat.ltb one_half (Difflib.ratio child1_name child2_name)
        then child2 :: grouped_with child1_name processed rest
        else grouped_with child1_name processed rest
  end.

(** The loop over the children of one parent. *)
Fixpoint similar_children (children : list path) (processed : gset path)
  : list (list path) :=
  match children with
  | [] => []
  | child1 :: later =>
      if bool_decide (child1 ∈ processed) then similar_children later processed
      else
        let child1_name := Py.lower (basename child1) in
        let current_group := child1 :: grouped_with child1_name processed later in
        if (3 <=? List.length current_group)%nat
        then current_group
             :: similar_children later (processed ∪ list_to_set current_group)
        else similar_children later processed
  end.

Definition _find_potential_groups (graph : digraph) : list (list path) :=
  let parents := filter (fun node => 0 < out_degree graph node) (nodes graph) in
  flat_map
    (fun parent =>
       let children := successors graph parent in
       if (List.length children <? 3)%nat then []
       else similar_children children ∅)
    parents.

End Organizer.

(* ===================================================================== *)
(** * Concrete trees and journals used as examples *)
(* ===================================================================== *)

Module Scenario.
Import Os Organizer.

(** A clock that reads 20240101_120000, 20240102_120000, ... *)
Definition clock (n : nat) : string :=
  "2024010" +:+ Py.str_N (N.of_nat n) +:+ "_120000".

Definition host_of (fs : gmap path entry) : host :=
  {| h_fs := fs; h_out := []; h_clock := clock; h_ticks := 1 |}.

Definition world_of (fs : gmap path entry) : world :=
  {| w_host := host_of fs; w_logs := ∅; w_snapshot := None |}.

Definition self : organizer := {| root_path := ["root"]; verbose := true |}.

Definition leaf (p : path) : folder_node :=
  {| fn_path := p; fn_name := basename p; fn_subdirectories := [];
     fn_file_count := 0; fn_files := [] |}.

(** Two folders, one file each. *)
Definition two_folders : gmap path entry :=
  list_to_map
    [([], Dir); (["root"], Dir);
     (["root"; "A"], Dir); (["root"; "A"; "a.txt"], File 1);
     (["root"; "B"], Dir); (["root"; "B"; "b.txt"], File 2)].

Definition merge_A_B : suggestion :=
  merge_similar_folders [leaf ["root"; "A"]; leaf ["root"; "B"]] "T".

(** A file two levels down and a file of the same name in the root. *)
Definition nested : gmap path entry :=
  list_to_map
    [([], Dir); (["root"], Dir); (["root"; "f.txt"], File 1);
     (["root"; "a"], Dir); (["root"; "a"; "b"], Dir);
     (["root"; "a"; "b"; "f.txt"], File 2)].

(** A folder with a similarly named subfolder. *)
Definition abc_tree : gmap path entry :=
  list_to_map
    [([], Dir); (["root"], Dir);
     (["root"; "abc"], Dir); (["root"; "abc"; "abcd"], Dir)].

(** A merge whose first folder has been deleted since the scan, and a
    relocation of root/B under root/A. *)
Definition stale_merge : suggestion :=
  merge_similar_folders [leaf ["root"; "gone"]; leaf ["root"; "A"]] "T".
Definition relocate_B : suggestion := relocate ["root"; "B"] ["root"; "A"].

(** Loose files in the root and a suggestion to group two of them. *)
Definition loose : gmap path entry :=
  list_to_map
    [([], Dir); (["root"], Dir); (["root"; "x.txt"], File 1);
     (["root"; "y.txt"], File 2); (["root"; "z.png"], File 3)].

Definition text_files : list file_record :=
  [file_record_of ["root"] "x.txt"; file_record_of ["root"] "y.txt"].

Definition group_text : suggestion :=
  group_loose_files text_files ["root"; "Text_Files"] true.

(** The world [w] after someone has changed the tree with [f]. *)
Definition tampered (f : gmap path entry -> gmap path entry) (w : world) : world :=
  {| w_host := with_fs (f (h_fs (w_host w))) (w_host w);
     w_logs := w_logs w; w_snapshot := w_snapshot w |}.

(** The merge applied, then the merged folder removed by hand. *)
Definition merged_then_removed : world :=
  tampered (remove_subtree ["root"; "T"])
    (snd (apply_changes self [merge_A_B] (world_of two_folders))).

(** The text files grouped, then one of them deleted from the new
    folder by hand. *)
Definition grouped_then_deleted : world :=
  tampered (delete ["root"; "Text_Files"; "x.txt"])
    (snd (apply_changes self [group_text] (world_of loose))).

(** An apply batch followed, a day later, by an explode. *)
Definition applied_then_exploded : world :=
  snd (explode_folder_structure self
         (snd (apply_changes self [relocate_B] (world_of two_folders)))).

End Scenario.

(* ===================================================================== *)
(** * Properties of the name pattern analyzer *)
(* ===================================================================== *)

Section nlp_props.
Import Py Nlp.

Lemma bucket_get_absent key (d : buckets) :
  key ∉ map fst d -> bucket_get key d = [].
Proof.
  induction d as [|[k v] d IH]; simpl; [done|].
  intros Hn. apply not_elem_of_cons in Hn as [Hne Hn].
  destruct (String.eqb_spec k key); [congruence | auto].
Qed.

Lemma bucket_get_all_nil key (d : buckets) :
  Forall (fun kv => snd kv = []) d -> bucket_get key d = [].
Proof.
  induction 1 as [|[k v] d Hv _ IH]; simpl in *; [done|].
  subst v. by destruct (String.eqb k key).
Qed.

Lemma bucket_append_keys key name (d : buckets) :
  map fst (bucket_append key name d) = map fst d.
Proof.
  unfold bucket_append. induction d as [|[k v] d IH]; simpl; [done|].
  rewrite IH. by destruct (String.eqb k key).
Qed.

Lemma bucket_get_append key name k (d : buckets) :
  bucket_get k (bucket_append key name d)
  = if decide (k = key /\ k ∈ map fst d) then bucket_get k d ++ [name] else bucket_get k d.
Proof.
  unfold bucket_append. induction d as [|[k' v] d IH].
  - simpl. rewrite decide_False; [done|]. intros [_ H]. by apply elem_of_nil in H.
  - cbn [map fst snd bucket_get]. rewrite IH. clear IH.
    assert (Hcons : k ∈ k' :: map fst d <-> k = k' \/ k ∈ map fst d) by apply elem_of_cons.
    destruct (String.eqb_spec k' key) as [->|Hne]; cbn [fst snd bucket_get].
    + destruct (String.eqb_spec key k) as [->|Hne'].
      * rewrite decide_True; [done|]. split; [done|]. apply Hcons; auto.
      * destruct (decide (k = key /\ k ∈ map fst d)) as [[? ?]|Hn]; [congruence|].
        rewrite decide_False; [done|]. intros [? ?]; congruence.
    + destruct (String.eqb_spec k' k) as [->|Hne'].
      * rewrite decide_False; [done|]. intros [? ?]; congruence.
      * destruct (decide (k = key /\ k ∈ map fst d)) as [[? ?]|Hn].
        -- rewrite decide_True; [done|]. split; [done|]. apply Hcons; auto.
        -- rewrite decide_False; [done|]. intros [? [?|?]%Hcons]; [congruence|].
           apply Hn; auto.
Qed.

Lemma bucket_get_drop_empty k (d : buckets) :
  NoDup (map fst d) -> bucket_get k (drop_empty d) = bucket_get k d.
Proof.
  unfold drop_empty. induction d as [|[k' v] d IH]; [done|].
  intros Hnd. simpl in Hnd. apply NoDup_cons in Hnd as [Hk' Hnd].
  rewrite filter_cons. case_decide as Hv; simpl in *.
  - destruct (String.eqb_spec k' k); auto.
  - destruct (String.eqb_spec k' k) as [->|?]; [|auto].
    subst v.
    rewrite IH by done. by apply bucket_get_absent.
Qed.

(** The buckets after the loop, for a classifier [f]. *)
Lemma bucket_get_fold (f : string -> string) (names : list string) (d : buckets) k :
  k ∈ map fst d ->
  bucket_get k (fold_left (fun d name => bucket_append (f name) name d) names d)
  = bucket_get k d ++ filter (fun n => f n = k) names.
Proof.
  revert d. induction names as [|n names IH]; intros d Hk; simpl.
  - by rewrite app_nil_r.
  - rewrite IH by (by rewrite bucket_append_keys).
    rewrite bucket_get_append, filter_cons.
    destruct (decide (f n = k)) as [<-|Hne].
    + rewrite decide_True by done. by rewrite <- app_assoc.
    + rewrite decide_False by (intros [? _]; congruence). done.
Qed.

Lemma fold_keys (f : string -> string) (names : list string) (d : buckets) :
  map fst (fold_left (fun d name => bucket_append (f name) name d) names d) = map fst d.
Proof.
  revert d. induction names as [|n names IH]; intros d; simpl; [done|].
  by rewrite IH, bucket_append_keys.
Qed.

Lemma classified_once (f : string -> string) (names : list string) (d0 : buckets) name :
  NoDup (map fst d0) ->
  (forall k, bucket_get k d0 = []) ->
  (forall n, n ∈ names -> f n ∈ map fst d0) ->
  name ∈ names ->
  one_bucket
    (drop_empty (fold_left (fun d n => bucket_append (f n) n d) names d0)) name.
Proof.
  intros Hnd Hempty Hkeys Hin.
  assert (Hget : forall k,
    bucket_get k (drop_empty (fold_left (fun d n => bucket_append (f n) n d) names d0))
    = if decide (k ∈ map fst d0) then filter (fun n => f n = k) names else []).
  { intros k. rewrite bucket_get_drop_empty by (by rewrite fold_keys).
    case_decide as Hk.
    - by rewrite bucket_get_fold, Hempty.
    - apply bucket_get_absent. by rewrite fold_keys. }
  exists (f name). split.
  - rewrite Hget, decide_True by auto. apply list_elem_of_filter. auto.
  - intros k'. rewrite Hget. case_decide; [|by intros ?%elem_of_nil].
    by intros [? _]%list_elem_of_filter.
Qed.

Lemma case_bucket_keys name :
  name <> "" ->
  case_bucket name = Ret (case_key name)
  /\ case_key name ∈ ["lowercase"; "uppercase"; "capitalized"; "camelcase"; "mixed"].
Proof.
  intros Hne. unfold case_key, case_bucket.
  destruct (islower name); [split; [done | set_solver]|].
  destruct (isupper name); [split; [done | set_solver]|].
  destruct name as [|c0 rest]; [done|].
  repeat match goal with
         | |- context [if ?b then _ else _] => destruct b
         end; (split; [done | set_solver]).
Qed.

Lemma case_loop_fold (names : list string) (d : buckets) :
  Forall (fun n => n <> "") names ->
  case_loop d names
  = Ret (fold_left (fun d n => bucket_append (case_key n) n d) names d).
Proof.
  intros Hall. revert d. induction Hall as [|n names Hn _ IH]; intros d; simpl; [done|].
  destruct (case_bucket_keys n Hn) as [-> _]. apply IH.
Qed.

Lemma separator_bucket_keys name :
  separator_bucket name ∈ ["underscore"; "hyphen"; "space"; "no_separator"; "mixed"].
Proof.
  unfold separator_bucket.
  repeat match goal with
         | |- context [if ?b then _ else _] => destruct b
         end; set_solver.
Qed.
End nlp_props.

(** C8 (as amended: names are non-empty).  For every list of non-empty
    names the case classifier returns, and each name of the list is
    listed under exactly one key of the case buckets and under exactly one
    key of the separator buckets. *)
Theorem C8_each_name_in_one_bucket (names : list string) :
  Forall (fun n => n <> "") names ->
  exists dc,
    Nlp._analyze_case_patterns names = Ret dc
    /\ forall name, name ∈ names ->
         Nlp.one_bucket dc name
         /\ Nlp.one_bucket (Nlp._analyze_separator_patterns names) name.
Proof.
  intros Hall. unfold Nlp._analyze_case_patterns, Nlp._analyze_separator_patterns.
  rewrite case_loop_fold by done. eexists; split; [reflexivity|].
  intros name Hin. split.
  - apply classified_once; try done.
    + apply (bool_decide_unpack _). by vm_compute.
    + intros k. apply bucket_get_all_nil. by repeat (constructor; [done|]).
    + intros n Hn. apply case_bucket_keys.
      rewrite Forall_forall in Hall. by apply Hall.
  - apply classified_once; try done.
    + apply (bool_decide_unpack _). by vm_compute.
    + intros k. apply bucket_get_all_nil. by repeat (constructor; [done|]).
    + intros n _. apply separator_bucket_keys.
Qed.

Lemma C8_each_name_in_one_bucket_witness :
  exists dc,
    Nlp._analyze_case_patterns ["photos_2022"; "Docs"; "myFolder"; "Docs"] = Ret dc
    /\ forall name, name ∈ ["photos_2022"; "Docs"; "myFolder"; "Docs"] ->
         Nlp.one_bucket dc name
         /\ Nlp.one_bucket
              (Nlp._analyze_separator_patterns ["photos_2022"; "Docs"; "myFolder"; "Docs"]) name.
Proof.
  apply (C8_each_name_in_one_bucket ["photos_2022"; "Docs"; "myFolder"; "Docs"]).
  repeat constructor; discriminate.
Defined.

(** C8, the claim as stated fails on the empty name: the case classifier
    evaluates [name[0]] and raises, so no bucket holds the name. *)
Lemma C8_empty_name_raises :
  Nlp._analyze_case_patterns [""] = Raise IndexError
  /\ Nlp._analyze_separator_patterns [""] = [("no_separator", [""])].
Proof. split; reflexivity. Qed.

(** C9.  With both a leading and a trailing number the reconstruction
    keeps the trailing number only: the second assignment to [result]
    starts again from [main_text], so the leading number is lost, padded
    or not. *)
Theorem C9_leading_number_dropped :
  Nlp._standardize_name "1_foo_2"
    {| Nlp.p_case := "lowercase"; Nlp.p_separator := "underscore";
       Nlp.p_numbering := None |} = Ret "foo_2"
  /\ Nlp._standardize_name "1_foo_2"
       {| Nlp.p_case := "lowercase"; Nlp.p_separator := "underscore";
          Nlp.p_numbering := Some "padded_number" |} = Ret "foo_02"
  /\ Nlp.prefix_number (Nlp._parse_name_components "1_foo_2") = Some "1"
  /\ Nlp.suffix_number (Nlp._parse_name_components "1_foo_2") = Some "2"
  /\ Nlp._standardize_name "1_foo"
       {| Nlp.p_case := "lowercase"; Nlp.p_separator := "underscore";
          Nlp.p_numbering := Some "padded_number" |} = Ret "01_foo".
Proof. repeat split; reflexivity. Qed.


(* ===================================================================== *)
(** * Properties of the organizer *)
(* ===================================================================== *)

Import Os Organizer.

(** Closed goals are settled by evaluation: an equation between small
    values directly, an equation between file systems through its
    decision procedure. *)
Ltac by_vm := vm_compute; reflexivity.
Ltac by_decide := apply (bool_decide_unpack _); vm_compute; exact I.

(** ** Laws of the monad *)

Lemma bind_Ret {A B} (m : F A) (k : A -> F B) h a h1 :
  m h = (Ret a, h1) -> bind m k h = k a h1.
Proof. unfold bind. by intros ->. Qed.

Lemma bind_Raise {A B} (m : F A) (k : A -> F B) h e h1 :
  m h = (Raise e, h1) -> bind m k h = (Raise e, h1).
Proof. unfold bind. by intros ->. Qed.

Lemma bind_inv_Ret {A B} (m : F A) (k : A -> F B) h b h' :
  bind m k h = (Ret b, h') ->
  exists a h1, m h = (Ret a, h1) /\ k a h1 = (Ret b, h').
Proof.
  unfold bind. destruct (m h) as [[a|e] h1]; [eauto | discriminate].
Qed.

(** ** The loop of [apply_changes] *)

Lemma apply_loop_raises self pre s post h recs h1 e h2 :
  apply_loop self pre h = (Ret recs, h1) ->
  apply_suggestion self s h1 = (Raise e, h2) ->
  apply_loop self (pre ++ s :: post) h = (Raise e, h2).
Proof.
  revert h recs. induction pre as [|s0 pre IH]; intros h recs Hpre Hs; simpl in *.
  - inversion Hpre; subst. by apply bind_Raise.
  - apply bind_inv_Ret in Hpre as (r0 & h0 & Hs0 & Hrest).
    apply bind_inv_Ret in Hrest as (rs & h0' & Hrest & Hret).
    inversion Hret; subst.
    rewrite (bind_Ret _ _ _ _ _ Hs0).
    apply bind_Raise. by eapply IH.
Qed.

Lemma apply_suggestion_record self s h r h' :
  apply_suggestion self s h = (Ret r, h') ->
  cr_suggestion r = s /\ cr_status r = "completed".
Proof.
  intros H. destruct s; cbn [apply_suggestion] in H.
  - destruct folders; [discriminate|].
    repeat (apply bind_inv_Ret in H as (? & ? & _ & H)).
    by inversion H.
  - repeat (apply bind_inv_Ret in H as (? & ? & _ & H)). by inversion H.
  - repeat (apply bind_inv_Ret in H as (? & ? & _ & H)). by inversion H.
  - apply bind_inv_Ret in H as (present & ? & _ & H).
    apply bind_inv_Ret in H as (taken & ? & _ & H).
    destruct (present && negb taken).
    + apply bind_inv_Ret in H as (? & ? & _ & H). by inversion H.
    + by inversion H.
  - repeat (apply bind_inv_Ret in H as (? & ? & _ & H)). by inversion H.
Qed.

Lemma apply_loop_records self batch h recs h' :
  apply_loop self batch h = (Ret recs, h') ->
  map cr_suggestion recs = batch
  /\ Forall (fun c => cr_status c = "completed") recs.
Proof.
  revert h recs. induction batch as [|s batch IH]; intros h recs H; simpl in H.
  - inversion H. by split.
  - apply bind_inv_Ret in H as (r & h1 & Hr & H).
    apply bind_inv_Ret in H as (rs & h2 & Hrs & H).
    inversion H; subst. apply apply_suggestion_record in Hr as [Hs Hc].
    apply IH in Hrs as [Hm Hf]. simpl. split; [congruence | by constructor].
Qed.

(** C1 (as amended).  For every approved batch, if applying one
    suggestion raises an exception after the suggestions before it were
    applied, apply catches it (and logs it when verbose), stops there
    without applying the remaining suggestions of the batch, writes no
    journal and returns false; the host is left as the failing suggestion
    left it. *)
Theorem C1_apply_stops_at_first_exception
  (self : organizer) (pre post : list suggestion) (s : suggestion) (w : world)
  (recs : list change_record) (h1 h2 : host) (e : exn) :
  apply_loop self pre (snd (tick (w_host w))) = (Ret recs, h1) ->
  apply_suggestion self s h1 = (Raise e, h2) ->
  apply_changes self (pre ++ s :: post) w
  = (false, {| w_host := snd (log self (MsgErrorApplying e) h2);
               w_logs := w_logs w; w_snapshot := w_snapshot w |}).
Proof.
  intros Hpre Hs. unfold apply_changes.
  destruct (tick (w_host w)) as [timestamp h] eqn:Htick. simpl in Hpre.
  rewrite (apply_loop_raises _ _ _ _ _ _ _ _ _ Hpre Hs).
  by destruct (log self (MsgErrorApplying e) h2).
Qed.

(** C2 (as amended).  For every call to apply that returns true, one
    journal file recording the batch (every suggestion, in order, with
    status completed) has been written under the name
    changes_<timestamp>.json; when applying a suggestion raises, apply
    returns false and the journal directory is unchanged. *)
Theorem C2_journal_written_when_loop_completes
  (self : organizer) (batch : list suggestion) (w : world) (b : bool) (w' : world) :
  apply_changes self batch w = (b, w') ->
  (b = true ->
   exists changes,
     w_logs w'
     = <[changes_file (fst (tick (w_host w))) :=
           json_changes {| cl_timestamp := fst (tick (w_host w));
                           cl_root_path := root_path self;
                           cl_changes := changes |}]> (w_logs w)
     /\ map cr_suggestion changes = batch
     /\ Forall (fun c => cr_status c = "completed") changes)
  /\ (forall e h1,
        apply_loop self batch (snd (tick (w_host w))) = (Raise e, h1) ->
        b = false /\ w_logs w' = w_logs w).
Proof.
  unfold apply_changes.
  destruct (tick (w_host w)) as [timestamp h] eqn:Htick. simpl.
  destruct (apply_loop self batch h) as [[changes|e] h1] eqn:Hloop.
  - destruct (scan_folder_structure self h1) as [[structure|e] h2].
    + intros [= <- <-]. split; [|discriminate].
      intros _. exists changes. split; [done|]. by eapply apply_loop_records.
    + destruct (log self (MsgErrorApplying e) h2). intros [= <- <-].
      split; [discriminate | discriminate].
  - destruct (log self (MsgErrorApplying e) h1). intros [= <- <-].
    split; [discriminate|]. by intros ? ? [= <- <-].
Qed.

(** ** The journal undo reads *)

#[local] Instance str_le_total : Total str_le.
Proof. intros a b. apply String.leb_total. Qed.

Lemma sorted_last_max (l : list string) (x : string) :
  Sorted str_le l -> x ∈ l -> (forall y, y ∈ l -> str_le y x) -> last l = Some x.
Proof.
  induction 1 as [|a l Hl IH Hhd]; intros Hx Hmax.
  - by apply elem_of_nil in Hx.
  - destruct l as [|b l'].
    + apply list_elem_of_singleton in Hx as ->. done.
    + change (last (a :: b :: l')) with (last (b :: l')).
      apply IH; [|intros y Hy; apply Hmax; by apply list_elem_of_further].
      apply elem_of_cons in Hx as [->|Hx]; [|done].
      inversion Hhd as [|? ? Hab]; subst.
      assert (b = a) as ->; [|apply list_elem_of_here].
      apply String.leb_antisym; [|done].
      apply Hmax. apply list_elem_of_further, list_elem_of_here.
Qed.

Lemma elem_of_change_logs (logs : gmap string log_content) (f : string) :
  f ∈ change_logs logs <-> String.prefix "changes_" f = true /\ is_Some (logs !! f).
Proof.
  unfold change_logs. rewrite merge_sort_Permutation.
  rewrite list_elem_of_filter, list_elem_of_fmap.
  split.
  - intros [Hp ([f' c] & -> & Hin)]. split; [done|].
    apply elem_of_map_to_list in Hin. eauto.
  - intros [Hp [c Hc]]. split; [done|]. exists (f, c). split; [done|].
    by apply elem_of_map_to_list.
Qed.

Lemma latest_log_greatest (logs : gmap string log_content) (latest : string) :
  is_Some (logs !! latest) ->
  String.prefix "changes_" latest = true ->
  (forall f, is_Some (logs !! f) -> String.prefix "changes_" f = true -> str_le f latest) ->
  latest_log logs = Some latest.
Proof.
  intros Hin Hp Hmax. unfold latest_log. apply sorted_last_max.
  - apply (Sorted_merge_sort str_le).
  - by apply elem_of_change_logs.
  - intros y [Hy1 Hy2]%elem_of_change_logs. by apply Hmax.
Qed.

Lemma scan_folder_structure_eq (self : organizer) (h : host) :
  scan_folder_structure self h
  = (_scan_directory recursion_limit (h_fs h) (root_path self),
     snd (log self (MsgScanning (root_path self)) h)).
Proof.
  unfold scan_folder_structure, log, bind, print, get_fs, ret, raise.
  destruct (verbose self); cbn [fst snd h_fs];
    by destruct (_scan_directory recursion_limit (h_fs h) (root_path self)).
Qed.

Lemma log_fs (self : organizer) (m : message) (h : host) :
  h_fs (snd (log self m h)) = h_fs h.
Proof. unfold log, print, ret. by destruct (verbose self). Qed.

Lemma scan_folder_structure_fs self h r h' :
  scan_folder_structure self h = (r, h') -> h_fs h' = h_fs h.
Proof. rewrite scan_folder_structure_eq. intros [= _ <-]. apply log_fs. Qed.

(** C4 (as amended).  During undo, when replaying the recorded changes
    of the latest journal raises an exception, the error is caught and
    logged (when verbose), undo returns false, and the journal directory
    is left as it was, the journal file included. *)
Theorem C4_undo_exception_keeps_journal
  (self : organizer) (w : world) (latest : string) (journal : change_log)
  (e : exn) (h1 : host) :
  latest_log (w_logs w) = Some latest ->
  w_logs w !! latest = Some (json_changes journal) ->
  for_each (rev (cl_changes journal)) (undo_change self) (w_host w) = (Raise e, h1) ->
  undo_last_change self w
  = (false, {| w_host := snd (log self (MsgErrorUndoing e) h1);
               w_logs := w_logs w; w_snapshot := w_snapshot w |})
  /\ (verbose self = true ->
      h_out (snd (log self (MsgErrorUndoing e) h1)) = h_out h1 ++ [MsgErrorUndoing e]).
Proof.
  intros Hlatest Hread Hreplay. unfold undo_last_change.
  rewrite Hlatest, Hread, Hreplay. split; [done|].
  unfold log. by intros ->.
Qed.

(** C5 (as amended).  Undo operates on the journal file whose name is
    the greatest among those that start with [changes_] (the most
    recently written apply journal; files of other names, those of
    explode batches included, are not considered): it replays its
    recorded changes in reverse order and, when the replay raises
    nothing, deletes that journal file, leaves the tree as the replay left
    it, and returns true when the rescan succeeds. *)
Theorem C5_undo_replays_latest_changes_journal
  (self : organizer) (w : world) (latest : string) (journal : change_log) (h1 : host) :
  w_logs w !! latest = Some (json_changes journal) ->
  String.prefix "changes_" latest = true ->
  (forall f, is_Some (w_logs w !! f) -> String.prefix "changes_" f = true ->
             str_le f latest) ->
  for_each (rev (cl_changes journal)) (undo_change self) (w_host w) = (Ret tt, h1) ->
  w_logs (snd (undo_last_change self w)) = delete latest (w_logs w)
  /\ h_fs (w_host (snd (undo_last_change self w))) = h_fs h1
  /\ (forall structure,
        _scan_directory recursion_limit (h_fs h1) (root_path self) = Ret structure ->
        fst (undo_last_change self w) = true
        /\ w_snapshot (snd (undo_last_change self w)) = Some structure).
Proof.
  intros Hread Hp Hmax Hreplay. unfold undo_last_change.
  rewrite (latest_log_greatest _ latest) by eauto.
  rewrite Hread, Hreplay.
  destruct (scan_folder_structure self h1) as [[structure|e] h2] eqn:Hscan.
  - pose proof (scan_folder_structure_fs _ _ _ _ Hscan) as Hfs.
    simpl. split; [done|]. split; [done|].
    intros structure' Hs. split; [done|].
    rewrite scan_folder_structure_eq, Hs in Hscan. by inversion Hscan.
  - pose proof (scan_folder_structure_fs _ _ _ _ Hscan) as Hfs.
    unfold undo_failed, log. simpl. split; [done|]. split.
    + destruct (verbose self); simpl; done.
    + intros structure' Hs. exfalso.
      rewrite scan_folder_structure_eq, Hs in Hscan. discriminate.
Qed.

(** ** Re-linking single entries *)

Lemma relink_lookup (src dst : path) (fs : gmap path entry) (p : path) :
  relink src dst fs !! p
  = match fs !! src with
    | Some e => if decide (dst = p) then Some e
                else if decide (src = p) then None else fs !! p
    | None => fs !! p
    end.
Proof.
  unfold relink. destruct (fs !! src) as [e|] eqn:Hs; [|done].
  rewrite lookup_insert. case_decide; [done|].
  rewrite lookup_delete. by case_decide.
Qed.

Lemma relink_back (src dst : path) (fs : gmap path entry) :
  is_Some (fs !! src) -> fs !! dst = None ->
  relink dst src (relink src dst fs) = fs.
Proof.
  intros [e He] Hd. apply map_eq. intros p.
  rewrite !relink_lookup, He. rewrite decide_True by done.
  destruct (decide (src = p)) as [<-|Hsp]; [done|].
  destruct (decide (dst = p)) as [<-|Hdp]; [done|]. done.
Qed.

Lemma relink_comm (a b c d : path) (fs : gmap path entry) :
  a <> c -> a <> d -> b <> c -> b <> d ->
  relink a b (relink c d fs) = relink c d (relink a b fs).
Proof.
  intros Hac Had Hbc Hbd. apply map_eq. intros p.
  rewrite !relink_lookup.
  destruct (fs !! a) as [ea|], (fs !! c) as [ec|]; repeat case_decide; congruence.
Qed.


Lemma keys_cons (m : path * path) (moves : list (path * path)) (p : path) :
  p ∈ keys (m :: moves) <-> p = fst m \/ p = snd m \/ p ∈ keys moves.
Proof. unfold keys. simpl. rewrite !elem_of_cons, !elem_of_app, elem_of_cons. tauto. Qed.

Lemma NoDup_keys_cons (m : path * path) (moves : list (path * path)) :
  NoDup (keys (m :: moves)) ->
  fst m <> snd m /\ (fst m ∉ keys moves) /\ (snd m ∉ keys moves) /\ NoDup (keys moves).
Proof.
  unfold keys. simpl. intros Hnd.
  apply NoDup_cons in Hnd as [H1 Hnd].
  apply NoDup_app in Hnd as (Hs & Hsd & Hd).
  apply NoDup_cons in Hd as [H2 Hd].
  rewrite elem_of_app, elem_of_cons in H1.
  repeat split.
  - intros E. apply H1. right. by left.
  - rewrite elem_of_app. intros [?|?]; apply H1; [by left | right; by right].
  - rewrite elem_of_app. intros [?|?]; [|done].
    eapply Hsd; [done|]. apply list_elem_of_here.
  - apply NoDup_app. repeat split; [done| |done].
    intros x Hx Hx'. eapply Hsd; [done|]. by apply list_elem_of_further.
Qed.

Lemma forward_other (moves : list (path * path)) (fs : gmap path entry) (p : path) :
  p ∉ keys moves -> forward fs moves !! p = fs !! p.
Proof.
  revert fs. induction moves as [|m moves IH]; intros fs Hp; [done|].
  rewrite keys_cons in Hp. simpl. rewrite IH by tauto.
  rewrite relink_lookup. destruct (fs !! fst m); [|done].
  rewrite !decide_False; [done| |]; intros E; apply Hp; auto.
Qed.

Lemma forward_moved (moves : list (path * path)) (fs : gmap path entry) (s d : path) :
  NoDup (keys moves) -> (s, d) ∈ moves ->
  (forall m, m ∈ moves -> is_Some (fs !! fst m)) ->
  forward fs moves !! s = None /\ forward fs moves !! d = fs !! s.
Proof.
  revert fs. induction moves as [|m moves IH]; intros fs Hnd Hin Hex.
  - by apply elem_of_nil in Hin.
  - apply NoDup_keys_cons in Hnd as (Hne & Hs & Hd & Hnd).
    simpl. apply elem_of_cons in Hin as [<-|Hin]; simpl in *.
    + rewrite (forward_other moves _ s) by exact Hs.
      rewrite (forward_other moves _ d) by exact Hd.
      rewrite !relink_lookup.
      destruct (Hex (s, d)) as [e He]; [apply list_elem_of_here|]. simpl in He.
      rewrite He. split; repeat case_decide; congruence.
    + assert (Hk : s ∈ keys moves /\ d ∈ keys moves).
      { unfold keys. rewrite !elem_of_app, !list_elem_of_fmap.
        split; [left | right]; by exists (s, d). }
      destruct Hk as [Hks Hkd].
      assert (Hs' : forall q, q ∈ keys moves -> relink (fst m) (snd m) fs !! q = fs !! q).
      { intros q Hq. rewrite relink_lookup. destruct (fs !! fst m); [|done].
        rewrite !decide_False; [done| |]; intros <-; done. }
      destruct (IH (relink (fst m) (snd m) fs) Hnd Hin) as [IH1 IH2].
      { intros m' Hm'. rewrite Hs'.
        - apply Hex. by apply list_elem_of_further.
        - unfold keys. rewrite elem_of_app, list_elem_of_fmap. left. by exists m'. }
      split; [done|]. rewrite IH2. by apply Hs'.
Qed.

Lemma relink_forward_comm (moves : list (path * path)) (fs : gmap path entry) (a b : path) :
  a ∉ keys moves -> b ∉ keys moves ->
  relink a b (forward fs moves) = forward (relink a b fs) moves.
Proof.
  revert fs. induction moves as [|m moves IH]; intros fs Ha Hb; [done|].
  rewrite keys_cons in Ha, Hb. simpl. rewrite IH by tauto.
  f_equal. apply relink_comm; intros ->; tauto.
Qed.

Lemma backward_forward (moves : list (path * path)) (fs : gmap path entry) :
  NoDup (keys moves) ->
  (forall m, m ∈ moves -> is_Some (fs !! fst m) /\ fs !! snd m = None) ->
  backward (forward fs moves) moves = fs.
Proof.
  induction moves as [|m moves IH]; intros Hnd Hex; [done|].
  apply NoDup_keys_cons in Hnd as (Hne & Hs & Hd & Hnd).
  simpl. rewrite relink_forward_comm by done.
  destruct (Hex m) as [H1 H2]; [apply list_elem_of_here|].
  rewrite relink_back by done.
  apply IH; [done|]. intros m' Hm'. apply Hex. by apply list_elem_of_further.
Qed.

(** ** File-system operations on known states *)

Lemma dirname_join (p : path) (n : string) : dirname (join p n) = p.
Proof. apply removelast_last. Qed.

Lemma with_fs_same (h : host) : with_fs (h_fs h) h = h.
Proof. by destruct h. Qed.

Lemma exists_eq (p : path) (h : host) :
  exists_ p h = (Ret (bool_decide (is_Some (h_fs h !! p))), h).
Proof. reflexivity. Qed.

Lemma move_file (src dst : path) (h : host) (i : nat) :
  h_fs h !! src = Some (File i) -> h_fs h !! dst = None ->
  move src dst h
  = match h_fs h !! dirname dst with
    | Some Dir => (Ret tt, with_fs (relink src dst (h_fs h)) h)
    | Some (File _) => (Raise (NotADirectoryError dst), h)
    | None => (Raise (FileNotFoundError dst), h)
    end.
Proof.
  intros Hs Hd. unfold move, bind, get_fs. rewrite Hd.
  unfold try_except, rename, bind, get_fs. rewrite Hs.
  rewrite bool_decide_eq_false_2 by congruence.
  destruct (h_fs h !! dirname dst) as [[j|]|] eqn:Hp; simpl.
  - done.
  - rewrite Hd. unfold put_fs, relink. by rewrite Hs.
  - done.
Qed.

(** ** The two loops of a [group_loose_files] suggestion *)

Lemma basename_join (p : path) (n : string) : basename (join p n) = n.
Proof. apply last_last. Qed.

Lemma join_inj (p : path) (n n' : string) : join p n = join p n' -> n = n'.
Proof. unfold join. intros E%app_inv_head. by inversion E. Qed.

Lemma strip_prefix_app (pre k : path) : strip_prefix pre (pre ++ k) = Some k.
Proof.
  induction pre as [|x pre IH]; simpl; [done|]. by rewrite String.eqb_refl.
Qed.

Lemma is_under_prefix (src dir : path) (n : string) :
  src `prefix_of` dir -> is_under src (join dir n) = true.
Proof.
  intros [k ->]. unfold is_under, join. by rewrite <- app_assoc, strip_prefix_app.
Qed.

(** A directory cannot be moved below itself. *)
Lemma move_dir_into_itself (src dst : path) (h : host) :
  h_fs h !! src = Some Dir -> h_fs h !! dst = None -> is_under src dst = true ->
  exists e, move src dst h = (Raise e, h).
Proof.
  intros Hs Hd Hu. unfold move, bind, get_fs. rewrite Hd.
  unfold try_except, rename, bind, get_fs. rewrite Hs, Hu, Hd.
  rewrite bool_decide_eq_false_2 by congruence.
  rewrite bool_decide_eq_true_2 by done.
  destruct (h_fs h !! dirname dst) as [[j|]|] eqn:Hp; simpl; eauto.
Qed.

Lemma group_body_free (target : path) (f : file_record) (h : host) (i : nat) :
  h_fs h !! fr_path f = Some (File i) ->
  h_fs h !! join target (basename (fr_path f)) = None ->
  group_body target f h
  = match h_fs h !! target with
    | Some Dir =>
        (Ret (Some (fr_path f, join target (basename (fr_path f)))),
         with_fs (relink (fr_path f) (join target (basename (fr_path f))) (h_fs h)) h)
    | Some (File _) => (Raise (NotADirectoryError (join target (basename (fr_path f)))), h)
    | None => (Raise (FileNotFoundError (join target (basename (fr_path f)))), h)
    end.
Proof.
  intros Hs Hd. unfold group_body, bind, exists_, get_fs, ret. simpl.
  rewrite Hd. simpl. rewrite Hs. simpl.
  rewrite (move_file _ _ _ i) by done. rewrite dirname_join.
  by destruct (h_fs h !! target) as [[j|]|].
Qed.

Lemma group_body_absent (target : path) (f : file_record) (h : host) :
  h_fs h !! fr_path f = None ->
  h_fs h !! join target (basename (fr_path f)) = None ->
  group_body target f h = (Ret None, h).
Proof.
  intros Hs Hd. unfold group_body, bind, exists_, get_fs, ret. simpl.
  rewrite Hd. simpl. by rewrite Hs.
Qed.

Lemma group_body_dir (target : path) (f : file_record) (h : host) :
  h_fs h !! fr_path f = Some Dir ->
  fr_path f `prefix_of` target ->
  h_fs h !! join target (basename (fr_path f)) = None ->
  exists e, group_body target f h = (Raise e, h).
Proof.
  intros Hs Hpre Hd. unfold group_body, bind, exists_, get_fs, ret. simpl.
  rewrite Hd. simpl. rewrite Hs. simpl.
  destruct (move_dir_into_itself (fr_path f) (join target (basename (fr_path f))) h)
    as [e ->]; [done | done | by apply is_under_prefix | eauto].
Qed.

Lemma filter_ext_in {A} (P Q : A -> Prop) `{!forall x, Decision (P x)}
  `{!forall x, Decision (Q x)} (l : list A) :
  (forall x, x ∈ l -> P x <-> Q x) -> filter P l = filter Q l.
Proof.
  induction l as [|x l IH]; intros Hext; [done|].
  rewrite !filter_cons.
  rewrite IH by (intros y Hy; apply Hext; by apply list_elem_of_further).
  pose proof (Hext x (list_elem_of_here _ _)) as Hx.
  destruct (decide (P x)), (decide (Q x)); tauto.
Qed.

(** The state a move of [f] leaves, seen from a file of another name. *)
Lemma relink_other_name (target : path) (f g : file_record) (fs : gmap path entry) :
  basename (fr_path g) <> basename (fr_path f) ->
  relink (fr_path f) (join target (basename (fr_path f))) fs !! fr_path g = fs !! fr_path g
  /\ relink (fr_path f) (join target (basename (fr_path f))) fs
       !! join target (basename (fr_path g))
     = fs !! join target (basename (fr_path g)).
Proof.
  intros Hne. rewrite !relink_lookup. destruct (fs !! fr_path f) as [e|]; [|done].
  split.
  - rewrite !decide_False; [done| |].
    + intros E. by rewrite E in Hne.
    + intros E. apply Hne. by rewrite <- E, basename_join.
  - rewrite !decide_False; [done| |].
    + intros E. apply Hne. by rewrite E, basename_join.
    + intros E%join_inj. by rewrite E in Hne.
Qed.

Lemma group_loop_ok (target : path) (files : list file_record) (h : host)
  (moved : list (path * path)) (h' : host) :
  NoDup (map (fun f => basename (fr_path f)) files) ->
  (forall f e, f ∈ files -> h_fs h !! fr_path f = Some e ->
     (exists i, e = File i) \/ (e = Dir /\ fr_path f `prefix_of` target)) ->
  (forall f, f ∈ files -> h_fs h !! join target (basename (fr_path f)) = None) ->
  for_collect files (group_body target) h = (Ret moved, h') ->
  moved = planned_moves (h_fs h) files target
  /\ h' = with_fs (forward (h_fs h) moved) h
  /\ (forall f e, f ∈ files -> h_fs h !! fr_path f = Some e -> exists i, e = File i).
Proof.
  revert h moved. induction files as [|f files IH]; intros h moved Hnd Hsrc Hdst Hrun.
  - simpl in Hrun. inversion Hrun; subst. unfold planned_moves. simpl.
    rewrite with_fs_same. repeat split. by intros f e ?%elem_of_nil.
  - simpl in Hnd. apply NoDup_cons in Hnd as [Hf Hnd].
    assert (Hother : forall g, g ∈ files -> basename (fr_path g) <> basename (fr_path f)).
    { intros g Hg E. apply Hf. rewrite <- E. apply list_elem_of_fmap. by exists g. }
    pose proof (Hdst f (list_elem_of_here _ _)) as Hd.
    simpl in Hrun.
    apply bind_inv_Ret in Hrun as (r & h1 & Hbody & Hrun).
    apply bind_inv_Ret in Hrun as (rs & h2 & Hrest & Hret).
    inversion Hret; subst moved h2; clear Hret.
    destruct (h_fs h !! fr_path f) as [e|] eqn:Hs.
    + destruct (Hsrc f e (list_elem_of_here _ _) Hs) as [[i ->]|[-> Hpre]].
      2:{ destruct (group_body_dir target f h Hs Hpre Hd) as [e He].
          rewrite He in Hbody. discriminate. }
      rewrite (group_body_free _ _ _ i) in Hbody by done.
      destruct (h_fs h !! target) as [[j|]|] eqn:Ht; try discriminate.
      inversion Hbody; subst r h1; clear Hbody.
      apply IH in Hrest as (Hm & -> & Hfile); [|done| |].
      * assert (Hsame : planned_moves
                          (relink (fr_path f) (join target (basename (fr_path f))) (h_fs h))
                          files target
                        = planned_moves (h_fs h) files target).
        { unfold planned_moves. f_equal. apply filter_ext_in. intros g Hg.
          by destruct (relink_other_name target f g (h_fs h) (Hother g Hg)) as [-> _]. }
        simpl in Hm. rewrite Hsame in Hm. subst rs.
        repeat split.
        -- unfold planned_moves at 2. rewrite filter_cons_True by (by rewrite Hs).
           done.
        -- intros g e Hg He. apply elem_of_cons in Hg as [->|Hg].
           ++ rewrite Hs in He. inversion He. eauto.
           ++ apply (Hfile g e Hg). simpl.
              by destruct (relink_other_name target f g (h_fs h) (Hother g Hg)) as [-> _].
      * intros g e Hg. simpl.
        destruct (relink_other_name target f g (h_fs h) (Hother g Hg)) as [-> _].
        apply Hsrc. by apply list_elem_of_further.
      * intros g Hg. simpl.
        destruct (relink_other_name target f g (h_fs h) (Hother g Hg)) as [_ ->].
        apply Hdst. by apply list_elem_of_further.
    + rewrite group_body_absent in Hbody by done.
      inversion Hbody; subst r h1; clear Hbody.
      apply IH in Hrest as (-> & -> & Hfile); [|done| |].
      * repeat split.
        -- unfold planned_moves. rewrite filter_cons_False; [done|].
           rewrite Hs. by intros [? ?].
        -- intros g e Hg He. apply elem_of_cons in Hg as [->|Hg]; [congruence|].
           by apply (Hfile g e Hg).
      * intros g e Hg. apply Hsrc. by apply list_elem_of_further.
      * intros g Hg. apply Hdst. by apply list_elem_of_further.
Qed.

Lemma back_loop_ok (moves : list (path * path)) (h : host) :
  NoDup (keys moves) ->
  (forall m, m ∈ moves ->
     (exists i, h_fs h !! snd m = Some (File i))
     /\ h_fs h !! fst m = None
     /\ h_fs h !! dirname (fst m) = Some Dir) ->
  for_each moves back_body h = (Ret tt, with_fs (backward (h_fs h) moves) h).
Proof.
  revert h. induction moves as [|[s d] moves IH]; intros h Hnd Hok.
  - simpl. by rewrite with_fs_same.
  - apply NoDup_keys_cons in Hnd as (Hne & Hks & Hkd & Hnd). simpl in Hne, Hks, Hkd.
    destruct (Hok (s, d)) as ([i Hd] & Hs & Hp); [apply list_elem_of_here|].
    simpl in Hd, Hs, Hp.
    assert (Hfirst : back_body (s, d) h = (Ret tt, with_fs (relink d s (h_fs h)) h)).
    { unfold back_body, bind, exists_, get_fs, ret. simpl. rewrite Hd. simpl.
      rewrite (move_file _ _ _ i) by done. by rewrite Hp. }
    simpl. rewrite (bind_Ret _ _ _ _ _ Hfirst). rewrite IH; [done|done|].
    intros [s' d'] Hm. destruct (Hok (s', d')) as ([k Hd'] & Hs' & Hp');
      [by apply list_elem_of_further|]. simpl in *.
    assert (Hk : s' ∈ keys moves /\ d' ∈ keys moves).
    { unfold keys. rewrite !elem_of_app, !list_elem_of_fmap.
      split; [left | right]; by exists (s', d'). }
    destruct Hk as [Hks' Hkd'].
    rewrite !relink_lookup, Hd.
    repeat split.
    + exists k. rewrite !decide_False; [done| |]; intros E; rewrite E in *; done.
    + rewrite !decide_False; [done| |]; intros E; rewrite E in *; done.
    + rewrite !decide_False; [done| |]; intros E; rewrite E in *; congruence.
Qed.

(** ** Creating and removing folders *)


Lemma grows_to_refl (p : path) (fs : gmap path entry) : grows_to p fs fs.
Proof. split; [done|]. intros q -> [? ?]; discriminate. Qed.

Lemma grows_to_trans (p p' : path) (fs fs1 fs2 : gmap path entry) :
  p `prefix_of` p' -> grows_to p fs fs1 -> grows_to p' fs1 fs2 -> grows_to p' fs fs2.
Proof.
  intros Hpp [H1 H2] [H3 H4]. split; [eauto|].
  intros q Hq Hq2. destruct (fs1 !! q) as [e|] eqn:Hq1.
  - destruct (H2 q Hq) as [Hd Hpre]; [by rewrite Hq1|].
    split; [by apply H3 | by etrans].
  - by apply H4.
Qed.

Lemma mkdir_grows (p : path) (h : host) r h' :
  mkdir p h = (r, h') ->
  grows_to p (h_fs h) (h_fs h') /\ (r = Ret tt -> h_fs h' !! p = Some Dir).
Proof.
  unfold mkdir, bind, get_fs, raise, put_fs.
  destruct (h_fs h !! p) as [e|] eqn:Hp.
  - intros [= <- <-]. split; [apply grows_to_refl | discriminate].
  - destruct (h_fs h !! dirname p) as [[j|]|]; intros [= <- <-]; simpl;
      try (split; [apply grows_to_refl | discriminate]).
    split; [|intros _; apply lookup_insert_eq].
    split.
    + intros q e Hq. rewrite lookup_insert_ne; [done | congruence].
    + intros q Hq. rewrite lookup_insert. case_decide as E; [by subst | ].
      rewrite Hq. by intros [? ?].
Qed.

Lemma mkdir_exist_ok_grows (p : path) (h : host) r h' :
  mkdir_exist_ok p h = (r, h') ->
  grows_to p (h_fs h) (h_fs h') /\ (r = Ret tt -> h_fs h' !! p = Some Dir).
Proof.
  unfold mkdir_exist_ok, try_except.
  destruct (mkdir p h) as [[[]|e] h1] eqn:Hm.
  - intros [= <- <-]. by apply mkdir_grows in Hm.
  - apply mkdir_grows in Hm as [Hg _].
    unfold bind, isdir, get_fs, ret, raise. simpl.
    case_bool_decide as Hd; intros [= <- <-]; (split; [done|]); [done | discriminate].
Qed.

Lemma makedirs_rev_grows (rname : list string) (h : host) r h' :
  makedirs_rev rname h = (r, h') ->
  grows_to (rev rname) (h_fs h) (h_fs h') /\ (r = Ret tt -> h_fs h' !! rev rname = Some Dir).
Proof.
  revert h r h'. induction rname as [|t rhead IH]; intros h r h' Hrun.
  - by apply mkdir_exist_ok_grows in Hrun.
  - cbn [makedirs_rev] in Hrun.
    rewrite (bind_Ret _ _ _ _ _ (exists_eq _ _)) in Hrun.
    assert (Hpre : rev rhead `prefix_of` rev (t :: rhead)) by (by eexists).
    destruct (bool_decide (is_Some (h_fs h !! rev rhead))).
    + apply mkdir_exist_ok_grows in Hrun. done.
    + unfold bind, try_except in Hrun.
      destruct (makedirs_rev rhead h) as [[[]|e] h1] eqn:Hhead.
      * apply IH in Hhead as [Hg _].
        apply mkdir_exist_ok_grows in Hrun as [Hg' Hd]. simpl in *.
        split; [|done]. by eapply grows_to_trans.
      * apply IH in Hhead as [Hg _].
        destruct e; simpl in Hrun;
          try (inversion Hrun; subst; split; [|discriminate];
               eapply grows_to_trans; [exact Hpre | exact Hg | apply grows_to_refl]).
        apply mkdir_exist_ok_grows in Hrun as [Hg' Hd]. simpl in *.
        split; [|done]. by eapply grows_to_trans.
Qed.

Lemma makedirs_grows (p : path) (h : host) r h' :
  makedirs p h = (r, h') ->
  grows_to p (h_fs h) (h_fs h') /\ (r = Ret tt -> h_fs h' !! p = Some Dir).
Proof.
  unfold makedirs. intros H%makedirs_rev_grows. by rewrite rev_involutive in H.
Qed.

Lemma strip_prefix_Some (pre p suffix : path) :
  strip_prefix pre p = Some suffix -> p = pre ++ suffix.
Proof.
  revert p. induction pre as [|x pre IH]; intros p; simpl.
  - by intros [= ->].
  - destruct p as [|y p]; [discriminate|].
    destruct (String.eqb_spec x y) as [->|]; [|discriminate].
    intros H%IH. by subst.
Qed.

Lemma elem_of_children (fs : gmap path entry) (dir : path) (n : string) (e : entry) :
  (n, e) ∈ children fs dir -> fs !! join dir n = Some e.
Proof.
  unfold children. rewrite list_elem_of_omap. intros ([p e'] & Hin & Hm).
  simpl in Hm. destruct (strip_prefix dir p) as [[|n' [|]]|] eqn:Hs; try discriminate.
  inversion Hm; subst. apply strip_prefix_Some in Hs as ->.
  by apply elem_of_map_to_list.
Qed.

Lemma listdir_dir (p : path) (h : host) :
  h_fs h !! p = Some Dir -> listdir p h = (Ret (map fst (children (h_fs h) p)), h).
Proof. intros Hp. unfold listdir, scandir, bind, get_fs, ret. by rewrite Hp. Qed.

Lemma rmdir_if_empty_dir (p : path) (h : host) :
  h_fs h !! p = Some Dir ->
  rmdir_if_empty p h
  = (Ret tt, with_fs (match children (h_fs h) p with
                      | [] => delete p (h_fs h)
                      | _ :: _ => h_fs h
                      end) h).
Proof.
  intros Hp. unfold rmdir_if_empty.
  rewrite (bind_Ret _ _ _ _ _ (exists_eq _ _)), Hp.
  rewrite bool_decide_eq_true_2 by eauto.
  rewrite (bind_Ret _ _ _ _ _ (listdir_dir _ _ Hp)).
  destruct (children (h_fs h) p) as [|c cs] eqn:Hc.
  - unfold map, rmdir, bind, get_fs, put_fs. by rewrite Hp, Hc.
  - unfold map, ret. by rewrite with_fs_same.
Qed.

(** ** A [group_loose_files] suggestion and its inverse *)

Lemma elem_of_planned (fs : gmap path entry) (files : list file_record)
  (target : path) (m : path * path) :
  m ∈ planned_moves fs files target <->
  exists f, f ∈ files /\ is_Some (fs !! fr_path f)
            /\ m = (fr_path f, join target (basename (fr_path f))).
Proof.
  unfold planned_moves. rewrite list_elem_of_fmap. split.
  - intros (f & -> & [Hs Hf]%list_elem_of_filter). eauto.
  - intros (f & Hf & Hs & ->). exists f. split; [done|]. by apply list_elem_of_filter.
Qed.

Lemma planned_keys_NoDup (files : list file_record) (target : path)
  (fs : gmap path entry) :
  NoDup (map (fun f => basename (fr_path f)) files) ->
  (forall f, f ∈ files -> fs !! join target (basename (fr_path f)) = None) ->
  NoDup (keys (planned_moves fs files target)).
Proof.
  intros Hnd Hdst. unfold keys, planned_moves. rewrite !map_map. simpl.
  set (present := filter (fun f => is_Some (fs !! fr_path f)) files).
  assert (Hsub : present `sublist_of` files) by apply sublist_filter.
  assert (Hnames : NoDup (map (fun f => basename (fr_path f)) present)).
  { eapply sublist_NoDup; [exact Hnd|]. by apply fmap_sublist. }
  apply NoDup_app. repeat split.
  - apply (NoDup_fmap_1 basename). by rewrite <- list_fmap_compose.
  - intros x (f & -> & Hf)%list_elem_of_fmap (g & Hx & Hg)%list_elem_of_fmap.
    apply list_elem_of_filter in Hf as [[e He] _].
    apply list_elem_of_filter in Hg as [_ Hg].
    rewrite Hx, (Hdst g Hg) in He. discriminate.
  - rewrite <- (map_map (fun f => basename (fr_path f)) (fun n => join target n)).
    apply NoDup_fmap_2; [|done].
    intros n n' E. by apply join_inj in E.
Qed.

Lemma not_prefix_join (target : path) (n : string) : ~ join target n `prefix_of` target.
Proof.
  intros [k Hk]. unfold join in Hk. apply (f_equal List.length) in Hk.
  rewrite !length_app in Hk. simpl in Hk. lia.
Qed.

Lemma apply_group_ok (self : organizer) (files : list file_record) (target : path)
  (is_new : bool) (h : host) (r : change_record) (h1 : host) :
  NoDup (map (fun f => basename (fr_path f)) files) ->
  (forall f e, f ∈ files -> h_fs h !! fr_path f = Some e -> exists i, e = File i) ->
  (forall f, f ∈ files -> h_fs h !! join target (basename (fr_path f)) = None) ->
  apply_suggestion self (group_loose_files files target is_new) h = (Ret r, h1) ->
  exists fsA,
    grows_to target (h_fs h) fsA
    /\ (is_new = true -> fsA !! target = Some Dir)
    /\ (is_new = false -> fsA = h_fs h)
    /\ (forall f e, f ∈ files -> fsA !! fr_path f = Some e -> exists i, e = File i)
    /\ (forall f, f ∈ files -> fsA !! join target (basename (fr_path f)) = None)
    /\ h_fs h1 = forward fsA (planned_moves fsA files target)
    /\ r = {| cr_suggestion := group_loose_files files target is_new;
              cr_status := "completed";
              cr_result := Some (res_moved_files target is_new
                                   (planned_moves fsA files target)) |}.
Proof.
  intros Hnd Hsrc Hdst Hrun. cbn [apply_suggestion] in Hrun.
  apply bind_inv_Ret in Hrun as ([] & hA & HA & Hrun).
  apply bind_inv_Ret in Hrun as (moved & hB & Hloop & Hret).
  assert (Hgrow : grows_to target (h_fs h) (h_fs hA)
                  /\ (is_new = true -> h_fs hA !! target = Some Dir)
                  /\ (is_new = false -> h_fs hA = h_fs h)).
  { destruct is_new.
    - apply makedirs_grows in HA as [Hg Hd].
      split; [exact Hg|]. split; [intros _; by apply Hd | discriminate].
    - inversion HA; subst. split; [apply grows_to_refl|]. by split. }
  destruct Hgrow as (Hg & Hnew & Hold).
  assert (HdstA : forall f, f ∈ files -> h_fs hA !! join target (basename (fr_path f)) = None).
  { intros f Hf. destruct (h_fs hA !! join target (basename (fr_path f))) as [e|] eqn:E; [|done].
    exfalso. apply (not_prefix_join target (basename (fr_path f))).
    apply Hg; [by apply Hdst | by rewrite E]. }
  apply group_loop_ok in Hloop as (-> & -> & Hfile); [|done| |done].
  - exists (h_fs hA). inversion Hret; subst r h1; clear Hret.
    split; [done|]. split; [done|]. split; [done|].
    split; [exact Hfile|]. split; [exact HdstA|]. by split.
  - intros f e Hf He. destruct (h_fs h !! fr_path f) as [e0|] eqn:E0.
    + left. apply (Hsrc f e0 Hf) in E0 as HFile.
      apply Hg in E0. rewrite E0 in He. by inversion He; subst.
    + right. destruct Hg as [_ Hg]. destruct (Hg _ E0) as [Hd Hpre]; [by rewrite He|].
      split; [congruence | done].
Qed.

Lemma undo_group_ok (self : organizer) (files : list file_record) (target : path)
  (is_new : bool) (status : string) (moves : list (path * path))
  (fsA : gmap path entry) (h : host) :
  h_fs h = forward fsA moves ->
  NoDup (keys moves) ->
  (forall m, m ∈ moves ->
     (exists i, fsA !! fst m = Some (File i))
     /\ fsA !! snd m = None
     /\ fsA !! dirname (fst m) = Some Dir) ->
  (is_new = true -> fsA !! target = Some Dir) ->
  undo_change self
    {| cr_suggestion := group_loose_files files target is_new;
       cr_status := status;
       cr_result := Some (res_moved_files target is_new moves) |} h
  = (Ret tt,
     with_fs (if is_new
              then match children fsA target with
                   | [] => delete target fsA
                   | _ :: _ => fsA
                   end
              else fsA) h).
Proof.
  intros Hfs Hnd Hok Hnew. unfold undo_change. cbn [cr_suggestion cr_result].
  assert (Hloop : for_each moves back_body h = (Ret tt, with_fs fsA h)).
  { rewrite back_loop_ok; [|done|].
    - rewrite Hfs, backward_forward; [done|done|].
      intros m Hm. destruct (Hok m Hm) as ([i Hi] & Hd & _). rewrite Hi. eauto.
    - intros [s d] Hm. destruct (Hok (s, d) Hm) as ([i Hi] & Hd & Hp). simpl in *.
      assert (Hex : forall m, m ∈ moves -> is_Some (fsA !! fst m)).
      { intros m' Hm'. destruct (Hok m' Hm') as ([k ->] & _). eauto. }
      destruct (forward_moved moves fsA s d Hnd Hm Hex) as [H1 H2].
      rewrite Hfs. repeat split; [exists i; congruence | done |].
      rewrite forward_other; [done|].
      unfold keys. rewrite elem_of_app, !list_elem_of_fmap.
      intros [([s' d'] & E & Hm')|([s' d'] & E & Hm')]; simpl in E;
        destruct (Hok (s', d') Hm') as ([k Hk] & Hd' & _); simpl in *; congruence. }
  rewrite (bind_Ret _ _ _ _ _ Hloop).
  destruct is_new; [|done].
  rewrite rmdir_if_empty_dir by (by apply Hnew).
  simpl. by destruct (children fsA target).
Qed.

Lemma changes_file_prefix (timestamp : string) :
  String.prefix "changes_" (changes_file timestamp) = true.
Proof.
  unfold changes_file. cbn. repeat (destruct (ascii_dec _ _); [|done]).
  by destruct (timestamp +:+ ".json").
Qed.

Lemma str_le_refl (s : string) : str_le s s.
Proof. by destruct (String.leb_total s s). Qed.

(** C7.  For every group_loose_files suggestion whose listed paths are
    regular files (or absent) with pairwise different names, none of them
    taken in the target folder, and that apply has applied successfully:
    undo afterwards leaves every listed path as it was before the apply
    (every moved file is back at its original path), leaves none of the
    files in the target folder, removes the target folder when it was
    newly created and is now empty, restores the whole tree when the
    target was an existing folder, and consumes the journal. *)
Theorem C7_group_loose_files_round_trip
  (self : organizer) (files : list file_record) (target : path) (is_new : bool)
  (w0 w1 : world) :
  let fs0 := h_fs (w_host w0) in
  let journal := changes_file (fst (tick (w_host w0))) in
  (forall f e, f ∈ files -> fs0 !! fr_path f = Some e ->
     (exists i, e = File i) /\ fs0 !! dirname (fr_path f) = Some Dir) ->
  NoDup (map (fun f => basename (fr_path f)) files) ->
  (forall f, f ∈ files -> fs0 !! join target (basename (fr_path f)) = None) ->
  (forall name, is_Some (w_logs w0 !! name) ->
                String.prefix "changes_" name = true -> str_le name journal) ->
  apply_changes self [group_loose_files files target is_new] w0 = (true, w1) ->
  let fs1 := h_fs (w_host w1) in
  let fs2 := h_fs (w_host (snd (undo_last_change self w1))) in
  (forall f i, f ∈ files -> fs0 !! fr_path f = Some (File i) ->
     fs1 !! fr_path f = None
     /\ fs1 !! join target (basename (fr_path f)) = Some (File i))
  /\ (forall f, f ∈ files -> fs2 !! fr_path f = fs0 !! fr_path f)
  /\ (forall f, f ∈ files -> fs2 !! join target (basename (fr_path f)) = None)
  /\ (is_new = true ->
      (forall name, fs2 !! join target name = None) -> fs2 !! target = None)
  /\ (is_new = false -> fs2 = fs0)
  /\ w_logs (snd (undo_last_change self w1)) !! journal = None.
Proof.
  intros fs0 journal Hfiles Hnames Hfree Hlatest Happly.
  unfold apply_changes in Happly.
  destruct (tick (w_host w0)) as [timestamp h] eqn:Htick.
  assert (Hh : h_fs h = fs0) by (by inversion Htick).
  assert (Hj : journal = changes_file timestamp) by done.
  clearbody journal fs0. subst journal.
  destruct (apply_loop self [group_loose_files files target is_new] h)
    as [[changes|e] h1] eqn:Hloop;
    [|destruct (log self (MsgErrorApplying e) h1); discriminate].
  destruct (scan_folder_structure self h1) as [[structure|e] h2] eqn:Hscan;
    [|destruct (log self (MsgErrorApplying e) h2); discriminate].
  inversion Happly; subst w1; clear Happly.
  apply scan_folder_structure_fs in Hscan.
  cbn [apply_loop] in Hloop.
  apply bind_inv_Ret in Hloop as (r & h1' & Hsug & Hret).
  inversion Hret; subst changes h1'; clear Hret.
  apply apply_group_ok in Hsug
    as (fsA & Hg & Hnew & Hold & HfileA & HdstA & Hfs1 & ->); [|done| |by rewrite Hh].
  2:{ intros f e Hf He. rewrite Hh in He. by destruct (Hfiles f e Hf He). }
  rewrite Hh in Hg, Hold.
  (* what the tree looks like after the target folder has been created *)
  assert (Hsrc : forall f, f ∈ files -> fsA !! fr_path f = fs0 !! fr_path f).
  { intros f Hf. destruct (fs0 !! fr_path f) as [e|] eqn:E0; [by apply (proj1 Hg)|].
    destruct (fsA !! fr_path f) as [e|] eqn:EA; [|done].
    destruct (HfileA f e Hf EA) as [i ->].
    destruct Hg as [_ Hg]. destruct (Hg _ E0) as [Hd _]; [by rewrite EA|]. congruence. }
  assert (Hkeys : NoDup (keys (planned_moves fsA files target)))
    by (by apply planned_keys_NoDup).
  assert (Hok : forall m, m ∈ planned_moves fsA files target ->
            (exists i, fsA !! fst m = Some (File i))
            /\ fsA !! snd m = None
            /\ fsA !! dirname (fst m) = Some Dir).
  { intros m (f & Hf & [e He] & ->)%elem_of_planned. simpl.
    destruct (HfileA f e Hf He) as [i ->]. repeat split; [eauto | by apply HdstA |].
    rewrite Hsrc in He by done. destruct (Hfiles f _ Hf He) as [_ Hp].
    by apply (proj1 Hg). }
  set (logs1 := <[changes_file timestamp := _]> (w_logs w0)).
  assert (Hundo :
    exists b snapshot h3,
      undo_last_change self {| w_host := h2; w_logs := logs1; w_snapshot := Some structure |}
      = (b, {| w_host := h3; w_logs := delete (changes_file timestamp) logs1;
               w_snapshot := snapshot |})
      /\ h_fs h3 = (if is_new
                    then match children fsA target with
                         | [] => delete target fsA
                         | _ :: _ => fsA
                         end
                    else fsA)).
  { unfold undo_last_change. cbn [w_logs w_host w_snapshot].
    rewrite (latest_log_greatest logs1 (changes_file timestamp)).
    - unfold logs1 at 1. rewrite lookup_insert_eq. cbn [cl_changes rev app for_each].
      erewrite bind_Ret; [|apply undo_group_ok; [by rewrite Hscan | done | done | done]].
      cbn [ret].
      rewrite scan_folder_structure_eq.
      destruct (_scan_directory _ _ _) as [st|e]; [|unfold undo_failed];
        do 3 eexists; (split; [reflexivity|]); rewrite ?log_fs; done.
    - unfold logs1. rewrite lookup_insert_eq. eauto.
    - apply changes_file_prefix.
    - intros name Hname Hp. unfold logs1 in Hname.
      rewrite lookup_insert in Hname. case_decide as E.
      + subst. apply str_le_refl.
      + by apply Hlatest. }
  destruct Hundo as (b & snapshot & h3 & -> & Hfs3).
  cbn [snd w_host w_logs]. rewrite Hfs3, Hscan, Hfs1.
  assert (Htarget : forall f, f ∈ files -> is_new = true -> fr_path f <> target).
  { intros f Hf Hn E. specialize (Hnew Hn). rewrite <- E in Hnew.
    destruct (HfileA f Dir Hf Hnew) as [i Hi]. discriminate. }
  split; [|split; [|split; [|split; [|split]]]].
  - intros f i Hf Hi.
    assert (Hm : (fr_path f, join target (basename (fr_path f)))
                 ∈ planned_moves fsA files target).
    { apply elem_of_planned. exists f. rewrite Hsrc, Hi by done. eauto. }
    assert (Hex : forall m, m ∈ planned_moves fsA files target -> is_Some (fsA !! fst m)).
    { intros m Hm'. destruct (Hok m Hm') as ([k ->] & _). eauto. }
    destruct (forward_moved _ fsA _ _ Hkeys Hm Hex) as [H1 H2].
    split; [done|]. by rewrite H2, Hsrc.
  - intros f Hf. destruct is_new; [|by apply Hsrc].
    destruct (children fsA target); [|by apply Hsrc].
    rewrite lookup_delete_ne by (intros E; by eapply Htarget). by apply Hsrc.
  - intros f Hf. destruct is_new; [|by apply HdstA].
    destruct (children fsA target); [|by apply HdstA].
    rewrite lookup_delete_ne; [by apply HdstA|].
    intros E. apply (not_prefix_join target (basename (fr_path f))). rewrite <- E. done.
  - intros -> Hempty. destruct (children fsA target) as [|[n e] cs] eqn:Hc.
    + apply lookup_delete_eq.
    + assert (Hin : (n, e) ∈ children fsA target) by (rewrite Hc; apply list_elem_of_here).
      apply elem_of_children in Hin. rewrite Hempty in Hin. discriminate.
  - intros ->. by apply Hold.
  - apply lookup_delete_eq.
Qed.

(** ** Relocation, merge and explode on concrete trees *)

(** C10.  The candidates for a new parent leave out the current parent
    and the folder itself only: in the tree root/abc/abcd the folder
    root/abc is told to move under its own subfolder root/abc/abcd. *)
Theorem C10_relocation_under_own_descendant :
  exists (fs : gmap path entry) (root : path) (structure : folder_node)
         (folder new_parent : path) (name : string) (below : path),
    _scan_directory recursion_limit fs root = Ret structure
    /\ relocate folder new_parent ∈ relocation_suggestions structure
    /\ new_parent = folder ++ name :: below.
Proof.
  exists Scenario.abc_tree, ["root"].
  eexists. exists ["root"; "abc"], ["root"; "abc"; "abcd"], "abcd", [].
  split; [vm_compute; reflexivity|].
  split; [|reflexivity].
  vm_compute. apply list_elem_of_here.
Qed.

(** C3.  Merging root/A (file a.txt) and root/B (file b.txt) into root/T
    and undoing it: both calls succeed and both folders exist again, but
    the first folder receives every file of the merged folder and the
    second one is left empty. *)
Theorem C3_merge_undo_loses_membership :
  let w0 := Scenario.world_of Scenario.two_folders in
  let r1 := apply_changes Scenario.self [Scenario.merge_A_B] w0 in
  let r2 := undo_last_change Scenario.self (snd r1) in
  fst r1 = true /\ fst r2 = true
  /\ h_fs (w_host w0) !! ["root"; "B"; "b.txt"] = Some (File 2)
  /\ h_fs (w_host (snd r1)) !! ["root"; "T"; "b.txt"] = Some (File 2)
  /\ h_fs (w_host (snd r2)) !! ["root"; "A"] = Some Dir
  /\ h_fs (w_host (snd r2)) !! ["root"; "B"] = Some Dir
  /\ h_fs (w_host (snd r2)) !! ["root"; "A"; "a.txt"] = Some (File 1)
  /\ h_fs (w_host (snd r2)) !! ["root"; "A"; "b.txt"] = Some (File 2)
  /\ h_fs (w_host (snd r2)) !! ["root"; "B"; "b.txt"] = None
  /\ children (h_fs (w_host (snd r2))) ["root"; "B"] = [].
Proof. cbv zeta. repeat (split; [by_vm|]). by_vm. Qed.

(** C6.  Exploding the tree root/f.txt, root/a/b/f.txt: the call
    succeeds and both files end up in the root, the second one renamed,
    but only the innermost directory root/a/b is deleted; root/a, listed
    before its subdirectory was removed, stays. *)
Theorem C6_explode_leaves_parent_directory :
  let r := explode_folder_structure Scenario.self (Scenario.world_of Scenario.nested) in
  fst r = true
  /\ h_fs (w_host (snd r))
     = list_to_map
         [([], Dir); (["root"], Dir); (["root"; "f.txt"], File 1);
          (["root"; "f_1.txt"], File 2); (["root"; "a"], Dir)]
  /\ w_logs (snd r) !! "explode_20240101_120000.json"
     = Some (json_explode
               {| el_timestamp := "20240101_120000"; el_root_path := ["root"];
                  el_moved_files := [(["root"; "a"; "b"; "f.txt"], ["root"; "f_1.txt"])];
                  el_deleted_dirs := [["root"; "a"; "b"]] |}).
Proof.
  cbv zeta. split; [by_vm|]. split; [by_decide | by_vm].
Qed.

(** ** Witnesses and counterexamples *)

Lemma C1_apply_stops_at_first_exception_witness :
  fst (apply_changes Scenario.self
         ([Scenario.relocate_B] ++ Scenario.stale_merge :: [Scenario.merge_A_B])
         (Scenario.world_of Scenario.two_folders)) = false.
Proof.
  erewrite (C1_apply_stops_at_first_exception Scenario.self [Scenario.relocate_B]);
    [reflexivity | by_vm | by_vm].
Defined.

(** C1, the claim as stated fails: with the stale merge first in the
    batch, apply returns false and the relocation after it is not applied
    (root/B is still in place; applied alone, it moves under root/A), and
    neither a status other than completed nor a journal is written. *)
Lemma C1_remaining_suggestions_skipped :
  let w0 := Scenario.world_of Scenario.two_folders in
  let r := apply_changes Scenario.self [Scenario.stale_merge; Scenario.relocate_B] w0 in
  let alone := apply_changes Scenario.self [Scenario.relocate_B] w0 in
  fst r = false
  /\ h_fs (w_host (snd r)) !! ["root"; "B"] = Some Dir
  /\ h_fs (w_host (snd r)) !! ["root"; "A"; "B"] = None
  /\ size (w_logs (snd r)) = 0
  /\ fst alone = true
  /\ h_fs (w_host (snd alone)) !! ["root"; "A"; "B"] = Some Dir.
Proof. cbv zeta. repeat (split; [by_vm|]). by_vm. Qed.

Lemma C2_journal_written_when_loop_completes_witness :
  let w0 := Scenario.world_of Scenario.two_folders in
  let r := apply_changes Scenario.self [Scenario.relocate_B] w0 in
  (fst r = true ->
   exists changes,
     w_logs (snd r)
     = <[changes_file (fst (tick (w_host w0))) :=
           json_changes {| cl_timestamp := fst (tick (w_host w0));
                           cl_root_path := root_path Scenario.self;
                           cl_changes := changes |}]> (w_logs w0)
     /\ map cr_suggestion changes = [Scenario.relocate_B]
     /\ Forall (fun c => cr_status c = "completed") changes)
  /\ (forall e h1,
        apply_loop Scenario.self [Scenario.relocate_B] (snd (tick (w_host w0))) = (Raise e, h1) ->
        fst r = false /\ w_logs (snd r) = w_logs w0).
Proof.
  cbv zeta.
  apply (C2_journal_written_when_loop_completes Scenario.self [Scenario.relocate_B]).
  apply surjective_pairing.
Defined.

(** C2, the claim as stated fails: the first suggestion of the batch is
    applied (root/B moves under root/A), the second raises, apply returns
    false and the journal directory stays empty. *)
Lemma C2_failed_apply_writes_no_journal :
  let w0 := Scenario.world_of Scenario.two_folders in
  let r := apply_changes Scenario.self [Scenario.relocate_B; Scenario.stale_merge] w0 in
  fst r = false
  /\ h_fs (w_host (snd r)) !! ["root"; "A"; "B"] = Some Dir
  /\ h_fs (w_host (snd r)) !! ["root"; "B"] = None
  /\ size (w_logs (snd r)) = 0.
Proof. cbv zeta. repeat (split; [by_vm|]). by_vm. Qed.

Lemma C4_undo_exception_keeps_journal_witness :
  fst (undo_last_change Scenario.self Scenario.merged_then_removed) = false
  /\ w_logs (snd (undo_last_change Scenario.self Scenario.merged_then_removed))
     = w_logs Scenario.merged_then_removed.
Proof.
  edestruct (C4_undo_exception_keeps_journal Scenario.self Scenario.merged_then_removed)
    as [E _]; [by_vm | by_vm | by_vm |].
  rewrite E. split; reflexivity.
Defined.

(** C4, the claim as stated fails: a moved file that has since been
    deleted from the target folder is skipped by the [os.path.exists]
    guard; undo returns true, deletes the journal, and the file is not
    restored. *)
Lemma C4_missing_file_is_skipped :
  let w := Scenario.grouped_then_deleted in
  let r := undo_last_change Scenario.self w in
  w_logs w !! "changes_20240101_120000.json"
  = Some (json_changes
            {| cl_timestamp := "20240101_120000"; cl_root_path := ["root"];
               cl_changes :=
                 [{| cr_suggestion := Scenario.group_text; cr_status := "completed";
                     cr_result :=
                       Some (res_moved_files ["root"; "Text_Files"] true
                               [(["root"; "x.txt"], ["root"; "Text_Files"; "x.txt"]);
                                (["root"; "y.txt"], ["root"; "Text_Files"; "y.txt"])]) |}] |})
  /\ h_fs (w_host w) !! ["root"; "Text_Files"; "x.txt"] = None
  /\ fst r = true
  /\ size (w_logs (snd r)) = 0
  /\ h_fs (w_host (snd r)) !! ["root"; "x.txt"] = None
  /\ h_fs (w_host (snd r)) !! ["root"; "y.txt"] = Some (File 2).
Proof. cbv zeta. repeat (split; [by_vm|]). by_vm. Qed.

Lemma C5_undo_replays_latest_changes_journal_witness :
  w_logs (snd (undo_last_change Scenario.self Scenario.applied_then_exploded))
  = delete "changes_20240101_120000.json" (w_logs Scenario.applied_then_exploded).
Proof.
  eapply proj1.
  eapply (C5_undo_replays_latest_changes_journal Scenario.self
            Scenario.applied_then_exploded "changes_20240101_120000.json").
  - by_vm.
  - by_vm.
  - intros f [c Hf] Hp. revert Hp.
    refine (map_Forall_lookup_1
              (fun f _ => String.prefix "changes_" f = true
                          -> str_le f "changes_20240101_120000.json") _ f c _ Hf).
    by_decide.
  - by_vm.
Defined.

(** C5, the claim as stated fails: after an apply batch and a later
    explode, the journal directory holds both journals; undo succeeds,
    consumes the older apply journal and leaves the explode journal, the
    most recently written one, in place. *)
Lemma C5_explode_journal_is_ignored :
  let w := Scenario.applied_then_exploded in
  let r := undo_last_change Scenario.self w in
  map fst (map_to_list (w_logs w))
  = ["changes_20240101_120000.json"; "explode_20240102_120000.json"]
  /\ fst r = true
  /\ map fst (map_to_list (w_logs (snd r))) = ["explode_20240102_120000.json"].
Proof. cbv zeta. repeat (split; [by_vm|]). by_vm. Qed.

Lemma C7_group_loose_files_round_trip_witness :
  let w0 := Scenario.world_of Scenario.loose in
  let w1 := snd (apply_changes Scenario.self [Scenario.group_text] w0) in
  let fs2 := h_fs (w_host (snd (undo_last_change Scenario.self w1))) in
  (forall f, f ∈ Scenario.text_files -> fs2 !! fr_path f = Scenario.loose !! fr_path f)
  /\ (forall f, f ∈ Scenario.text_files ->
        fs2 !! join ["root"; "Text_Files"] (basename (fr_path f)) = None).
Proof.
  cbv zeta.
  edestruct (C7_group_loose_files_round_trip Scenario.self Scenario.text_files
               ["root"; "Text_Files"] true (Scenario.world_of Scenario.loose))
    as (_ & H1 & H2 & _).
  - intros f e Hf. unfold Scenario.text_files in Hf.
    repeat (apply elem_of_cons in Hf as [->|Hf]); [| |by apply elem_of_nil in Hf];
      intros He; vm_compute in He; inversion He; (split; [eauto | by_vm]).
  - by_decide.
  - intros f Hf. unfold Scenario.text_files in Hf.
    repeat (apply elem_of_cons in Hf as [->|Hf]);
      [by_vm | by_vm | by apply elem_of_nil in Hf].
  - intros name [c Hc]. cbn in Hc. by rewrite lookup_empty in Hc.
  - transitivity (fst (apply_changes Scenario.self [Scenario.group_text]
                         (Scenario.world_of Scenario.loose)),
                  snd (apply_changes Scenario.self [Scenario.group_text]
                         (Scenario.world_of Scenario.loose))).
    + apply surjective_pairing.
    + apply (f_equal2 pair); [by_vm | reflexivity].
  - split; [exact H1 | exact H2].
Defined.

(** The same round trip, evaluated: the tree is as it was before the
    apply and the new folder is gone. *)
Example group_text_round_trip :
  let w0 := Scenario.world_of Scenario.loose in
  let r1 := apply_changes Scenario.self [Scenario.group_text] w0 in
  let r2 := undo_last_change Scenario.self (snd r1) in
  fst r1 = true /\ fst r2 = true
  /\ h_fs (w_host (snd r1)) !! ["root"; "Text_Files"; "x.txt"] = Some (File 1)
  /\ h_fs (w_host (snd r2)) = Scenario.loose.
Proof.
  cbv zeta. repeat (split; [by_vm|]). by_decide.
Qed.


(* ===================================================================== *)
(** * Further properties of the organizer *)
(* ===================================================================== *)

(** ** Relocation candidates *)

Lemma best_parent_spec (current_parent node : path) (node_name : string)
  (candidates : list path) (best_match : option path) (best_score : float) (p : path) :
  best_parent current_parent node node_name candidates best_match best_score = Some p ->
  best_match = Some p
  \/ (p ∈ candidates /\ p <> current_parent /\ p <> node).
Proof.
  revert best_match best_score.
  induction candidates as [|c candidates IH]; intros bm bs; cbn [best_parent].
  - by left.
  - destruct (bool_decide (c = current_parent) || bool_decide (c = node)) eqn:Hc.
    + intros [?|(? & ? & ?)]%IH; [by left | right].
      split; [by apply list_elem_of_further | done].
    + apply orb_false_iff in Hc as [Hc1%bool_decide_eq_false Hc2%bool_decide_eq_false].
      match goal with |- context [if ?b then _ else _] => destruct b end.
      * intros [[= <-]|(? & ? & ?)]%IH; right.
        -- split; [apply list_elem_of_here | done].
        -- split; [by apply list_elem_of_further | done].
      * intros [?|(? & ? & ?)]%IH; [by left | right].
        split; [by apply list_elem_of_further | done].
Qed.

(** X1.  For every graph, a relocation [_find_relocation_opportunities]
    proposes moves a node that has a parent to another node of the graph
    that is neither the node itself nor its current parent (its first
    predecessor). *)
Theorem relocation_target_is_new (graph : digraph) (node new_parent : path) :
  (node, new_parent) ∈ _find_relocation_opportunities graph ->
  node ∈ nodes graph /\ new_parent ∈ nodes graph
  /\ new_parent <> node
  /\ exists current_parent,
       head (predecessors graph node) = Some current_parent
       /\ new_parent <> current_parent.
Proof.
  unfold _find_relocation_opportunities. intros Hin.
  apply list_elem_of_omap in Hin as (n & Hn & Hsome).
  destruct (in_degree graph n =? 0)%nat; [done|].
  destruct (predecessors graph n) as [|current_parent preds] eqn:Hp; [done|].
  destruct (best_parent _ _ _ _ _ _) as [best|] eqn:Hbest; [|done].
  injection Hsome as <- <-.
  apply best_parent_spec in Hbest as [?|(? & ? & ?)]; [done|].
  split; [done|]. split; [done|]. split; [done|].
  exists current_parent. by rewrite Hp.
Qed.

Lemma relocation_target_is_new_witness :
  let graph :=
    {| nodes := [["root"]; ["root"; "abc"]; ["root"; "abc"; "abcd"]];
       edges := [(["root"], ["root"; "abc"]);
                 (["root"; "abc"], ["root"; "abc"; "abcd"])] |} in
  ["root"; "abc"] ∈ nodes graph /\ ["root"; "abc"; "abcd"] ∈ nodes graph
  /\ ["root"; "abc"; "abcd"] <> ["root"; "abc"]
  /\ exists current_parent,
       head (predecessors graph ["root"; "abc"]) = Some current_parent
       /\ ["root"; "abc"; "abcd"] <> current_parent.
Proof.
  cbv zeta. apply relocation_target_is_new.
  vm_compute. apply list_elem_of_here.
Defined.

(** ** Looking for an existing folder *)

Lemma extract_has_no_files (folder_info : folder_node) (folder : folder_dict) :
  folder ∈ _extract_all_folder_paths folder_info ->
  d_subdirectories folder = None /\ d_files folder = None.
Proof.
  revert folder_info folder.
  fix IH 1. intros [p n subs c fls] folder. cbn [_extract_all_folder_paths fn_path fn_name
    fn_subdirectories].
  intros [->|Hin]%elem_of_cons; [done|].
  induction subs as [|sub subs IHsubs]; cbn [flat_map] in Hin.
  - by apply elem_of_nil in Hin.
  - apply elem_of_app in Hin as [Hin|Hin]; [by apply (IH sub) | by apply IHsubs].
Qed.

Lemma find_none_ext {A} (g : A -> bool) (l : list A) :
  (forall x, x ∈ l -> g x = false) -> find g l = None.
Proof.
  induction l as [|x l IH]; [done|]. intros H. simpl.
  rewrite H by apply list_elem_of_here. apply IH. intros y Hy. apply H.
  by apply list_elem_of_further.
Qed.

(** X2.  For every snapshot and extension, the folder
    [_find_suitable_folder_for_files] returns is a folder of the snapshot
    other than its root whose name is one of the candidate names for the
    extension: the second search, by the extensions of the files a folder
    holds, never finds one, because the dictionaries it goes through
    carry no files. *)
Theorem suitable_folder_is_found_by_name (structure : folder_node)
  (extension : string) (files : list file_record) (target : path) :
  _find_suitable_folder_for_files structure extension files = Some target ->
  basename target ∈ possible_folder_names extension
  /\ target ∈ map d_path (tail (_extract_all_folder_paths structure)).
Proof.
  unfold _find_suitable_folder_for_files.
  destruct (find _ _) as [folder|] eqn:Hfind.
  - intros [= <-]. apply find_some in Hfind as [Hin Hname].
    apply bool_decide_eq_true in Hname. split; [done|].
    apply list_elem_of_fmap_2. by apply list_elem_of_In.
  - rewrite find_none_ext; [done|].
    intros folder Hin. apply bool_decide_eq_false.
    assert (Hin' : folder ∈ _extract_all_folder_paths structure).
    { destruct (_extract_all_folder_paths structure); [done|].
      by apply list_elem_of_further. }
    apply extract_has_no_files in Hin' as [Hs Hf].
    destruct folder as [p n s f]. simpl in Hs, Hf. subst.
    cbn. by intros ?%elem_of_nil.
Qed.

Lemma suitable_folder_is_found_by_name_witness :
  let structure :=
    {| fn_path := ["root"]; fn_name := "root";
       fn_subdirectories :=
         [{| fn_path := ["root"; "stuff"]; fn_name := "stuff"; fn_subdirectories := [];
             fn_file_count := 1;
             fn_files := [file_record_of ["root"; "stuff"] "old.txt"] |};
          Scenario.leaf ["root"; "Notes"]];
       fn_file_count := 0; fn_files := [] |} in
  basename ["root"; "Notes"] ∈ possible_folder_names ".txt"
  /\ ["root"; "Notes"] ∈ map d_path (tail (_extract_all_folder_paths structure)).
Proof.
  cbv zeta. apply (suitable_folder_is_found_by_name _ ".txt" []). reflexivity.
Defined.

(** ** Naming patterns *)

Lemma capitalization_pattern_raises (name : string) (e : exn) :
  capitalization_pattern name = Raise e -> e = IndexError.
Proof.
  unfold capitalization_pattern.
  repeat match goal with
         | |- context [if ?b then _ else _] => destruct b
         | |- context [match ?s with EmptyString => _ | String _ _ => _ end] => destruct s
         end; congruence.
Qed.

Lemma naming_loop_empty_name (all_folders : list folder_dict)
  (patterns : list (string * list folder_dict)) :
  (exists folder, folder ∈ all_folders /\ basename (d_path folder) = "") ->
  naming_loop all_folders patterns = Raise IndexError.
Proof.
  intros (folder & Hin & Hname). revert patterns.
  induction all_folders as [|f rest IH]; intros patterns; [by apply elem_of_nil in Hin|].
  cbn [naming_loop].
  destruct (capitalization_pattern (basename (d_path f))) as [c|e] eqn:Hc.
  - apply elem_of_cons in Hin as [<-|Hin]; [|by apply IH].
    by rewrite Hname in Hc.
  - by apply capitalization_pattern_raises in Hc as ->.
Qed.

(** X3.  For every snapshot in which some folder has the empty name, as the
    root directory [/] has, [_find_inconsistent_naming] raises
    [IndexError]: the first character of the name is asked for. *)
Theorem inconsistent_naming_empty_name (folder_info : folder_node) :
  (exists folder, folder ∈ _extract_all_folder_paths folder_info
                  /\ basename (d_path folder) = "") ->
  _find_inconsistent_naming folder_info = Raise IndexError.
Proof.
  intros H. unfold _find_inconsistent_naming. by rewrite naming_loop_empty_name.
Qed.

Lemma inconsistent_naming_empty_name_witness :
  _find_inconsistent_naming
    {| fn_path := []; fn_name := ""; fn_subdirectories := [Scenario.leaf ["home"]];
       fn_file_count := 0; fn_files := [] |} = Raise IndexError.
Proof.
  apply inconsistent_naming_empty_name. eexists. split; [apply list_elem_of_here|done].
Defined.

(** ** Groups of similar folders *)

Lemma enumerate_lookup {A} (l : list A) (i : nat) (x : A) :
  (i, x) ∈ Py.enumerate l <-> l !! i = Some x.
Proof.
  unfold Py.enumerate.
  assert (H : forall start, (i, x) ∈ combine (seq start (List.length l)) l
                            <-> start <= i /\ l !! (i - start) = Some x).
  { induction l as [|y l IH]; intros start; simpl.
    - split; [by intros ?%elem_of_nil | by intros [_ ?]].
    - rewrite elem_of_cons, IH. split.
      + intros [[= -> ->]|[Hle Hl]].
        * split; [lia|]. by rewrite Nat.sub_diag.
        * split; [lia|]. by replace (i - start) with (S (i - S start)) by lia.
      + intros [Hle Hl]. destruct (decide (i = start)) as [->|Hne].
        * rewrite Nat.sub_diag in Hl. left. simpl in Hl. congruence.
        * right. split; [lia|].
          by replace (i - start) with (S (i - S start)) in Hl by lia. }
  rewrite H, Nat.sub_0_r. split; [by intros [_ ?] | intros; split; [lia | done]].
Qed.

Lemma NoDup_fmap_lookup {A B} (f : A -> B) (l : list A) (i j : nat) (x y : A) :
  NoDup (map f l) -> l !! i = Some x -> l !! j = Some y -> f x = f y -> i = j.
Proof.
  intros Hnd Hi Hj Heq.
  eapply NoDup_lookup; [exact Hnd| |].
  - change (map f l) with (f <$> l). by rewrite list_lookup_fmap, Hi.
  - change (map f l) with (f <$> l). rewrite list_lookup_fmap, Hj. simpl. by rewrite Heq.
Qed.

Lemma enumerate_paths (folders : list folder_dict) :
  map (fun jf : nat * folder_dict => d_path (snd jf)) (Py.enumerate folders)
  = map d_path folders.
Proof.
  unfold Py.enumerate. generalize 0. induction folders as [|f l IH]; intros start; [done|].
  simpl. f_equal. apply IH.
Qed.

Section similar.
Variable similarity_threshold : float.
Variable folders : list folder_dict.
Hypothesis distinct : NoDup (map d_path folders).

Lemma similar_to_spec (i : nat) (folder1 : folder_dict) (processed : gset path)
  (some : list (nat * folder_dict)) (folder2 : folder_dict) :
  folder2 ∈ similar_to similarity_threshold i folder1 processed some ->
  (d_path folder2 ∉ processed) /\ (exists j, j <> i /\ (j, folder2) ∈ some).
Proof.
  induction some as [|[j f] some IH]; cbn [similar_to]; [by intros ?%elem_of_nil|].
  destruct (Nat.eqb_spec i j) as [->|Hne]; cbn [orb].
  - intros (? & k & ? & ?)%IH. split; [done|]. exists k. split; [done|].
    by apply list_elem_of_further.
  - case_bool_decide as Hp.
    + intros (? & k & ? & ?)%IH. split; [done|]. exists k. split; [done|].
      by apply list_elem_of_further.
    + destruct (PrimFloat.leb _ _).
      * intros [->|(? & k & ? & ?)%IH]%elem_of_cons.
        -- split; [done|]. exists j. split; [done|]. apply list_elem_of_here.
        -- split; [done|]. exists k. split; [done|]. by apply list_elem_of_further.
      * intros (? & k & ? & ?)%IH. split; [done|]. exists k. split; [done|].
        by apply list_elem_of_further.
Qed.

Lemma similar_to_NoDup (i : nat) (folder1 : folder_dict) (processed : gset path)
  (some : list (nat * folder_dict)) :
  NoDup (map (fun jf => d_path (snd jf)) some) ->
  NoDup (map d_path (similar_to similarity_threshold i folder1 processed some)).
Proof.
  induction some as [|[j f] some IH]; cbn [similar_to map]; [constructor|].
  intros [Hf Hnd]%NoDup_cons. specialize (IH Hnd).
  destruct (_ || _); [done|]. destruct (PrimFloat.leb _ _); [|done].
  cbn [map]. apply NoDup_cons. split; [|done].
  intros (f2 & Heq & Hin)%list_elem_of_fmap.
  apply similar_to_spec in Hin as (_ & k & _ & Hin).
  apply Hf. apply list_elem_of_fmap. exists (k, f2). by split.
Qed.

Lemma current_group_NoDup (i : nat) (folder1 : folder_dict) (processed : gset path) :
  (i, folder1) ∈ Py.enumerate folders ->
  NoDup (map d_path
           (folder1 :: similar_to similarity_threshold i folder1 processed
                         (Py.enumerate folders))).
Proof.
  intros Hi. cbn [map]. apply NoDup_cons. split.
  - intros (f2 & Heq & Hin)%list_elem_of_fmap.
    apply similar_to_spec in Hin as (_ & j & Hne & Hj).
    apply enumerate_lookup in Hi, Hj.
    apply Hne. symmetry. by eapply (NoDup_fmap_lookup d_path folders).
  - apply similar_to_NoDup. by rewrite enumerate_paths.
Qed.

Lemma similar_groups_from_spec (todo : list (nat * folder_dict)) (processed : gset path) :
  (forall x, x ∈ todo -> x ∈ Py.enumerate folders) ->
  let groups :=
    similar_groups_from similarity_threshold (Py.enumerate folders) todo processed in
  Forall (fun group => 2 <= List.length group) groups
  /\ NoDup (map d_path (List.concat groups))
  /\ forall p, p ∈ map d_path (List.concat groups) -> p ∉ processed.
Proof.
  cbv zeta. revert processed.
  induction todo as [|[i folder1] todo IH]; intros processed Hsub;
    cbn [similar_groups_from].
  - split; [constructor|]. split; [constructor|]. by intros p ?%elem_of_nil.
  - assert (Hsub' : forall x, x ∈ todo -> x ∈ Py.enumerate folders)
      by (intros x Hx; apply Hsub; by apply list_elem_of_further).
    case_bool_decide as Hp; [by apply IH|].
    set (current_group := folder1 :: similar_to _ _ _ _ _).
    destruct (Nat.ltb_spec 1 (List.length current_group)) as [Hlen|Hlen]; [|by apply IH].
    destruct (IH (processed ∪ list_to_set (map d_path current_group)) Hsub')
      as (Hsize & Hnd & Hout).
    assert (Hcur : forall p, p ∈ map d_path current_group -> p ∉ processed).
    { intros p [->|(f2 & -> & Hin)%list_elem_of_fmap]%elem_of_cons; [done|].
      by apply similar_to_spec in Hin as [? _]. }
    split; [constructor; [lia | done]|]. cbn [List.concat]. rewrite map_app. split.
    + apply NoDup_app. split; [|split; [|done]].
      * apply current_group_NoDup, Hsub, list_elem_of_here.
      * intros p Hp1 Hp2. apply Hout in Hp2. set_solver.
    + intros p [Hp1|Hp2]%elem_of_app; [by apply Hcur|].
      apply Hout in Hp2. set_solver.
Qed.
End similar.

(** X4.  For every snapshot whose folders have pairwise different paths and
    every threshold, the groups [_find_similar_folders] returns hold at
    least two folders each, and no folder is in two groups or twice in
    one. *)
Theorem similar_groups_are_disjoint (folder_info : folder_node)
  (similarity_threshold : float) :
  NoDup (map d_path (_extract_all_folder_paths folder_info)) ->
  let groups := _find_similar_folders folder_info similarity_threshold in
  Forall (fun group => 2 <= List.length group) groups
  /\ NoDup (map d_path (List.concat groups)).
Proof.
  intros Hnd. cbv zeta. unfold _find_similar_folders.
  destruct (similar_groups_from_spec similarity_threshold _ Hnd
              (Py.enumerate (_extract_all_folder_paths folder_info)) ∅) as (? & ? & _); done.
Qed.

Lemma similar_groups_are_disjoint_witness :
  let folder_info :=
    {| fn_path := ["root"]; fn_name := "root";
       fn_subdirectories :=
         [Scenario.leaf ["root"; "photos1"]; Scenario.leaf ["root"; "music"];
          Scenario.leaf ["root"; "photos2"]];
       fn_file_count := 0; fn_files := [] |} in
  let groups := _find_similar_folders folder_info default_similarity_threshold in
  Forall (fun group => 2 <= List.length group) groups
  /\ NoDup (map d_path (List.concat groups)).
Proof.
  cbv zeta. apply similar_groups_are_disjoint.
  apply (bool_decide_unpack _). vm_compute. exact I.
Defined.

(** ** The name of a merged folder *)

Lemma prefix_refl (s : string) : String.prefix s s = true.
Proof. induction s as [|c s IH]; simpl; [done|]. by destruct (ascii_dec c c). Qed.

Lemma prefix_trans (s t u : string) :
  String.prefix s t = true -> String.prefix t u = true -> String.prefix s u = true.
Proof.
  revert t u. induction s as [|c s IH]; intros t u; [by destruct u|].
  destruct t as [|d t]; simpl; [done|]. destruct u as [|e u]; simpl; [by intros _ ?|].
  destruct (ascii_dec c d) as [->|]; [|done].
  destruct (ascii_dec d e) as [->|]; [|done]. apply IH.
Qed.

Lemma common_prefix2_l (s t : string) : String.prefix (Py.common_prefix2 s t) s = true.
Proof.
  revert t. induction s as [|c s IH]; intros [|d t]; simpl; try done.
  destruct (Ascii.eqb c d); [|done]. simpl. destruct (ascii_dec c c); [apply IH|done].
Qed.

Lemma common_prefix2_r (s t : string) : String.prefix (Py.common_prefix2 s t) t = true.
Proof.
  revert t. induction s as [|c s IH]; intros [|d t]; simpl; try done.
  destruct (Ascii.eqb_spec c d) as [->|]; [|done]. simpl.
  destruct (ascii_dec d d); [apply IH|done].
Qed.

Lemma commonprefix_is_prefix (m : list string) (n : string) :
  n ∈ m -> String.prefix (Py.commonprefix m) n = true.
Proof.
  unfold Py.commonprefix. destruct m as [|s m]; [by intros ?%elem_of_nil|].
  assert (H : forall acc, String.prefix (fold_left Py.common_prefix2 m acc) acc = true
                          /\ forall x, x ∈ m ->
                               String.prefix (fold_left Py.common_prefix2 m acc) x = true).
  { induction m as [|t m IH]; intros acc; simpl.
    - split; [apply prefix_refl | by intros x ?%elem_of_nil].
    - destruct (IH (Py.common_prefix2 acc t)) as [H1 H2]. split.
      + eapply prefix_trans; [exact H1 | apply common_prefix2_l].
      + intros x [->|Hx]%elem_of_cons; [|by apply H2].
        eapply prefix_trans; [exact H1 | apply common_prefix2_r]. }
  destruct (H s) as [H1 H2]. intros [->|Hn]%elem_of_cons; auto.
Qed.

Lemma rstrip_prefix (chars : ascii -> bool) (s : string) :
  String.prefix (Py.rstrip chars s) s = true.
Proof.
  induction s as [|c s IH]; [done|]. cbn [Py.rstrip].
  destruct (Py.rstrip chars s) as [|d r] eqn:Hr.
  - destruct (chars c); [done|]. simpl. by destruct (ascii_dec c c).
  - change (String.prefix (String c (String d r)) (String c s) = true).
    cbn [String.prefix]. by destruct (ascii_dec c c).
Qed.

Lemma min_by_len_least (first : string) (rest : list string) (n : string) :
  n ∈ first :: rest ->
  String.length (Py.min_by_len first rest) <= String.length n.
Proof.
  unfold Py.min_by_len.
  assert (H : forall best,
             String.length (fold_left
               (fun best s => if (String.length s <? String.length best)%nat
                              then s else best) rest best) <= String.length best
             /\ forall x, x ∈ rest ->
                  String.length (fold_left
                    (fun best s => if (String.length s <? String.length best)%nat
                                   then s else best) rest best) <= String.length x).
  { induction rest as [|t rest IH]; intros best; simpl.
    - split; [lia | by intros x ?%elem_of_nil].
    - destruct (IH (if (String.length t <? String.length best)%nat then t else best))
        as [H1 H2].
      destruct (Nat.ltb_spec (String.length t) (String.length best)).
      + split; [lia|]. intros x [->|Hx]%elem_of_cons; [lia | by apply H2].
      + split; [lia|]. intros x [->|Hx]%elem_of_cons; [lia | by apply H2]. }
  destruct (H first) as [H1 H2]. intros [->|Hn]%elem_of_cons; auto.
Qed.

Lemma min_by_len_elem (first : string) (rest : list string) :
  Py.min_by_len first rest ∈ first :: rest.
Proof.
  unfold Py.min_by_len. revert first. induction rest as [|s rest IH]; intros first; simpl.
  - apply list_elem_of_here.
  - specialize (IH (if (String.length s <? String.length first)%nat then s else first)).
    apply elem_of_cons in IH as [->|IH].
    + destruct (_ <? _)%nat; set_solver.
    + set_solver.
Qed.

(** X5.  For every group of folders, the name [_suggest_common_name] returns
    is either a prefix common to all the folder names followed by
    [_combined], or one of the folder names, of least length: in that
    case the merged folder takes the place of one of the folders that are
    merged. *)
Theorem common_name_is_prefix_or_member (folder_group : list folder_dict) (name : string) :
  _suggest_common_name folder_group = Some name ->
  let names := map (fun f => basename (d_path f)) folder_group in
  (exists p, name = p +:+ "_combined"
             /\ forall n, n ∈ names -> String.prefix p n = true)
  \/ (name ∈ names /\ forall n, n ∈ names -> String.length name <= String.length n).
Proof.
  unfold _suggest_common_name. cbv zeta.
  set (names := map _ folder_group).
  destruct (3 <? _)%nat.
  - intros [= <-]. left. eexists. split; [done|]. intros n Hn.
    eapply prefix_trans; [apply rstrip_prefix | by apply commonprefix_is_prefix].
  - destruct names as [|first rest]; [done|]. intros [= <-]. right. split.
    + apply min_by_len_elem.
    + apply min_by_len_least.
Qed.

Lemma common_name_is_prefix_or_member_witness :
  let folder_group :=
    [{| d_path := ["root"; "1abcd"]; d_name := "1abcd";
        d_subdirectories := None; d_files := None |};
     {| d_path := ["root"; "2abcd"]; d_name := "2abcd";
        d_subdirectories := None; d_files := None |}] in
  let names := map (fun f => basename (d_path f)) folder_group in
  (exists p, "1abcd" = p +:+ "_combined"
             /\ forall n, n ∈ names -> String.prefix p n = true)
  \/ ("1abcd" ∈ names
      /\ forall n, n ∈ names -> String.length "1abcd" <= String.length n).
Proof.
  cbv zeta. apply common_name_is_prefix_or_member. reflexivity.
Defined.

(** ** Replacing in strings *)








(** ** Consistent names *)


Lemma dict_set_elem {K V} `{EqDecision K} (key k : K) (value v : V) (d : list (K * V)) :
  (k, v) ∈ Py.dict_set key value d -> (k, v) = (key, value) \/ (k, v) ∈ d.
Proof.
  induction d as [|[k' v'] d IH]; cbn [Py.dict_set].
  - intros [?|?%elem_of_nil]%elem_of_cons; [by left | done].
  - case_bool_decide as Hk.
    + subst k'. intros [?|?]%elem_of_cons; [by left | right; by apply list_elem_of_further].
    + intros [Heq|Hin]%elem_of_cons.
      * right. rewrite Heq. apply list_elem_of_here.
      * apply IH in Hin as [?|?]; [by left | right; by apply list_elem_of_further].
Qed.

Lemma consistent_names_loop_spec (pattern : string) (folders : list folder_dict)
  (names0 names : list (path * string)) (P : path -> string -> Prop) :
  (forall folder new_name,
     folder ∈ folders ->
     consistent_name pattern (basename (d_path folder)) = Ret new_name ->
     new_name <> basename (d_path folder) -> P (d_path folder) new_name) ->
  (forall p v, (p, v) ∈ names0 -> P p v) ->
  consistent_names_loop pattern folders names0 = Ret names ->
  forall p v, (p, v) ∈ names -> P p v.
Proof.
  revert names0. induction folders as [|folder rest IH]; intros names0 Hstep H0;
    cbn [consistent_names_loop].
  - by intros [= <-].
  - destruct (consistent_name _ _) as [new_name|e] eqn:Hn; [|done].
    apply IH.
    + intros f v Hf. apply Hstep. by apply list_elem_of_further.
    + intros p v. destruct (String.eqb_spec new_name (basename (d_path folder))); [by auto|].
      intros [[= -> ->]|?]%dict_set_elem; [|by auto].
      apply Hstep; [apply list_elem_of_here | done | done].
Qed.



(** ** Zero padding *)

Lemma without_app (z : ascii) (s t : string) :
  Py.without z (s +:+ t) = Py.without z s +:+ Py.without z t.
Proof.
  induction s as [|c s IH]; [done|].
  change (String c s +:+ t) with (String c (s +:+ t)). cbn [Py.without].
  rewrite IH. by destruct (Ascii.eqb c z).
Qed.

Lemma prefix_str_drop (old s : string) :
  String.prefix old s = true -> s = old +:+ Py.str_drop (String.length old) s.
Proof.
  revert s. induction old as [|c old IH]; intros s; [done|].
  destruct s as [|d s]; simpl; [done|].
  destruct (ascii_dec c d) as [->|]; [|done]. intros H%IH.
  change (String d s = String d (old +:+ Py.str_drop (String.length old) s)). by f_equal.
Qed.

Lemma without_replace_from (z : ascii) (old new s : string) (skip : nat) :
  old <> "" -> Py.without z new = Py.without z old ->
  Py.without z (Py.replace_from old new s skip) = Py.without z (Py.str_drop skip s).
Proof.
  intros Hold Heq. revert skip. induction s as [|c s IH]; intros skip.
  - by destruct skip.
  - cbn [Py.replace_from]. destruct skip as [|skip]; [|apply IH].
    destruct (String.prefix old (String c s)) eqn:Hp.
    + rewrite without_app, IH, Heq, <- without_app.
      change (Py.str_drop 0 (String c s)) with (String c s).
      symmetry. etransitivity; [apply f_equal, (prefix_str_drop _ _ Hp)|].
      destruct old as [|o old]; [done|].
      cbn [String.length Nat.sub Py.str_drop]. by rewrite Nat.sub_0_r.
    + cbn [Py.without Py.str_drop]. by rewrite IH.
Qed.

Lemma padding_table :
  Forall (fun i => Py.without "0" (Py.format_02d i) = Py.without "0" (Py.str_N i)
                   /\ Py.str_N i <> "") range_1_100.
Proof. apply (bool_decide_unpack _). vm_compute. exact I. Qed.

Lemma pad_loop_without_zeros (range : list N) (name : string) :
  Forall (fun i => Py.without "0" (Py.format_02d i) = Py.without "0" (Py.str_N i)
                   /\ Py.str_N i <> "") range ->
  Py.without "0"
    (fold_left
       (fun new_name i =>
          if Py.is_substring (Py.str_N i) new_name
             && negb (Py.is_substring (Py.format_02d i) new_name)
          then Py.replace (Py.str_N i) (Py.format_02d i) new_name
          else new_name)
       range name)
  = Py.without "0" name.
Proof.
  intros Htable. revert name.
  induction Htable as [|i range [Hi Hne] _ IH]; intros name; cbn [fold_left]; [done|].
  rewrite IH. destruct (_ && _); [|done].
  unfold Py.replace. by rewrite without_replace_from.
Qed.

Lemma pad_numbers_without_zeros (name : string) :
  Py.without "0" (pad_numbers name) = Py.without "0" name.
Proof. apply pad_loop_without_zeros, padding_table. Qed.

(** X7.  For every list of folders, a name [_suggest_consistent_names]
    proposes for the zero-padded numbering pattern differs from the
    folder's current name by inserted zeros only: without the zeros both
    read the same. *)
Theorem padded_names_only_gain_zeros (folders : list folder_dict)
  (names : list (path * string)) (p : path) (new_name : string) :
  _suggest_consistent_names folders "numbered_sequence_padded" = Ret names ->
  (p, new_name) ∈ names ->
  Py.without "0" new_name = Py.without "0" (basename p).
Proof.
  intros Hrun. revert p new_name.
  eapply (consistent_names_loop_spec _ folders []); [| |exact Hrun].
  - intros folder v _ Hv _.
    change (Ret (pad_numbers (basename (d_path folder))) = Ret v) in Hv.
    injection Hv as <-. apply pad_numbers_without_zeros.
  - by intros p v ?%elem_of_nil.
Qed.

Lemma padded_names_only_gain_zeros_witness :
  Py.without "0" "week0102" = Py.without "0" (basename ["root"; "week12"]).
Proof.
  apply (padded_names_only_gain_zeros
           [{| d_path := ["root"; "week12"]; d_name := "week12";
               d_subdirectories := None; d_files := None |}]
           [(["root"; "week12"], "week0102")]);
    [by vm_compute | apply list_elem_of_here].
Defined.

(** ** Loose files *)

Lemma dd_append_elem {K V} `{EqDecision K} (key k : K) (x : V) (v : list V)
  (d : list (K * list V)) :
  (k, v) ∈ Py.dd_append key x d ->
  (k, v) ∈ d
  \/ (k = key /\ exists v0, v = v0 ++ [x] /\ (v0 = [] \/ (k, v0) ∈ d)).
Proof.
  induction d as [|[k' v'] d IH]; cbn [Py.dd_append].
  - intros [[= -> ->]|?%elem_of_nil]%elem_of_cons; [|done].
    right. split; [done|]. exists []. split; [done|]. by left.
  - case_bool_decide as Hk.
    + subst k'. intros [[= -> ->]|Hin]%elem_of_cons.
      * right. split; [done|]. exists v'. split; [done|]. right. apply list_elem_of_here.
      * left. by apply list_elem_of_further.
    + intros [Heq|Hin]%elem_of_cons.
      * left. rewrite Heq. apply list_elem_of_here.
      * apply IH in Hin as [?|(-> & v0 & -> & [->|?])].
        -- left. by apply list_elem_of_further.
        -- right. split; [done|]. exists []. split; [done|]. by left.
        -- right. split; [done|]. exists v0. split; [done|]. right.
           by apply list_elem_of_further.
Qed.

Lemma extension_groups_spec (root_files : list file_record)
  (groups : list (string * list file_record)) (ext : string) (files : list file_record) :
  (forall k v f, (k, v) ∈ groups -> f ∈ v -> fr_extension f = k) ->
  (ext, files)
    ∈ fold_left (fun groups file_info =>
                   Py.dd_append (fr_extension file_info) file_info groups)
                root_files groups ->
  forall f, f ∈ files ->
    fr_extension f = ext /\ (f ∈ root_files \/ exists v, (ext, v) ∈ groups /\ f ∈ v).
Proof.
  revert groups. induction root_files as [|g root_files IH]; intros groups Hg; cbn [fold_left].
  - intros Hin f Hf. split; [by eapply Hg|]. right. by exists files.
  - intros Hin f Hf.
    assert (Hg' : forall k v f, (k, v) ∈ Py.dd_append (fr_extension g) g groups ->
                                f ∈ v -> fr_extension f = k).
    { intros k v f' [?|(-> & v0 & -> & Hv0)]%dd_append_elem Hf'; [by eapply Hg|].
      apply elem_of_app in Hf' as [Hf'|Hf'].
      - destruct Hv0 as [->|Hv0]; [by apply elem_of_nil in Hf' | by eapply Hg].
      - apply list_elem_of_singleton in Hf'. by subst. }
    destruct (IH _ Hg' Hin f Hf) as [Hext [Hroot|(v & Hv & Hfv)]].
    + split; [done|]. left. by apply list_elem_of_further.
    + split; [done|].
      apply dd_append_elem in Hv as [?|(_ & v0 & -> & Hv0)]; [right; by exists v|].
      apply elem_of_app in Hfv as [Hfv|Hfv].
      * destruct Hv0 as [->|Hv0]; [by apply elem_of_nil in Hfv|]. right. by exists v0.
      * apply list_elem_of_singleton in Hfv. subst. left. apply list_elem_of_here.
Qed.

Lemma suitable_folder_in_snapshot (structure : folder_node) (extension : string)
  (files : list file_record) (target : path) :
  _find_suitable_folder_for_files structure extension files = Some target ->
  target ∈ map d_path (tail (_extract_all_folder_paths structure)).
Proof.
  unfold _find_suitable_folder_for_files. cbv zeta.
  repeat match goal with
         | |- match find ?f ?l with _ => _ end = _ -> _ =>
             let Hfind := fresh "Hfind" in
             destruct (find f l) as [folder|] eqn:Hfind;
             [intros [= <-]; apply find_some in Hfind as [Hin _];
              apply list_elem_of_fmap_2; by apply list_elem_of_In|]
         end.
  done.
Qed.

(** X8.  For every snapshot, each suggestion of [_find_loose_files_to_group]
    groups files that lie directly in the root, and is made only when the
    root holds at least five files.  It is either a group of at least
    three files sharing one non-empty extension, or the group of at least
    five remaining files, sent to a new folder [Miscellaneous_Files].  The
    target is a new folder directly under the root or an existing folder
    of the snapshot other than the root. *)
Theorem loose_file_suggestions (self : organizer) (structure : folder_node)
  (s : suggestion) :
  s ∈ _find_loose_files_to_group self (Some structure) ->
  5 <= List.length (fn_files structure)
  /\ exists files target is_new,
       s = group_loose_files files target is_new
       /\ (forall f, f ∈ files -> f ∈ fn_files structure)
       /\ ((3 <= List.length files
            /\ exists ext, ext <> "" /\ forall f, f ∈ files -> fr_extension f = ext)
           \/ (5 <= List.length files
               /\ target = join (root_path self) "Miscellaneous_Files"
               /\ is_new = true))
       /\ (if is_new then dirname target = root_path self
           else target ∈ map d_path (tail (_extract_all_folder_paths structure))).
Proof.
  unfold _find_loose_files_to_group.
  destruct (Nat.ltb_spec (List.length (fn_files structure)) 5) as [|Hfive];
    [by intros ?%elem_of_nil|].
  set (groups := fold_left _ (fn_files structure) []).
  set (significant := filter _ groups).
  set (misc := filter _ (fn_files structure)).
  intros Hs. split; [done|].
  assert (Hmisc : s = group_loose_files misc (join (root_path self) "Miscellaneous_Files") true
                  -> 5 <= List.length misc ->
                  exists files target is_new,
                    s = group_loose_files files target is_new
                    /\ (forall f, f ∈ files -> f ∈ fn_files structure)
                    /\ ((3 <= List.length files
                         /\ exists ext, ext <> ""
                                        /\ forall f, f ∈ files -> fr_extension f = ext)
                        \/ (5 <= List.length files
                            /\ target = join (root_path self) "Miscellaneous_Files"
                            /\ is_new = true))
                    /\ (if is_new then dirname target = root_path self
                        else target ∈ map d_path
                                        (tail (_extract_all_folder_paths structure)))).
  { intros -> Hlen. eexists _, _, _. split; [done|]. split.
    - intros f Hf. unfold misc in Hf. by apply list_elem_of_filter in Hf as [_ ?].
    - split; [right; by split|]. apply dirname_join. }
  assert (Hsig : s ∈ map (fun kv : string * list file_record =>
                            match _find_suitable_folder_for_files structure kv.1 kv.2 with
                            | Some target_folder =>
                                group_loose_files kv.2 target_folder false
                            | None =>
                                group_loose_files kv.2
                                  (join (root_path self)
                                     (_suggest_folder_name_for_extension kv.1 kv.2)) true
                            end) significant
                 \/ (s = group_loose_files misc
                           (join (root_path self) "Miscellaneous_Files") true
                     /\ 5 <= List.length misc)).
  { destruct (Nat.leb_spec 5 (List.length misc)) as [Hlen|Hlen]; [|by left].
    apply elem_of_app in Hs as [Hs|Hs]; [by left|].
    apply list_elem_of_singleton in Hs. right. by split. }
  destruct Hsig as [Hsig|[Heq Hlen]]; [|by apply Hmisc].
  apply list_elem_of_fmap in Hsig as ([ext files] & -> & Hin).
  apply list_elem_of_filter in Hin as [[Hlen Hext] Hin]. cbn [fst snd] in *.
  pose proof (extension_groups_spec (fn_files structure) [] ext files) as Hspec.
  assert (Hfiles : forall f, f ∈ files -> fr_extension f = ext /\ f ∈ fn_files structure).
  { intros f Hf. destruct (Hspec) with (f := f) as [? [?|(v & Hv & _)]]; try done.
    - by intros k v f' ?%elem_of_nil.
    - by apply elem_of_nil in Hv. }
  destruct (_find_suitable_folder_for_files structure ext files) as [target|] eqn:Ht.
  - eexists _, _, _. split; [done|]. split; [intros f Hf; by apply Hfiles|].
    split.
    + left. split; [done|]. exists ext. split; [done|]. intros f Hf. by apply Hfiles.
    + by apply suitable_folder_in_snapshot in Ht.
  - eexists _, _, _. split; [done|]. split; [intros f Hf; by apply Hfiles|].
    split.
    + left. split; [done|]. exists ext. split; [done|]. intros f Hf. by apply Hfiles.
    + apply dirname_join.
Qed.

Lemma loose_file_suggestions_witness :
  let files :=
    [file_record_of ["root"] "a.txt"; file_record_of ["root"] "b.txt";
     file_record_of ["root"] "c.txt"] in
  let structure :=
    {| fn_path := ["root"]; fn_name := "root"; fn_subdirectories := [];
       fn_file_count := 5;
       fn_files := files ++ [file_record_of ["root"] "d.png";
                             file_record_of ["root"] "README"] |} in
  5 <= List.length (fn_files structure)
  /\ exists files' target is_new,
       group_loose_files files ["root"; "Text_Files"] true
       = group_loose_files files' target is_new
       /\ (forall f, f ∈ files' -> f ∈ fn_files structure)
       /\ ((3 <= List.length files'
            /\ exists ext, ext <> "" /\ forall f, f ∈ files' -> fr_extension f = ext)
           \/ (5 <= List.length files'
               /\ target = join (root_path Scenario.self) "Miscellaneous_Files"
               /\ is_new = true))
       /\ (if is_new then dirname target = root_path Scenario.self
           else target ∈ map d_path (tail (_extract_all_folder_paths structure))).
Proof.
  cbv zeta. apply (loose_file_suggestions Scenario.self).
  vm_compute. apply list_elem_of_here.
Defined.

(** ** Sibling groups *)

Lemma grouped_with_elem (child1_name : string) (processed : gset path)
  (later : list path) (child : path) :
  child ∈ grouped_with child1_name processed later -> child ∈ later.
Proof.
  induction later as [|child2 later IH]; cbn [grouped_with]; [done|].
  case_bool_decide; [intros ?%IH; by apply list_elem_of_further|].
  destruct (_ || _).
  - intros [->|?%IH]%elem_of_cons; [apply list_elem_of_here | by apply list_elem_of_further].
  - intros ?%IH. by apply list_elem_of_further.
Qed.

Lemma similar_children_spec (children : list path) (processed : gset path)
  (group : list path) :
  group ∈ similar_children children processed ->
  3 <= List.length group /\ forall child, child ∈ group -> child ∈ children.
Proof.
  revert processed. induction children as [|child1 later IH]; intros processed;
    cbn [similar_children]; [by intros ?%elem_of_nil|].
  assert (Hlater : forall P, group ∈ similar_children later P ->
            3 <= List.length group
            /\ forall child, child ∈ group -> child ∈ child1 :: later).
  { intros P [? Hsub]%IH. split; [done|]. intros c Hc. apply list_elem_of_further; auto. }
  case_bool_decide; [apply Hlater|].
  destruct (Nat.leb_spec 3 (List.length (child1 :: grouped_with
              (Py.lower (basename child1)) processed later))) as [Hlen|Hlen];
    [|apply Hlater].
  intros [->|Hin]%elem_of_cons; [|by eapply Hlater].
  split; [done|]. intros c [->|Hc%grouped_with_elem]%elem_of_cons;
    [apply list_elem_of_here | by apply list_elem_of_further].
Qed.

(** X9.  For every graph, each group [_find_potential_groups] returns holds
    at least three folders, and they are all children of one node of the
    graph. *)
Theorem potential_groups_are_siblings (graph : digraph) (group : list path) :
  group ∈ _find_potential_groups graph ->
  3 <= List.length group
  /\ exists parent, parent ∈ nodes graph
                    /\ forall child, child ∈ group -> (parent, child) ∈ edges graph.
Proof.
  unfold _find_potential_groups. intros Hin.
  apply list_elem_of_In, in_flat_map in Hin as (parent & Hparent & Hin).
  apply list_elem_of_In, list_elem_of_filter in Hparent as [_ Hparent].
  destruct (_ <? _)%nat; [done|].
  apply list_elem_of_In, similar_children_spec in Hin as [Hlen Hsub].
  split; [done|]. exists parent. split; [done|]. intros child Hc%Hsub.
  unfold successors in Hc. apply list_elem_of_fmap in Hc as ([u v] & -> & Huv).
  apply list_elem_of_filter in Huv as [Hu Huv]. simpl in Hu. by subst.
Qed.

Lemma potential_groups_are_siblings_witness :
  let graph :=
    {| nodes := [["root"]; ["root"; "doc_a"]; ["root"; "doc_b"]; ["root"; "doc_c"]];
       edges := [(["root"], ["root"; "doc_a"]); (["root"], ["root"; "doc_b"]);
                 (["root"], ["root"; "doc_c"])] |} in
  let group := [["root"; "doc_a"]; ["root"; "doc_b"]; ["root"; "doc_c"]] in
  3 <= List.length group
  /\ exists parent, parent ∈ nodes graph
                    /\ forall child, child ∈ group -> (parent, child) ∈ edges graph.
Proof.
  cbv zeta. apply potential_groups_are_siblings.
  vm_compute. apply list_elem_of_here.
Defined.

(** ** Undo without a journal *)

(** X10.  For every world whose journal directory holds no file whose name
    starts with [changes_] (it may hold journals of explode), undo
    returns false and changes neither the tree, nor the journal
    directory, nor the snapshot. *)
Theorem undo_without_changes_journal (self : organizer) (w : world) :
  (forall name, is_Some (w_logs w !! name) -> String.prefix "changes_" name = false) ->
  let r := undo_last_change self w in
  fst r = false
  /\ h_fs (w_host (snd r)) = h_fs (w_host w)
  /\ w_logs (snd r) = w_logs w
  /\ w_snapshot (snd r) = w_snapshot w.
Proof.
  intros Hnone. cbv zeta. unfold undo_last_change.
  assert (Hlogs : change_logs (w_logs w) = []).
  { destruct (change_logs (w_logs w)) as [|f l] eqn:Hl; [done|].
    assert (Hf : f ∈ change_logs (w_logs w)) by (rewrite Hl; apply list_elem_of_here).
    apply elem_of_change_logs in Hf as [Hp Hs]. apply Hnone in Hs. congruence. }
  unfold latest_log. rewrite Hlogs. cbn [last fst snd w_host w_logs w_snapshot].
  by rewrite log_fs.
Qed.

Lemma undo_without_changes_journal_witness :
  let w := Scenario.world_of Scenario.loose in
  let r := undo_last_change Scenario.self w in
  fst r = false
  /\ h_fs (w_host (snd r)) = h_fs (w_host w)
  /\ w_logs (snd r) = w_logs w
  /\ w_snapshot (snd r) = w_snapshot w.
Proof.
  cbv zeta. apply undo_without_changes_journal.
  intros name [c Hc]. cbn in Hc. by rewrite lookup_empty in Hc.
Defined.

(** ** Explode and the snapshot *)

Lemma move_missing (src dst : path) (h : host) :
  h_fs h !! src = None -> exists e, move src dst h = (Raise e, h).
Proof.
  intros Hsrc. unfold move, rename, try_except, bind, get_fs, raise.
  destruct (h_fs h !! dst) as [[i|]|] eqn:Hdst; cbv beta iota; rewrite ?Hsrc.
  - rewrite (bool_decide_eq_false_2 (None = Some Dir)) by done. by eexists.
  - case_bool_decide as Heq; [by rewrite Heq, Hdst in Hsrc|].
    destruct (h_fs h !! join dst (basename src)); cbv beta iota; [by eexists|].
    rewrite Hsrc, (bool_decide_eq_false_2 (None = Some Dir)) by done. by eexists.
  - rewrite (bool_decide_eq_false_2 (None = Some Dir)) by done. by eexists.
Qed.

Lemma for_collect_stops {A B} (body : A -> F (option B)) (pre post : list A) (x : A)
  (h h' : host) (e : exn) :
  Forall (fun y => body y h = (Ret None, h)) pre ->
  body x h = (Raise e, h') ->
  for_collect (pre ++ x :: post) body h = (Raise e, h').
Proof.
  intros Hpre Hx. induction Hpre as [|y pre Hy _ IH]; cbn [app for_collect].
  - by apply bind_Raise.
  - rewrite (bind_Ret _ _ _ _ _ Hy). by apply bind_Raise.
Qed.

(** X11.  For every world whose snapshot lists, before any file that explode
    would move, a file outside the root that is no longer in the tree,
    explode returns false, writes no journal and leaves the tree as it
    is: explode moves the files of the snapshot without asking whether
    they still exist. *)
Theorem explode_stale_snapshot (self : organizer) (w : world) (structure : folder_node)
  (pre post : list file_record) (f : file_record) :
  w_snapshot w = Some structure ->
  _collect_all_files structure = pre ++ f :: post ->
  Forall (fun g => dirname (fr_path g) = root_path self) pre ->
  dirname (fr_path f) <> root_path self ->
  h_fs (w_host w) !! fr_path f = None ->
  let r := explode_folder_structure self w in
  fst r = false
  /\ w_logs (snd r) = w_logs w
  /\ h_fs (w_host (snd r)) = h_fs (w_host w).
Proof.
  intros Hsnap Hfiles Hpre Hf Hmissing. cbv zeta.
  unfold explode_folder_structure. cbn [tick fst snd]. rewrite Hsnap.
  set (h := snd (log self _ _)).
  assert (Hfs : h_fs h = h_fs (w_host w)) by (unfold h; by rewrite log_fs).
  assert (Hfail : exists e, explode_passes self structure h = (Raise e, h)).
  { unfold explode_passes. rewrite Hfiles.
    destruct (move_missing (fr_path f)
                (match h_fs h !! join (root_path self) (basename (fr_path f)) with
                 | Some _ =>
                     let '(base, ext) := splitext (basename (fr_path f)) in
                     first_free (S (size (h_fs h))) (h_fs h) (root_path self) base ext 1
                       (join (root_path self) (basename (fr_path f)))
                 | None => join (root_path self) (basename (fr_path f))
                 end) h) as [e He]; [by rewrite Hfs|].
    exists e. apply bind_Raise. apply for_collect_stops.
    - eapply Forall_impl; [exact Hpre|]. intros g Hg. by rewrite bool_decide_eq_true_2.
    - rewrite bool_decide_eq_false_2 by done.
      unfold bind at 1. unfold get_fs at 1. cbn beta iota.
      by apply bind_Raise. }
  destruct Hfail as [e ->]. unfold explode_failed. cbn [fst snd w_logs w_host].
  split; [done|]. split; [done|]. by rewrite log_fs.
Qed.

Lemma explode_stale_snapshot_witness :
  let structure :=
    {| fn_path := ["root"]; fn_name := "root";
       fn_subdirectories :=
         [{| fn_path := ["root"; "a"]; fn_name := "a"; fn_subdirectories := [];
             fn_file_count := 1;
             fn_files := [file_record_of ["root"; "a"] "gone.txt"] |}];
       fn_file_count := 1; fn_files := [file_record_of ["root"] "f.txt"] |} in
  let w := {| w_host := Scenario.host_of Scenario.nested; w_logs := ∅;
              w_snapshot := Some structure |} in
  let r := explode_folder_structure Scenario.self w in
  fst r = false
  /\ w_logs (snd r) = w_logs w
  /\ h_fs (w_host (snd r)) = h_fs (w_host w).
Proof.
  cbv zeta.
  eapply (explode_stale_snapshot Scenario.self _ _
            [file_record_of ["root"] "f.txt"] []
            (file_record_of ["root"; "a"] "gone.txt")).
  - reflexivity.
  - reflexivity.
  - by repeat constructor.
  - discriminate.
  - vm_compute. reflexivity.
Defined.

(** ** What a scan lists *)


(** The names of the subdirectories and of the other entries of a
    listing, in order. *)
Lemma scan_inv (fuel : nat) (fs : gmap path entry) (directory : path)
  (node : folder_node) :
  _scan_directory (S fuel) fs directory = Ret node ->
  fs !! directory = Some Dir
  /\ (fn_path node = directory /\ fn_name node = basename directory)
  /\ fn_file_count node = List.length (fn_files node)
  /\ fn_files node
     = map (fun ne => file_record_of directory (fst ne))
           (filter (fun ne => snd ne <> Dir) (children fs directory))
  /\ Forall2 (fun ne sub => _scan_directory fuel fs (join directory (fst ne)) = Ret sub)
       (filter (fun ne => snd ne = Dir) (children fs directory))
       (fn_subdirectories node).
Proof.
  unfold _scan_directory; fold _scan_directory.
  destruct (fs !! directory) as [[i|]|]; [done| |done].
  match goal with
  | |- match ?entries (children fs directory) with _ => _ end = _ -> _ =>
      set (scan_entries := entries)
  end.
  assert (Hentries : forall es subs fls,
    scan_entries es = Ret (subs, fls) ->
    fls = map (fun ne => file_record_of directory (fst ne))
              (filter (fun ne => snd ne <> Dir) es)
    /\ Forall2 (fun ne sub => _scan_directory fuel fs (join directory (fst ne)) = Ret sub)
         (filter (fun ne => snd ne = Dir) es) subs).
  { induction es as [|[name [i|]] es IH]; intros subs fls; cbn.
    - intros [= <- <-]. by split.
    - destruct (scan_entries es) as [[subs' fls']|] eqn:Hes; [|done].
      intros [= <- <-]. destruct (IH _ _ eq_refl) as [-> HF].
      rewrite decide_True by done. rewrite decide_False by done.
      by split.
    - destruct (_scan_directory fuel fs (join directory name)) as [sub|] eqn:Hsub; [|done].
      destruct (scan_entries es) as [[subs' fls']|] eqn:Hes; [|done].
      intros [= <- <-]. destruct (IH _ _ eq_refl) as [-> HF].
      rewrite decide_False by (intros Hn; by apply Hn).
      rewrite decide_True by done.
      split; [done|]. by constructor. }
  destruct (scan_entries (children fs directory)) as [[subs fls]|] eqn:Hes; [|done].
  intros [= <-]. cbn. apply Hentries in Hes as [-> HF]. done.
Qed.







(** ** The folders of a scan *)

Lemma children_names_NoDup (fs : gmap path entry) (dir : path) :
  NoDup (map fst (children fs dir)).
Proof.
  unfold children.
  assert (H : forall l : list (path * entry),
             NoDup (map fst l) ->
             NoDup (map fst (omap (fun pe : path * entry =>
                                     match strip_prefix dir (fst pe) with
                                     | Some [name] => Some (name, snd pe)
                                     | _ => None
                                     end) l))).
  { induction l as [|[p e] l IH]; [constructor|].
    cbn [map fst]. intros [Hp Hnd]%NoDup_cons. specialize (IH Hnd).
    cbn [omap list_omap fst snd].
    destruct (strip_prefix dir p) as [[|n [|]]|] eqn:Hs; try exact IH.
    cbn [map fst]. apply NoDup_cons. split; [|exact IH].
    intros ([n' e'] & Hn & Hin)%list_elem_of_fmap. cbn [fst] in Hn. subst n'.
    apply list_elem_of_omap in Hin as ([p' e''] & Hin & Hm). cbn [fst snd] in Hm.
    destruct (strip_prefix dir p') as [[|m [|]]|] eqn:Hs'; try done.
    injection Hm as <- <-. apply strip_prefix_Some in Hs, Hs'. subst.
    apply Hp. apply list_elem_of_fmap. eexists. split; [|exact Hin]. done. }
  apply H, NoDup_fst_map_to_list.
Qed.

Lemma extract_unfold (node : folder_node) :
  _extract_all_folder_paths node
  = {| d_path := fn_path node; d_name := fn_name node;
       d_subdirectories := None; d_files := None |}
    :: flat_map _extract_all_folder_paths (fn_subdirectories node).
Proof. by destruct node. Qed.

Lemma join_prefix_name (dir p : path) (n m : string) :
  join dir n `prefix_of` p -> join dir m `prefix_of` p -> n = m.
Proof.
  intros [t ->] [u Heq]. unfold join in Heq. rewrite <- !app_assoc in Heq.
  apply app_inv_head in Heq. by injection Heq.
Qed.

Lemma scan_folders (fuel : nat) (fs : gmap path entry) (root : path)
  (structure : folder_node) :
  _scan_directory fuel fs root = Ret structure ->
  NoDup (map d_path (_extract_all_folder_paths structure))
  /\ head (map d_path (_extract_all_folder_paths structure)) = Some root
  /\ forall folder, folder ∈ _extract_all_folder_paths structure ->
       root `prefix_of` d_path folder
       /\ fs !! d_path folder = Some Dir
       /\ d_name folder = basename (d_path folder).
Proof.
  revert root structure. induction fuel as [|fuel IH]; intros root structure; [done|].
  intros (Hroot & [Hpath Hname] & _ & _ & Hsubs)%scan_inv.
  rewrite extract_unfold, Hpath, Hname. cbn [map d_path head].
  assert (Hnames : NoDup (map fst (filter (fun ne : string * entry => snd ne = Dir)
                                     (children fs root)))).
  { eapply sublist_NoDup; [apply children_names_NoDup|].
    apply fmap_sublist, sublist_filter. }
  assert (Hbelow :
    NoDup (map d_path (flat_map _extract_all_folder_paths (fn_subdirectories structure)))
    /\ forall folder,
         folder ∈ flat_map _extract_all_folder_paths (fn_subdirectories structure) ->
         (exists ne, ne ∈ filter (fun ne : string * entry => snd ne = Dir) (children fs root)
                     /\ join root (fst ne) `prefix_of` d_path folder)
         /\ fs !! d_path folder = Some Dir
         /\ d_name folder = basename (d_path folder)).
  { induction Hsubs as [|ne sub ds subs Hscan _ IHsubs]; cbn [flat_map].
    - split; [constructor|]. by intros folder ?%elem_of_nil.
    - cbn [map fst] in Hnames. apply NoDup_cons in Hnames as [Hne Hnames].
      destruct (IHsubs Hnames) as [Hnd Hall].
      destruct (IH _ _ Hscan) as (Hnd1 & _ & Hall1).
      split.
      + rewrite map_app. apply NoDup_app. split; [done|]. split; [|done].
        intros p (f1 & -> & Hf1)%list_elem_of_fmap (f2 & Heq & Hf2)%list_elem_of_fmap.
        destruct (Hall1 _ Hf1) as (Hp1 & _).
        destruct (Hall _ Hf2) as ((ne' & Hin' & Hp2) & _).
        rewrite <- Heq in Hp2. pose proof (join_prefix_name _ _ _ _ Hp1 Hp2) as Hn.
        apply Hne. rewrite Hn. by apply list_elem_of_fmap_2.
      + intros folder [Hf|Hf]%elem_of_app.
        * destruct (Hall1 _ Hf) as (Hp & Hd & Hn). split; [|done].
          exists ne. split; [apply list_elem_of_here | done].
        * destruct (Hall _ Hf) as ((ne' & Hin' & Hp) & Hd & Hn). split; [|done].
          exists ne'. split; [by apply list_elem_of_further | done]. }
  destruct Hbelow as [Hnd Hall]. split; [|split; [done|]].
  - apply NoDup_cons. split; [|done].
    intros (folder & Heq & Hf)%list_elem_of_fmap.
    destruct (Hall _ Hf) as ((ne & _ & [t Ht]) & _).
    rewrite <- Heq in Ht. unfold join in Ht. rewrite <- app_assoc in Ht.
    apply (f_equal (@List.length string)) in Ht. rewrite length_app in Ht. simpl in Ht. lia.
  - intros folder [->|Hf]%elem_of_cons; [by cbn|].
    destruct (Hall _ Hf) as ((ne & _ & [t Ht]) & Hd & Hn). split; [|done].
    exists (fst ne :: t). rewrite Ht. unfold join. by rewrite <- app_assoc.
Qed.

(** X13.  For every tree and root, when the scan returns a snapshot, the
    folders [_extract_all_folder_paths] lists from it start with the
    root, have pairwise different paths, and each is a directory of the
    tree below the root, named by the last component of its path. *)
Theorem scan_lists_each_folder_once (self : organizer) (h h' : host)
  (structure : folder_node) :
  scan_folder_structure self h = (Ret structure, h') ->
  let folders := _extract_all_folder_paths structure in
  NoDup (map d_path folders)
  /\ head (map d_path folders) = Some (root_path self)
  /\ forall folder, folder ∈ folders ->
       root_path self `prefix_of` d_path folder
       /\ h_fs h !! d_path folder = Some Dir
       /\ d_name folder = basename (d_path folder).
Proof.
  rewrite scan_folder_structure_eq. intros [= Hscan _]. by eapply scan_folders.
Qed.

Lemma scan_lists_each_folder_once_witness :
  exists structure h',
    scan_folder_structure Scenario.self (Scenario.host_of Scenario.nested)
    = (Ret structure, h')
    /\ let folders := _extract_all_folder_paths structure in
       NoDup (map d_path folders)
       /\ head (map d_path folders) = Some (root_path Scenario.self)
       /\ forall folder, folder ∈ folders ->
            root_path Scenario.self `prefix_of` d_path folder
            /\ h_fs (Scenario.host_of Scenario.nested) !! d_path folder = Some Dir
            /\ d_name folder = basename (d_path folder).
Proof.
  eexists _, _. split; [vm_compute; reflexivity|].
  eapply scan_lists_each_folder_once. vm_compute. reflexivity.
Defined.

(** ** Moving a subtree and moving it back *)

Lemma strip_prefix_None_app (pre p : path) :
  strip_prefix pre p = None -> forall suffix, p <> pre ++ suffix.
Proof.
  intros Hn suffix ->. by rewrite strip_prefix_app in Hn.
Qed.



Lemma is_under_false (dir p : path) :
  is_under dir p = false -> forall suffix, p <> dir ++ suffix.
Proof.
  unfold is_under. destruct (strip_prefix dir p) eqn:Hs; [done|].
  intros _. by apply strip_prefix_None_app.
Qed.




(** ** Moves between known places *)






(** ** One suggestion applied, then undone *)



(** ** A relocation and its inverse *)





(* ===================================================================== *)
(** * Further properties of the name pattern analyzer *)
(* ===================================================================== *)

Import Py Nlp.

(** ** The longest common substring *)

Lemma prefix_length (t s : string) :
  String.prefix t s = true -> String.length t <= String.length s.
Proof.
  revert s. induction t as [|c t IH]; intros s; [simpl; lia|].
  destruct s as [|d s]; simpl; [done|]. destruct (ascii_dec c d); [|done].
  intros H%IH. lia.
Qed.

Lemma is_substring_spec (t s : string) :
  is_substring t s = true ->
  exists start, start + String.length t <= String.length s
                /\ String.substring start (String.length t) s = t.
Proof.
  induction s as [|c s IH].
  - cbn [is_substring]. rewrite orb_false_r. intros H. exists 0. split.
    + by apply prefix_length in H.
    + by apply prefix_correct.
  - cbn [is_substring]. intros [H|H]%orb_true_iff.
    + exists 0. split; [by apply prefix_length in H | by apply prefix_correct].
    + destruct (IH H) as (start & Hle & Hsub). exists (S start). split.
      * simpl. lia.
      * done.
Qed.

Lemma is_substring_substring (start n : nat) (s : string) :
  is_substring (String.substring start n s) s = true.
Proof.
  revert start. induction s as [|c s IH]; intros start.
  - by destruct start, n.
  - cbn [is_substring]. apply orb_true_iff. destruct start as [|start].
    + left. apply prefix_correct.
      assert (Hl : forall n s, String.length (String.substring 0 n s) <= n
                               /\ String.substring 0 (String.length (String.substring 0 n s)) s
                                  = String.substring 0 n s).
      { clear. induction n as [|n IHn]; intros [|c s]; simpl; try (split; [lia|done]).
        destruct (IHn s) as [? ->]. split; [lia|done]. }
      apply Hl.
    + right. apply IH.
Qed.

Lemma substring_length (start n : nat) (s : string) :
  start + n <= String.length s -> String.length (String.substring start n s) = n.
Proof.
  revert start n. induction s as [|c s IH]; intros [|start] [|n]; simpl; try lia.
  - intros H. rewrite IH; lia.
  - intros H. apply (IH start 0). lia.
  - intros H. apply IH. lia.
Qed.

Lemma common_at_Some (strings : list string) (shortest : string) (n : nat)
  (starts : list nat) (r : string) :
  common_at strings shortest n starts = Some r ->
  exists start, start ∈ starts /\ r = String.substring start n shortest
                /\ forallb (is_substring r) strings = true.
Proof.
  induction starts as [|start starts IH]; simpl; [done|].
  destruct (forallb (is_substring (String.substring start n shortest)) strings) eqn:Hall.
  - intros [= Heq]; subst r. exists start. split; [apply list_elem_of_here|done].
  - intros (start' & ? & ? & ?)%IH. exists start'. split; [by apply list_elem_of_further|done].
Qed.

Lemma common_at_None (strings : list string) (shortest : string) (n : nat)
  (starts : list nat) (start : nat) :
  common_at strings shortest n starts = None -> start ∈ starts ->
  forallb (is_substring (String.substring start n shortest)) strings = false.
Proof.
  induction starts as [|start' starts IH]; simpl; [by intros _ ?%elem_of_nil|].
  destruct (forallb (is_substring (String.substring start' n shortest)) strings) eqn:Hall;
    [done|].
  intros Hn [->|Hin]%elem_of_cons; auto.
Qed.

Lemma common_of_length_common (strings : list string) (shortest : string)
  (lengths : list nat) (s : string) :
  s ∈ strings -> is_substring (common_of_length strings shortest lengths) s = true.
Proof.
  intros Hin. induction lengths as [|n lengths IH]; simpl.
  - by destruct s.
  - destruct (common_at _ _ _ _) as [r|] eqn:Hr; [|done].
    apply common_at_Some in Hr as (_ & _ & _ & Hall).
    rewrite forallb_forall in Hall. apply Hall. by apply list_elem_of_In.
Qed.

Lemma common_of_length_long (strings : list string) (shortest : string)
  (before after : list nat) (n start : nat) :
  Forall (fun m => n <= m <= String.length shortest) before ->
  start + n <= String.length shortest ->
  forallb (is_substring (String.substring start n shortest)) strings = true ->
  n <= String.length (common_of_length strings shortest (before ++ n :: after)).
Proof.
  intros Hbefore Hstart Hall.
  induction Hbefore as [|m before [Hm1 Hm2] _ IH]; simpl.
  - destruct (common_at _ _ _ _) as [r|] eqn:Hr.
    + apply common_at_Some in Hr as (start' & Hin & -> & _).
      apply elem_of_seq in Hin. rewrite substring_length; lia.
    + eapply (common_at_None _ _ _ _ start) in Hr; [congruence|].
      apply elem_of_seq. lia.
  - destruct (common_at _ _ _ _) as [r|] eqn:Hr; [|done].
    apply common_at_Some in Hr as (start' & Hin & -> & _).
    apply elem_of_seq in Hin. rewrite substring_length; lia.
Qed.

(** X15.  For every list of strings, the string [_find_common_substring]
    returns occurs in each string of the list. *)
Theorem find_common_substring_occurs_in_all (strings : list string) (s : string) :
  s ∈ strings -> is_substring (_find_common_substring strings) s = true.
Proof.
  intros Hin. unfold _find_common_substring.
  destruct strings as [|first [|second rest]]; try by destruct s.
  by apply common_of_length_common.
Qed.

Lemma find_common_substring_occurs_in_all_witness :
  is_substring (_find_common_substring ["old_2021"; "d_2"; "abcd_2"]) "abcd_2" = true.
Proof.
  apply find_common_substring_occurs_in_all.
  apply list_elem_of_further, list_elem_of_further, list_elem_of_here.
Defined.

(** X16.  For every list of at least two strings, no string that occurs in all
    of them is longer than the one [_find_common_substring] returns. *)
Theorem find_common_substring_longest (strings : list string) (t : string) :
  2 <= List.length strings ->
  (forall s, s ∈ strings -> is_substring t s = true) ->
  String.length t <= String.length (_find_common_substring strings).
Proof.
  intros Hlen Hcommon. unfold _find_common_substring.
  destruct strings as [|first [|second rest]]; simpl in Hlen; try lia.
  set (shortest := min_by_len first (second :: rest)).
  assert (Hin : shortest ∈ first :: second :: rest) by apply min_by_len_elem.
  destruct (is_substring_spec t shortest (Hcommon _ Hin)) as (start & Hle & Hsub).
  destruct (decide (String.length t = 0)) as [->|Hpos]; [lia|].
  assert (Hsplit : rev (seq 1 (String.length shortest))
                   = rev (seq (S (String.length t)) (String.length shortest - String.length t))
                     ++ String.length t :: rev (seq 1 (String.length t - 1))).
  { replace (String.length shortest)
      with ((String.length t - 1) + 1 + (String.length shortest - String.length t)) at 1 by lia.
    rewrite seq_app, seq_app, !rev_app_distr. cbn [seq rev app].
    replace (1 + (String.length t - 1 + 1)) with (S (String.length t)) by lia.
    replace (1 + (String.length t - 1)) with (String.length t) by lia. done. }
  rewrite Hsplit. apply (common_of_length_long _ _ _ _ _ start).
  - apply Forall_forall. intros m Hm. apply list_elem_of_In, in_rev, list_elem_of_In in Hm.
    apply elem_of_seq in Hm. lia.
  - done.
  - rewrite Hsub. apply forallb_forall. intros s Hs. apply Hcommon. by apply list_elem_of_In.
Qed.

Lemma find_common_substring_longest_witness :
  String.length "d_2" <= String.length (_find_common_substring ["old_2021"; "d_2"; "abcd_2"]).
Proof.
  apply find_common_substring_longest; [simpl; lia|].
  intros s Hs. repeat (apply elem_of_cons in Hs as [->|Hs]); [by vm_compute..|].
  by apply elem_of_nil in Hs.
Defined.

(** ** The dominant patterns *)

Lemma bucket_get_present (k : string) (v : list string) (d : buckets) :
  NoDup (map fst d) -> (k, v) ∈ d -> bucket_get k d = v.
Proof.
  induction d as [|[k' v'] d IH]; [by intros _ ?%elem_of_nil|].
  cbn [map fst bucket_get]. intros [Hk' Hnd]%NoDup_cons [[= -> ->]|Hin]%elem_of_cons.
  - by rewrite String.eqb_refl.
  - destruct (String.eqb_spec k' k) as [->|_]; [|auto].
    destruct Hk'. change k with (fst (k, v)). by apply list_elem_of_fmap_2.
Qed.

Lemma dominant_loop_spec (items : buckets) (dominant_pattern : option string)
  (max_count : nat) :
  let r := dominant_loop None items dominant_pattern max_count in
  (r = dominant_pattern
   /\ forall k v, (k, v) ∈ items -> List.length v <= max_count)
  \/ (exists k v, r = Some k /\ (k, v) ∈ items /\ max_count < List.length v
                  /\ forall k' v', (k', v') ∈ items -> List.length v' <= List.length v).
Proof.
  cbv zeta. revert dominant_pattern max_count.
  induction items as [|[pattern names] items IH]; intros dp mc; cbn [dominant_loop].
  - left. split; [done|]. by intros k v ?%elem_of_nil.
  - rewrite bool_decide_eq_false_2 by done. rewrite andb_true_r.
    destruct (Nat.ltb_spec mc (List.length names)) as [Hlt|Hge].
    + right. destruct (IH (Some pattern) (List.length names))
        as [[-> Hall]|(k & v & -> & Hin & Hlt' & Hall)].
      * exists pattern, names. split; [done|]. split; [apply list_elem_of_here|].
        split; [done|]. intros k' v' [[= -> ->]|Hin]%elem_of_cons; [done|eauto].
      * exists k, v. split; [done|]. split; [by apply list_elem_of_further|].
        split; [lia|]. intros k' v' [[= -> ->]|Hin']%elem_of_cons; [lia|eauto].
    + destruct (IH dp mc) as [[-> Hall]|(k & v & -> & Hin & Hlt' & Hall)].
      * left. split; [done|]. intros k' v' [[= -> ->]|Hin]%elem_of_cons; [done|eauto].
      * right. exists k, v. split; [done|]. split; [by apply list_elem_of_further|].
        split; [done|]. intros k' v' [[= -> ->]|Hin']%elem_of_cons; [lia|eauto].
Qed.

Lemma bucket_get_elem (key : string) (d : buckets) :
  bucket_get key d = [] \/ (key, bucket_get key d) ∈ d.
Proof.
  induction d as [|[k v] d IH]; [by left|]. cbn [bucket_get].
  destruct (String.eqb_spec k key) as [->|_].
  - right. apply list_elem_of_here.
  - destruct IH; [by left | right; by apply list_elem_of_further].
Qed.

(** With distinct, non-empty keys, the pattern chosen has a bucket at
    least as long as every other. *)
Lemma dominant_is_largest (d : buckets) (fallback key : string) :
  NoDup (map fst d) -> "" ∉ map fst d ->
  List.length (bucket_get key d)
  <= List.length (bucket_get (or_else (dominant_loop None d None 0) fallback) d).
Proof.
  intros Hnd Hne.
  destruct (dominant_loop_spec d None 0) as [[-> Hall]|(k & v & -> & Hin & Hlt & Hall)].
  - destruct (bucket_get_elem key d) as [->|Hin]; [simpl; lia|].
    apply Hall in Hin. lia.
  - unfold or_else. destruct (String.eqb_spec k "") as [->|_].
    + destruct Hne. change "" with (fst ("", v)). by apply list_elem_of_fmap_2.
    + rewrite (bucket_get_present k v) by done.
      destruct (bucket_get_elem key d) as [->|Hin']; [simpl; lia|]. eauto.
Qed.

Lemma drop_empty_keys (d : buckets) : map fst (drop_empty d) `sublist_of` map fst d.
Proof. unfold drop_empty. apply fmap_sublist, sublist_filter. Qed.

Lemma analysis_keys (d0 d : buckets) :
  NoDup (map fst d0) -> "" ∉ map fst d0 -> map fst d = map fst d0 ->
  NoDup (map fst (drop_empty d)) /\ "" ∉ map fst (drop_empty d).
Proof.
  intros Hnd Hne Hk. split.
  - eapply sublist_NoDup; [|apply drop_empty_keys]. by rewrite Hk.
  - intros Hin. apply Hne. rewrite <- Hk.
    eapply elem_of_sublist; [done | apply drop_empty_keys].
Qed.

(** X17.  For every list of names, no separator bucket holds more names than
    the bucket of the pattern [_detect_dominant_separator_pattern]
    returns; for the empty list it returns underscore. *)
Theorem dominant_separator_pattern_is_largest (folder_names : list string) (key : string) :
  List.length (bucket_get key (_analyze_separator_patterns folder_names))
  <= List.length (bucket_get (_detect_dominant_separator_pattern folder_names)
                    (_analyze_separator_patterns folder_names))
  /\ _detect_dominant_separator_pattern [] = "underscore".
Proof.
  split; [|reflexivity].
  unfold _detect_dominant_separator_pattern.
  apply dominant_is_largest; unfold _analyze_separator_patterns;
    eapply analysis_keys; try apply fold_keys;
    apply (bool_decide_unpack _); by vm_compute.
Qed.

(** X18.  For every list of non-empty names, [_detect_dominant_case_pattern]
    returns a pattern, and no case bucket holds more names than the
    bucket of that pattern. *)
Theorem dominant_case_pattern_is_largest (folder_names : list string) (key : string) :
  Forall (fun n => n <> "") folder_names ->
  exists d k,
    _analyze_case_patterns folder_names = Ret d
    /\ _detect_dominant_case_pattern folder_names = Ret k
    /\ List.length (bucket_get key d) <= List.length (bucket_get k d).
Proof.
  intros Hall. unfold _detect_dominant_case_pattern, _analyze_case_patterns.
  rewrite case_loop_fold by done. eexists _, _. split; [done|]. split; [done|].
  apply dominant_is_largest;
    eapply analysis_keys; try apply fold_keys;
    apply (bool_decide_unpack _); by vm_compute.
Qed.

Lemma dominant_case_pattern_is_largest_witness :
  exists d k,
    _analyze_case_patterns ["Docs"; "photos"; "Music"; "myFolder"] = Ret d
    /\ _detect_dominant_case_pattern ["Docs"; "photos"; "Music"; "myFolder"] = Ret k
    /\ List.length (bucket_get "lowercase" d) <= List.length (bucket_get k d).
Proof.
  apply (dominant_case_pattern_is_largest ["Docs"; "photos"; "Music"; "myFolder"]).
  repeat constructor; discriminate.
Defined.

(** ** Names the patterns cannot match *)

(** A repetition followed by [rest] fails on [s] when [rest] fails on
    every suffix of [s]. *)
Lemma re_match_many_fails (P : string -> Prop) (cls : ascii -> bool) (least : nat)
  (rest : list atom) :
  (forall c s, P (String c s) -> P s) ->
  (forall s, P s -> re_match rest s = None) ->
  forall s, P s -> re_match (Many cls least :: rest) s = None.
Proof.
  intros Htail Hrest s Hs. cbn [re_match].
  match goal with
  | |- match ?many s 0 with _ => _ end = None =>
      assert (Hmany : forall taken, many s taken = None); [|by rewrite Hmany]
  end.
  induction s as [|c s IH]; intros taken.
  - rewrite (Hrest "" Hs). by destruct (least <=? taken)%nat.
  - rewrite (IH (Htail _ _ Hs)). rewrite (Hrest _ Hs).
    by destruct (cls c), (least <=? taken)%nat.
Qed.

(** At least one character of the class is needed. *)
Lemma re_match_many1_head (cls : ascii -> bool) (rest : list atom) (s : string) :
  match s with String c _ => cls c = false | EmptyString => True end ->
  re_match (Many cls 1 :: rest) s = None.
Proof.
  intros Hs. cbn [re_match]. destruct s as [|c s]; [done|].
  by rewrite Hs.
Qed.

Lemma only_tail cls c s : only cls (String c s) -> only cls s.
Proof. unfold only. simpl. by intros [_ ?]%Forall_cons. Qed.
Lemma only_head cls c s : only cls (String c s) -> cls c = true.
Proof. unfold only. simpl. by intros [? _]%Forall_cons. Qed.

Lemma sep_not_digit (c : ascii) : cls_sep c = true -> cls_digit c = false.
Proof. destruct c as [[] [] [] [] [] [] [] []]; by vm_compute. Qed.

Lemma digit_head_sep (s : string) :
  only cls_sep s ->
  match s with String c _ => cls_digit c = false | EmptyString => True end.
Proof. destruct s as [|c s]; [done|]. intros H%only_head. by apply sep_not_digit. Qed.

Lemma prefix_re_sep (s : string) : only cls_sep s -> re_match prefix_re s = None.
Proof. intros Hs. by apply re_match_many1_head, digit_head_sep. Qed.

Lemma re_match_One (cls : ascii -> bool) (rest : list atom) (c : ascii) (s : string) :
  re_match (One cls :: rest) (String c s)
  = if cls c then
      match re_match rest s with
      | Some caps => Some (String c "" :: caps)
      | None => None
      end
    else None.
Proof. reflexivity. Qed.

Lemma suffix_re_sep (s : string) : only cls_sep s -> re_match suffix_re s = None.
Proof.
  apply (re_match_many_fails (only cls_sep)); [apply only_tail|].
  intros [|c s'] Hs'; [done|]. rewrite re_match_One.
  rewrite (only_head _ _ _ Hs').
  by rewrite (re_match_many1_head cls_digit [Eos] s')
    by by apply digit_head_sep, (only_tail _ c).
Qed.

Lemma re_split_sep_only (s cur : string) :
  only cls_sep s ->
  filter (fun w => w <> "") (re_split_sep s cur) = filter (fun w => w <> "") [cur].
Proof.
  revert cur. induction s as [|c s IH]; intros cur Hs; [done|].
  cbn [re_split_sep]. rewrite (only_head _ _ _ Hs).
  rewrite filter_cons, (IH "" (only_tail _ _ _ Hs)).
  rewrite (filter_cons _ "").
  destruct (decide ("" <> "")) as [Hnn|_]; [by destruct Hnn|].
  rewrite filter_nil. by rewrite filter_cons, filter_nil.
Qed.

(** X19.  For every name made of separator characters only (the empty name
    included), standardizing to camel case raises [IndexError]: the name
    has no words, and the first word is asked for. *)
Theorem standardize_camelcase_without_words (name : string) (p : patterns) :
  Forall (fun c => cls_sep c = true) (list_ascii_of_string name) ->
  p_case p = "camelcase" ->
  _standardize_name name p = Raise IndexError.
Proof.
  intros Hname Hcase. unfold _standardize_name, _parse_name_components.
  rewrite prefix_re_sep, suffix_re_sep by done.
  rewrite re_split_sep_only by done.
  unfold _reconstruct_name. rewrite Hcase. cbn [words].
  rewrite filter_cons. by destruct (decide ("" <> "")) as [Hnn|_]; [destruct Hnn|].
Qed.

Lemma standardize_camelcase_without_words_witness :
  _standardize_name "_ -"
    {| p_case := "camelcase"; p_separator := "underscore"; p_numbering := None |}
  = Raise IndexError.
Proof.
  apply standardize_camelcase_without_words; [|reflexivity].
  repeat constructor.
Defined.

(** ** The numbering buckets *)

Lemma bucket_get_fold_opt (f : string -> option string) (names : list string)
  (d : buckets) (k : string) :
  k ∈ map fst d ->
  bucket_get k
    (fold_left (fun d name => match f name with
                              | Some key => bucket_append key name d
                              | None => d
                              end) names d)
  = bucket_get k d ++ filter (fun n => f n = Some k) names.
Proof.
  revert d. induction names as [|n names IH]; intros d Hk; simpl.
  - by rewrite app_nil_r.
  - rewrite filter_cons. destruct (f n) as [key|] eqn:Hf.
    + rewrite IH by (by rewrite bucket_append_keys).
      rewrite bucket_get_append.
      destruct (decide (Some key = Some k)) as [[= ->]|Hne].
      * rewrite decide_True by done. by rewrite <- app_assoc.
      * rewrite decide_False by (intros [? _]; congruence). done.
    + rewrite IH by done. by rewrite decide_False by done.
Qed.

Lemma fold_keys_opt (f : string -> option string) (names : list string) (d : buckets) :
  map fst (fold_left (fun d name => match f name with
                                    | Some key => bucket_append key name d
                                    | None => d
                                    end) names d) = map fst d.
Proof.
  revert d. induction names as [|n names IH]; intros d; simpl; [done|].
  rewrite IH. destruct (f n); [apply bucket_append_keys | done].
Qed.

Lemma numbering_bucket_keys (name key : string) :
  numbering_bucket name = Some key ->
  key ∈ ["leading_number"; "trailing_number"; "padded_number"; "no_number";
         "version_number"].
Proof.
  unfold numbering_bucket.
  repeat match goal with
         | |- context [if ?b then _ else _] => destruct b
         end; intros [= <-]; set_solver.
Qed.

(** X20.  For every list of names, [_analyze_numbering_patterns] lists a name
    under a key exactly when the name is in the list and that key is the
    one the chain of tests selects for it: no name is listed under two
    keys, and a name with digits that fits none of the patterns is not
    listed at all. *)
Theorem numbering_patterns_listing (folder_names : list string) (name key : string) :
  name ∈ bucket_get key (_analyze_numbering_patterns folder_names)
  <-> name ∈ folder_names /\ numbering_bucket name = Some key.
Proof.
  unfold _analyze_numbering_patterns.
  rewrite bucket_get_drop_empty
    by (rewrite fold_keys_opt; apply (bool_decide_unpack _); by vm_compute).
  set (d0 := [("leading_number", []); ("trailing_number", []); ("padded_number", []);
              ("no_number", []); ("version_number", [])]).
  destruct (decide (key ∈ map fst d0)) as [Hk|Hk].
  - rewrite bucket_get_fold_opt by done.
    rewrite (bucket_get_all_nil key d0) by (by repeat (constructor; [done|])).
    cbn [app]. rewrite list_elem_of_filter. tauto.
  - rewrite bucket_get_absent by (by rewrite fold_keys_opt). split.
    + by intros ?%elem_of_nil.
    + intros [_ Hb%numbering_bucket_keys]. by destruct Hk.
Qed.

(** ** Names that are already uniform *)

Lemma one_sep_no_sep (rest : list atom) (s : string) :
  no_sep s -> re_match (One cls_sep :: rest) s = None.
Proof.
  destruct s as [|c s]; [done|]. intros H%only_head. rewrite re_match_One.
  by destruct (cls_sep c).
Qed.

Lemma prefix_re_no_sep (s : string) : no_sep s -> re_match prefix_re s = None.
Proof.
  apply (re_match_many_fails no_sep); [apply only_tail|]. apply one_sep_no_sep.
Qed.

Lemma suffix_re_no_sep (s : string) : no_sep s -> re_match suffix_re s = None.
Proof.
  apply (re_match_many_fails no_sep); [apply only_tail|]. apply one_sep_no_sep.
Qed.

Lemma append_snoc (cur : string) (c : ascii) (s : string) :
  (cur +:+ String c "") +:+ s = cur +:+ String c s.
Proof.
  induction cur as [|d cur IH]; [done|].
  change (String d ((cur +:+ String c "") +:+ s) = String d (cur +:+ String c s)).
  by f_equal.
Qed.

Lemma append_empty (s : string) : s +:+ "" = s.
Proof.
  induction s as [|d s IH]; [done|].
  change (String d (s +:+ "") = String d s). by f_equal.
Qed.

Lemma re_split_sep_no_sep (s cur : string) :
  no_sep s -> re_split_sep s cur = [cur +:+ s].
Proof.
  revert cur. induction s as [|c s IH]; intros cur Hs; cbn [re_split_sep].
  - by rewrite append_empty.
  - pose proof (only_head _ _ _ Hs) as Hc. simpl in Hc.
    destruct (cls_sep c); [done|].
    rewrite (IH _ (only_tail _ _ _ Hs)). by rewrite append_snoc.
Qed.

Lemma lower_fixed (s : string) : str_exists c_isupper s = false -> lower s = s.
Proof.
  unfold lower. induction s as [|c s IH]; simpl; [done|].
  intros [Hc Hs]%orb_false_iff. rewrite IH by done. unfold c_lower. by rewrite Hc.
Qed.

Lemma islower_lower (s : string) : islower s = true -> lower s = s /\ s <> "".
Proof.
  unfold islower. intros [Hu Hl]%andb_true_iff. split.
  - apply lower_fixed. by destruct (str_exists c_isupper s).
  - by intros ->.
Qed.

Lemma standardize_lowercase_word (name : string) (p : patterns) :
  p_case p = "lowercase" -> islower name = true -> no_sep name ->
  _standardize_name name p = Ret name.
Proof.
  intros Hcase [Hlow Hne]%islower_lower Hsep.
  unfold _standardize_name, _parse_name_components.
  rewrite prefix_re_no_sep, suffix_re_no_sep by done.
  rewrite re_split_sep_no_sep by done. change ("" +:+ name) with name.
  rewrite filter_cons, decide_True, filter_nil by done.
  unfold _reconstruct_name. rewrite Hcase. cbn [String.eqb words map Py.join
    prefix_number suffix_number]. by rewrite Hlow.
Qed.

Lemma standardize_loop_fixed (p : patterns) (folder_names : list string)
  (acc : list (string * string)) :
  Forall (fun n => _standardize_name n p = Ret n) folder_names ->
  standardize_loop p folder_names acc = Ret acc.
Proof.
  induction 1 as [|n names Hn _ IH]; cbn [standardize_loop]; [done|].
  by rewrite Hn, String.eqb_refl.
Qed.

Lemma dominant_case_lowercase (folder_names : list string) :
  Forall (fun n => islower n = true) folder_names ->
  _detect_dominant_case_pattern folder_names = Ret "lowercase".
Proof.
  intros Hall. unfold _detect_dominant_case_pattern, _analyze_case_patterns.
  assert (Hne : Forall (fun n => n <> "") folder_names).
  { eapply Forall_impl; [done|]. by intros n [_ ?]%islower_lower. }
  rewrite case_loop_fold by done.
  set (d0 := [("lowercase", []); ("uppercase", []); ("capitalized", []);
              ("camelcase", []); ("mixed", [])]).
  set (d := drop_empty _).
  assert (Hkeys : NoDup (map fst d) /\ "" ∉ map fst d).
  { eapply (analysis_keys d0); [| |apply fold_keys];
      apply (bool_decide_unpack _); by vm_compute. }
  destruct Hkeys as [Hnd Hemp].
  destruct (dominant_loop_spec d None 0) as [[-> _]|(k & v & -> & Hin & Hlt & _)]; [done|].
  f_equal. unfold or_else.
  assert (Hk : k ∈ map fst d0).
  { rewrite <- (fold_keys case_key folder_names d0).
    apply (elem_of_sublist (map fst d)); [|apply drop_empty_keys].
    change k with (fst (k, v)). by apply list_elem_of_fmap_2. }
  pose proof (bucket_get_present k v d Hnd Hin) as Hv. unfold d in Hv.
  rewrite bucket_get_drop_empty in Hv
    by (rewrite fold_keys; apply (bool_decide_unpack _); by vm_compute).
  rewrite bucket_get_fold in Hv by done.
  rewrite (bucket_get_all_nil k d0) in Hv by (by repeat (constructor; [done|])).
  cbn [app] in Hv. destruct v as [|n v]; [simpl in Hlt; lia|].
  assert (Hn : n ∈ filter (fun n => case_key n = k) folder_names)
    by (rewrite Hv; apply list_elem_of_here).
  apply list_elem_of_filter in Hn as [<- Hn].
  rewrite Forall_forall in Hall. specialize (Hall _ Hn).
  unfold case_key, case_bucket. by rewrite Hall.
Qed.

(** X21.  For every list of names that are lower-case words without separator
    characters, [suggest_name_standardization] (with the patterns it
    detects itself) suggests no renaming. *)
Theorem uniform_names_need_no_standardization (folder_names : list string) :
  Forall (fun n => islower n = true
                   /\ Forall (fun c => cls_sep c = false) (list_ascii_of_string n))
         folder_names ->
  suggest_name_standardization folder_names None = Ret [].
Proof.
  intros Hall. unfold suggest_name_standardization.
  destruct folder_names as [|n0 names0] eqn:Heq; [done|]. rewrite <- Heq in *. clear Heq.
  rewrite dominant_case_lowercase by (eapply Forall_impl; [done|]; by intros n [? _]).
  apply standardize_loop_fixed. eapply Forall_impl; [done|].
  intros n [Hlow Hsep]. apply standardize_lowercase_word; [done|done|].
  unfold no_sep, only. eapply Forall_impl; [done|]. intros c ->. done.
Qed.

Lemma uniform_names_need_no_standardization_witness :
  suggest_name_standardization ["photos"; "docs2024"; "music"] None = Ret [].
Proof.
  apply uniform_names_need_no_standardization.
  repeat (constructor; [split; [reflexivity | repeat constructor]|]). constructor.
Defined.

(** ** The separators of a standardized name *)

Lemma chars_app (s t : string) :
  list_ascii_of_string (s +:+ t) = list_ascii_of_string s ++ list_ascii_of_string t.
Proof.
  induction s as [|c s IH]; [done|].
  change (String c s +:+ t) with (String c (s +:+ t)). cbn. by rewrite IH.
Qed.

Lemma only_app (cls : ascii -> bool) (s t : string) :
  only cls (s +:+ t) <-> only cls s /\ only cls t.
Proof. unfold only. rewrite chars_app. apply Forall_app. Qed.

Lemma only_impl (cls cls' : ascii -> bool) (s : string) :
  (forall c, cls c = true -> cls' c = true) -> only cls s -> only cls' s.
Proof. intros H Hs. unfold only in *. eapply Forall_impl; [exact Hs | exact H]. Qed.

(** What a repetition and a single character capture. *)
Lemma re_match_many_inv (cls : ascii -> bool) (least : nat) (rest : list atom)
  (s : string) (caps : list string) :
  re_match (Many cls least :: rest) s = Some caps ->
  exists cap caps' s', caps = cap :: caps' /\ only cls cap
                       /\ re_match rest s' = Some caps'.
Proof.
  cbn [re_match].
  match goal with
  | |- match ?many s 0 with _ => _ end = _ -> _ =>
      assert (Hmany : forall s taken cap caps',
                many s taken = Some (cap, caps') ->
                only cls cap /\ exists s', re_match rest s' = Some caps');
        [|destruct (many s 0) as [[cap caps']|] eqn:Hm; [|done];
          intros [= <-]; destruct (Hmany _ _ _ _ Hm) as [? [s' ?]];
          by exists cap, caps', s']
  end.
  clear s caps. induction s as [|c s IH]; intros taken cap caps'.
  - destruct (least <=? taken)%nat; [|done].
    destruct (re_match rest "") as [caps|] eqn:Hr; [|done].
    intros [= <- <-]. split; [constructor | by exists ""].
  - assert (Hstop : (if (least <=? taken)%nat
                     then match re_match rest (String c s) with
                          | Some caps => Some ("", caps)
                          | None => None
                          end
                     else None) = Some (cap, caps') ->
                    only cls cap /\ exists s', re_match rest s' = Some caps').
    { destruct (least <=? taken)%nat; [|done].
      destruct (re_match rest (String c s)) as [caps|] eqn:Hr; [|done].
      intros [= <- <-]. split; [constructor | by exists (String c s)]. }
    destruct (cls c) eqn:Hc; [|exact Hstop].
    match goal with
    | |- match ?m with _ => _ end = _ -> _ => destruct m as [[cap0 caps0]|] eqn:Hm
    end; [|exact Hstop].
    intros [= <- <-]. destruct (IH _ _ _ Hm) as [Hcap Hrest].
    split; [by constructor | done].
Qed.

Lemma re_match_One_inv (cls : ascii -> bool) (rest : list atom) (s : string)
  (caps : list string) :
  re_match (One cls :: rest) s = Some caps ->
  exists c s' caps', s = String c s' /\ caps = String c "" :: caps'
                     /\ re_match rest s' = Some caps'.
Proof.
  destruct s as [|c s]; [done|]. rewrite re_match_One.
  destruct (cls c); [|done]. destruct (re_match rest s) as [caps'|] eqn:Hr; [|done].
  intros [= <-]. by exists c, s, caps'.
Qed.

Lemma digit_not_sep (c : ascii) : cls_digit c = true -> negb (cls_sep c) = true.
Proof. destruct c as [[] [] [] [] [] [] [] []]; by vm_compute. Qed.

Lemma parse_numbers_are_digits (name : string) :
  (forall num, prefix_number (_parse_name_components name) = Some num -> no_sep num)
  /\ (forall num, suffix_number (_parse_name_components name) = Some num -> no_sep num).
Proof.
  unfold _parse_name_components.
  destruct (re_match prefix_re name) as [caps|] eqn:Hp.
  - apply re_match_many_inv in Hp as (g1 & caps1 & s1 & -> & Hg1 & Hp).
    apply re_match_One_inv in Hp as (c & s2 & caps2 & -> & -> & Hp).
    apply re_match_many_inv in Hp as (g3 & caps3 & s3 & -> & Hg3 & Hp).
    cbn [re_match] in Hp. injection Hp as <-.
    destruct (re_match suffix_re g3) as [caps|] eqn:Hs.
    + apply re_match_many_inv in Hs as (k1 & kcaps1 & t1 & -> & _ & Hs).
      apply re_match_One_inv in Hs as (d & t2 & kcaps2 & -> & -> & Hs).
      apply re_match_many_inv in Hs as (k3 & kcaps3 & t3 & -> & Hk3 & Hs).
      cbn [re_match] in Hs. destruct (at_end t3); [|done]. injection Hs as <-.
      cbn. split; intros num [= <-];
        eapply only_impl; try apply digit_not_sep; done.
    + cbn. split; [|done]. intros num [= <-].
      eapply only_impl; try apply digit_not_sep; done.
  - destruct (re_match suffix_re name) as [caps|] eqn:Hs.
    + apply re_match_many_inv in Hs as (k1 & kcaps1 & t1 & -> & _ & Hs).
      apply re_match_One_inv in Hs as (d & t2 & kcaps2 & -> & -> & Hs).
      apply re_match_many_inv in Hs as (k3 & kcaps3 & t3 & -> & Hk3 & Hs).
      cbn [re_match] in Hs. destruct (at_end t3); [|done]. injection Hs as <-.
      cbn. split; [done|]. intros num [= <-].
      eapply only_impl; try apply digit_not_sep; done.
    + cbn. by split.
Qed.

Lemma only_snoc (cls : ascii -> bool) (s : string) (c : ascii) :
  only cls s -> cls c = true -> only cls (s +:+ String c "").
Proof. intros Hs Hc. apply only_app. split; [done|]. by repeat constructor. Qed.

Lemma re_split_sep_pieces (s cur : string) :
  no_sep cur -> Forall no_sep (re_split_sep s cur).
Proof.
  revert cur. induction s as [|c s IH]; intros cur Hcur; cbn [re_split_sep].
  - by repeat constructor.
  - destruct (cls_sep c) eqn:Hc.
    + constructor; [done|]. apply IH. constructor.
    + apply IH. apply only_snoc; [done|]. by rewrite Hc.
Qed.

Lemma str_map_no_sep (f : ascii -> ascii) (s : string) :
  (forall c, cls_sep c = false -> cls_sep (f c) = false) ->
  no_sep s -> no_sep (str_map f s).
Proof.
  intros Hf. unfold no_sep, only. induction s as [|c s IH]; cbn; [done|].
  intros [Hc Hs]%Forall_cons. constructor; [|by apply IH].
  rewrite Hf; [done|]. by destruct (cls_sep c).
Qed.

Lemma c_lower_no_sep (c : ascii) : cls_sep c = false -> cls_sep (c_lower c) = false.
Proof. destruct c as [[] [] [] [] [] [] [] []]; by vm_compute. Qed.
Lemma c_upper_no_sep (c : ascii) : cls_sep c = false -> cls_sep (c_upper c) = false.
Proof. destruct c as [[] [] [] [] [] [] [] []]; by vm_compute. Qed.

Lemma capitalize_word_no_sep (w : string) : no_sep w -> no_sep (capitalize_word w).
Proof.
  destruct w as [|c w]; [done|]. intros Hw. cbn [capitalize_word].
  pose proof (only_head _ _ _ Hw) as Hc. pose proof (only_tail _ _ _ Hw) as Hw'.
  constructor.
  - simpl in Hc. rewrite c_upper_no_sep; [done|]. by destruct (cls_sep c).
  - exact (str_map_no_sep c_lower w c_lower_no_sep Hw').
Qed.

Lemma digit_char_no_sep (n : N) : cls_sep (digit_char (n mod 10)) = false.
Proof.
  assert (Hlt : (n mod 10 < 10)%N) by (by apply N.mod_lt).
  destruct (n mod 10)%N as [|d]; [done|].
  do 4 (destruct d as [d|d|]; try done); lia.
Qed.

Lemma str_N_fuel_no_sep (fuel : nat) (n : N) (acc : string) :
  no_sep acc -> no_sep (str_N_fuel fuel n acc).
Proof.
  revert n acc. induction fuel as [|fuel IH]; intros n acc Hacc; cbn [str_N_fuel]; [done|].
  assert (Hacc' : no_sep (String (digit_char (n mod 10)) acc)).
  { constructor; [|done]. by rewrite digit_char_no_sep. }
  destruct (n <? 10)%N; [done | by apply IH].
Qed.

Lemma format_02d_no_sep (n : N) : no_sep (format_02d n).
Proof.
  unfold format_02d, str_N. destruct (n <? 10)%N.
  - constructor; [done|]. apply str_N_fuel_no_sep. constructor.
  - apply str_N_fuel_no_sep. constructor.
Qed.

(** A string whose only separator character, if any, is [sep]. *)
Lemma join_no_sep (ws : list string) : Forall no_sep ws -> no_sep (join "" ws).
Proof.
  induction 1 as [|w ws Hw Hws IH]; [constructor|].
  cbn [join]. destruct ws as [|w' ws']; [done|].
  change ("" +:+ join "" (w' :: ws')) with (join "" (w' :: ws')).
  apply only_app. by split.
Qed.

Lemma join_one_sep (P : ascii -> Prop) (sep : string) (ws : list string) :
  Forall P (list_ascii_of_string sep) ->
  Forall (fun w => Forall P (list_ascii_of_string w)) ws ->
  Forall P (list_ascii_of_string (join sep ws)).
Proof.
  intros Hsep. induction 1 as [|w ws Hw Hws IH]; [constructor|].
  cbn [join]. destruct ws as [|w' ws']; [done|].
  rewrite !chars_app. apply Forall_app. split; [done|]. apply Forall_app. by split.
Qed.

(** X22.  For every name and patterns, when [_standardize_name] returns, the
    only separator character the result can hold (underscore, hyphen or
    white space) is the one of the chosen separator pattern, and a camel
    case result holds none. *)
Theorem standardized_name_has_one_separator (name : string) (p : patterns) (r : string) :
  _standardize_name name p = Ret r ->
  let separator :=
    if String.eqb (p_separator p) "hyphen" then "-"%char
    else if String.eqb (p_separator p) "space" then " "%char
    else "_"%char in
  Forall (fun c => cls_sep c = true -> p_case p <> "camelcase" /\ c = separator)
         (list_ascii_of_string r).
Proof.
  unfold _standardize_name. cbv zeta.
  set (separator := if String.eqb (p_separator p) "hyphen" then "-"%char
                    else if String.eqb (p_separator p) "space" then " "%char
                    else "_"%char).
  destruct (parse_numbers_are_digits name) as [Hpre Hsuf].
  assert (Hwords : Forall no_sep (words (_parse_name_components name))).
  { unfold _parse_name_components.
    repeat match goal with
           | |- context [match ?m with _ => _ end] => destruct m
           end; cbn [words];
      apply Forall_forall; intros w [_ Hw]%list_elem_of_filter; revert w Hw;
      apply Forall_forall, re_split_sep_pieces; constructor. }
  revert Hpre Hsuf Hwords. generalize (_parse_name_components name). intros c Hpre Hsuf Hwords.
  assert (Hweak : forall s, no_sep s ->
            p_case p <> "camelcase" ->
            Forall (fun c => cls_sep c = true -> p_case p <> "camelcase" /\ c = separator)
                   (list_ascii_of_string s)).
  { intros s Hs Hcase. eapply Forall_impl; [exact Hs|]. intros a Ha Hsep.
    simpl in Ha. by rewrite Hsep in Ha. }
  assert (Hfinish : forall ws, Forall no_sep ws -> p_case p <> "camelcase" ->
    forall r,
    (let separator0 :=
       if String.eqb (p_separator p) "underscore" then "_"
       else if String.eqb (p_separator p) "hyphen" then "-"
       else if String.eqb (p_separator p) "space" then " "
       else "_" in
     let main_text := join separator0 ws in
     let padded := match p_numbering p with
                   | Some n => String.eqb n "padded_number"
                   | None => false
                   end in
     let result := main_text in
     let result :=
       match prefix_number c with
       | Some num =>
           if padded then format_02d (int num) +:+ separator0 +:+ main_text
           else num +:+ separator0 +:+ main_text
       | None => result
       end in
     let result :=
       match suffix_number c with
       | Some num =>
           if padded then main_text +:+ separator0 +:+ format_02d (int num)
           else main_text +:+ separator0 +:+ num
       | None => result
       end in
     Ret result) = Ret r ->
    Forall (fun c => cls_sep c = true -> p_case p <> "camelcase" /\ c = separator)
           (list_ascii_of_string r)).
  { intros ws Hws Hcase r0. cbv zeta.
    set (separator0 := if String.eqb (p_separator p) "underscore" then "_"
                       else if String.eqb (p_separator p) "hyphen" then "-"
                       else if String.eqb (p_separator p) "space" then " "
                       else "_").
    assert (Hsep0 : Forall (fun c => cls_sep c = true ->
                                     p_case p <> "camelcase" /\ c = separator)
                           (list_ascii_of_string separator0)).
    { unfold separator0, separator.
      destruct (String.eqb_spec (p_separator p) "underscore") as [->|_];
        [by repeat constructor|].
      destruct (String.eqb (p_separator p) "hyphen"); [by repeat constructor|].
      destruct (String.eqb (p_separator p) "space"); by repeat constructor. }
    assert (Hmain : Forall (fun c => cls_sep c = true ->
                                     p_case p <> "camelcase" /\ c = separator)
                           (list_ascii_of_string (join separator0 ws))).
    { apply join_one_sep; [done|]. eapply Forall_impl; [exact Hws|].
      intros w Hw. by apply Hweak. }
    intros [= <-].
    destruct (suffix_number c) as [sn|]; [|destruct (prefix_number c) as [pn|]];
      [| |done]; destruct (match p_numbering p with Some _ => _ | None => _ end);
      rewrite !chars_app; repeat (apply Forall_app; split); try done;
      apply Hweak; try done; try apply format_02d_no_sep; by auto. }
  unfold _reconstruct_name.
  destruct (String.eqb_spec (p_case p) "lowercase") as [Hc|Hc1].
  { apply Hfinish; [|by rewrite Hc].
    apply Forall_fmap. eapply Forall_impl; [exact Hwords|]. intros w Hw.
    exact (str_map_no_sep c_lower w c_lower_no_sep Hw). }
  destruct (String.eqb_spec (p_case p) "uppercase") as [Hc|Hc2].
  { apply Hfinish; [|by rewrite Hc].
    apply Forall_fmap. eapply Forall_impl; [exact Hwords|]. intros w Hw.
    exact (str_map_no_sep c_upper w c_upper_no_sep Hw). }
  destruct (String.eqb_spec (p_case p) "capitalized") as [Hc|Hc3].
  { apply Hfinish; [|by rewrite Hc].
    apply Forall_fmap. eapply Forall_impl; [exact Hwords|]. intros w Hw.
    by apply capitalize_word_no_sep. }
  destruct (String.eqb_spec (p_case p) "camelcase") as [Hc|Hc4].
  { destruct (words c) as [|w0 ws] eqn:Hw; [done|]. intros [= <-].
    apply Forall_cons in Hwords as [Hw0 Hws].
    assert (Hjoin : no_sep (join "" (lower w0 :: map capitalize_word ws))).
    { apply join_no_sep. constructor.
      - exact (str_map_no_sep c_lower w0 c_lower_no_sep Hw0).
      - apply Forall_fmap. eapply Forall_impl; [exact Hws|]. intros w Hw'.
        by apply capitalize_word_no_sep. }
    eapply Forall_impl; [exact Hjoin|]. intros a Ha Hsep. simpl in Ha.
    by rewrite Hsep in Ha. }
  by apply Hfinish.
Qed.

Lemma standardized_name_has_one_separator_witness :
  Forall (fun c => cls_sep c = true -> "lowercase" <> "camelcase" /\ c = "_"%char)
         (list_ascii_of_string "my_old_folder_2").
Proof.
  apply (standardized_name_has_one_separator "My-old folder_2"
           {| p_case := "lowercase"; p_separator := "underscore"; p_numbering := None |}).
  reflexivity.
Defined.
